(** * CoffeeDropMonitor: the change-detection and reconciliation engine

    A shallow embedding of [coffee_monitor.py]: the identity function, the
    listing parser's de-duplication loop, the two persistent stores (the
    Firestore collection and its SQLite mirror), the reconciliation run
    [run_once] with its staleness pass, and the notification composer;
    and around them the tried ledger, the one-way sync, the destructive
    maintenance commands, the posting of the notification, the fetch with
    retries, the migration of the table and the simulation.

    Conventions.
    - A Python [str] is represented by the Rocq [string] holding its UTF-8
      encoding, so [s.encode("utf-8")] is the byte list of the
      representation, concatenation is concatenation and the code-point
      order used by [sorted] is the byte order of [String.compare] (UTF-8
      preserves code-point order).
    - A Python [dict] or Firestore collection that is only looked up, or
      whose iteration order cannot influence the resulting state, is a
      [gmap]; a Python [set] is a [gset].
    - A call that may raise returns an [option]; [None] is the exception.
    - The outside world (HTTP, the HTML parser, the clock, a failing
      Firestore write) enters as data: [parse_products] is written against
      an interface of the parser, and a run takes, for each roaster, what
      its fetch and parse gave, and for each item the details scraped, the
      reading of the clock and whether the remote write raises.
    - The documents of the collection are the full records
      [upsert_firestore] writes; the Firestore calls of the staleness pass
      are followed on their success path (an exception there is caught,
      logged, and only leaves updates undone). *)

From Stdlib Require Import ZArith DecimalString Sorted.
From Stdlib Require OrderedTypeEx.
From stdpp Require Import gmap strings list fin_maps.

Open Scope string_scope.
Open Scope list_scope.

(* ===================================================================== *)
(** ** hashlib.sha1 *)
(* ===================================================================== *)

Module SHA1.

Open Scope Z_scope.

(** 32-bit words are integers reduced with the mask [0xFFFFFFFF]. *)
Definition mask32 (x : Z) : Z := Z.land x 0xFFFFFFFF.
Definition add32 (x y : Z) : Z := mask32 (x + y).
Definition rotl32 (n x : Z) : Z :=
  mask32 (Z.lor (Z.shiftl x n) (Z.shiftr x (32 - n))).
Definition not32 (x : Z) : Z := Z.lxor x 0xFFFFFFFF.

(** The length of the message in bits, as eight big-endian bytes. *)
Definition length_bytes (bits : Z) : list Z :=
  List.map (fun i => Z.land (Z.shiftr bits (8 * i)) 0xFF) [7; 6; 5; 4; 3; 2; 1; 0].

(** Padding: one [0x80] byte, zeros up to 56 modulo 64, then the length. *)
Definition pad (msg : list Z) : list Z :=
  let len := Z.of_nat (length msg) in
  let zeros := Z.to_nat ((55 - len) mod 64) in
  msg ++ [0x80] ++ replicate zeros 0 ++ length_bytes (8 * len).

Fixpoint be_words (n : nat) (bs : list Z) : list Z :=
  match n, bs with
  | S n', b0 :: b1 :: b2 :: b3 :: rest =>
      Z.lor (Z.shiftl b0 24) (Z.lor (Z.shiftl b1 16) (Z.lor (Z.shiftl b2 8) b3))
      :: be_words n' rest
  | _, _ => []
  end.

(** The message schedule, kept most-recent-first while it is extended. *)
Fixpoint extend (n : nat) (rev_w : list Z) : list Z :=
  match n with
  | O => rev_w
  | S n' =>
      let w := rotl32 1 (Z.lxor (Z.lxor (nth 2 rev_w 0) (nth 7 rev_w 0))
                                (Z.lxor (nth 13 rev_w 0) (nth 15 rev_w 0))) in
      extend n' (w :: rev_w)
  end.

Definition schedule (block : list Z) : list Z :=
  rev (extend 64 (rev (be_words 16 block))).

Record state := State { ha : Z; hb : Z; hc : Z; hd : Z; he : Z }.

Definition init : state :=
  State 0x67452301 0xEFCDAB89 0x98BADCFE 0x10325476 0xC3D2E1F0.

Definition round (i : nat) (w : Z) (s : state) : state :=
  let '(State a b c d e) := s in
  let '(f, k) :=
    if (i <? 20)%nat then (Z.lor (Z.land b c) (Z.land (not32 b) d), 0x5A827999)
    else if (i <? 40)%nat then (Z.lxor b (Z.lxor c d), 0x6ED9EBA1)
    else if (i <? 60)%nat then
      (Z.lor (Z.land b c) (Z.lor (Z.land b d) (Z.land c d)), 0x8F1BBCDC)
    else (Z.lxor b (Z.lxor c d), 0xCA62C1D6) in
  let temp := add32 (add32 (add32 (add32 (rotl32 5 a) f) e) k) w in
  State temp a (rotl32 30 b) c d.

Fixpoint rounds (i : nat) (ws : list Z) (s : state) : state :=
  match ws with
  | [] => s
  | w :: ws' => rounds (S i) ws' (round i w s)
  end.

Definition compress (h : state) (block : list Z) : state :=
  let '(State a b c d e) := rounds 0 (schedule block) h in
  State (add32 (ha h) a) (add32 (hb h) b) (add32 (hc h) c)
        (add32 (hd h) d) (add32 (he h) e).

Fixpoint blocks (n : nat) (h : state) (bs : list Z) : state :=
  match n with
  | O => h
  | S n' => blocks n' (compress h (take 64 bs)) (drop 64 bs)
  end.

Definition hash (msg : list Z) : state :=
  let padded := pad msg in
  blocks (length padded / 64) init padded.

Definition be_bytes (w : Z) : list Z :=
  List.map (fun i => Z.land (Z.shiftr w (8 * i)) 0xFF) [3; 2; 1; 0].

(** [hashlib.sha1(data).digest()]: the twenty bytes of the five words. *)
Definition digest (msg : list Z) : list Z :=
  let '(State a b c d e) := hash msg in
  be_bytes a ++ be_bytes b ++ be_bytes c ++ be_bytes d ++ be_bytes e.

Definition hex_digit (x : Z) : Ascii.ascii :=
  default Ascii.zero (String.get (Z.to_nat x) "0123456789abcdef").

Definition hex_byte (b : Z) : list Ascii.ascii :=
  [hex_digit (Z.shiftr b 4); hex_digit (Z.land b 0xF)].

(** [hashlib.sha1(data).hexdigest()]: two lowercase hexadecimal digits
    for each byte of the digest. *)
Definition hexdigest (msg : list Z) : string :=
  String.string_of_list_ascii (flat_map hex_byte (digest msg)).

End SHA1.

(** [s.encode("utf-8")]: the bytes of the representation. *)
Definition encode_utf8 (s : string) : list Z :=
  List.map (fun c => Z.of_N (Ascii.N_of_ascii c)) (String.list_ascii_of_string s).

(** Python slice [s[:n]]. *)
Definition str_prefix (n : nat) (s : string) : string := String.substring 0 n s.

(** Python truthiness of a string, and of an optional string ([None] and
    the empty string are both false). *)
Definition nonempty (s : string) : bool := negb (String.eqb s "").

Definition truthy (o : option string) : option string :=
  match o with
  | Some s => if nonempty s then Some s else None
  | None => None
  end.

(** [a or b] on strings. *)
Definition str_or (a b : string) : string := if nonempty a then a else b.

(* ===================================================================== *)
(** ** Products and their identifier *)
(* ===================================================================== *)

(** The [Product] dataclass. *)
Record Product := mkProduct {
  roaster : string;
  title : string;
  url : string;
  price_text : string;
  in_stock : bool;
  producer : string;
  country : string;
  region : string;
  process : string;
  variety : string;
  notes : string;
  profile : string;
  image : string
}.

(** [Product.id]: [hashlib.sha1(self.url.encode("utf-8")).hexdigest()[:16]]. *)
Definition Product_id (p : Product) : string :=
  str_prefix 16 (SHA1.hexdigest (encode_utf8 (url p))).

(** [product_id_from_url]. *)
Definition product_id_from_url (u : string) : string :=
  str_prefix 16 (SHA1.hexdigest (encode_utf8 u)).

(** The identifier as the specification words it: the first sixteen
    hexadecimal characters of the SHA-1 digest of the UTF-8 encoding. *)
Definition identifier_spec (u : string) : string :=
  String.string_of_list_ascii
    (take 16 (flat_map SHA1.hex_byte (SHA1.digest (encode_utf8 u)))).

(** The [RoasterConfig] dataclass. *)
Record RoasterConfig := mkRoasterConfig {
  name : string;
  start_url : string;
  product_selector : string;
  title_selector : string;
  link_selector : string;
  price_selector : option string;
  soldout_selector : option string
}.

(* ===================================================================== *)
(** ** The listing parser *)
(* ===================================================================== *)

(** What [parse_products] uses of BeautifulSoup, [urllib.parse] and [re]:
    the parser is written against this interface and its properties hold
    for every implementation of it.  [normalize_space], which is
    [_space_re.sub(" ", s).strip()] over Unicode whitespace, is part of
    the interface too: it shapes titles and prices only. *)
Class Scraper (Tag : Type) := {
  (** [BeautifulSoup(html, "html.parser")] *)
  parse_html : string -> Tag;
  (** [tag.select(css)] and [tag.select_one(css)] *)
  select : Tag -> string -> list Tag;
  select_one : Tag -> string -> option Tag;
  (** [tag.get(attribute)] *)
  tag_get : Tag -> string -> option string;
  (** [tag.get_text(" ")] *)
  get_text : Tag -> string;
  (** [urljoin(base, href)] *)
  urljoin : string -> string -> string;
  (** [normalize_space(s)] *)
  normalize_space : string -> string;
  (** [re.search(r"sold\s*out", s, re.I)] is not [None] *)
  search_sold_out : string -> bool;
  (** [re.search(r"\bSold\s*out\b", s, re.I)] is not [None] *)
  search_sold_out_word : string -> bool
}.

(** [s.split(" ")[0]]: the characters before the first space. *)
Fixpoint split_space_first (s : string) : string :=
  match s with
  | EmptyString => EmptyString
  | String c rest =>
      if Ascii.eqb c (Ascii.ascii_of_nat 32) then EmptyString
      else String c (split_space_first rest)
  end.

Section ParseProducts.
Context {Tag : Type} `{Scraper Tag}.

(** Absolute URL of a link target. *)
Definition absolute_url (cfg : RoasterConfig) (href : string) : string :=
  if String.prefix "/" href then urljoin (start_url cfg) href else href.

(** [select_one] with an optional selector: [None] and the empty
    selector select nothing. *)
Definition select_opt (node : Tag) (sel : option string) : option Tag :=
  match truthy sel with
  | Some s => select_one node s
  | None => None
  end.

Definition image_of (node : Tag) : string :=
  match select_one node "img" with
  | None => ""
  | Some img_el =>
      match truthy (tag_get img_el "src"), truthy (tag_get img_el "data-src"),
            truthy (tag_get img_el "data-srcset") with
      | Some src, _, _ => src
      | None, Some dsrc, _ => dsrc
      | None, None, Some dset => split_space_first dset
      | None, None, None => ""
      end
  end.

(** The inner function [extract] of [parse_products]. *)
Definition extract (cfg : RoasterConfig) (node : Tag) : option Product :=
  match select_one node (link_selector cfg) with
  | None => None
  | Some link =>
      match truthy (tag_get link "href") with
      | None => None
      | Some href =>
          let url := absolute_url cfg href in
          let title_el := default link (select_one node (title_selector cfg)) in
          let title := normalize_space (get_text title_el) in
          let img_url := image_of node in
          let price :=
            match select_opt node (price_selector cfg) with
            | Some pe => normalize_space (get_text pe)
            | None => ""
            end in
          let in_stock1 :=
            match select_opt node (soldout_selector cfg) with
            | Some se => negb (search_sold_out (get_text se))
            | None => true
            end in
          let in_stock2 :=
            if in_stock1 && search_sold_out_word (get_text node) then false
            else in_stock1 in
          Some (mkProduct (name cfg) title url price in_stock2
                  "" "" "" "" "" "" "" img_url)
      end
  end.

(** One iteration of [for n in nodes]; the state is [(out, seen_urls)]. *)
Definition node_step (cfg : RoasterConfig)
    (st : list Product * gset string) (n : Tag) : list Product * gset string :=
  let '(out, seen_urls) := st in
  match extract cfg n with
  | Some prod =>
      if bool_decide (url prod ∈ seen_urls) then st
      else (out ++ [prod], seen_urls ∪ {[url prod]})
  | None => st
  end.

(** One iteration of the fallback loop over the product links. *)
Definition anchor_step (cfg : RoasterConfig)
    (st : list Product * gset string) (a : Tag) : list Product * gset string :=
  let '(out, seen_urls) := st in
  match truthy (tag_get a "href") with
  | None => st
  | Some href =>
      let url := absolute_url cfg href in
      if bool_decide (url ∈ seen_urls) then st
      else
        let title := str_or (normalize_space (get_text a)) "(untitled)" in
        (out ++ [mkProduct (name cfg) title url "" true "" "" "" "" "" "" "" ""],
         seen_urls ∪ {[url]})
  end.

Definition parse_products (cfg : RoasterConfig) (html : string) : list Product :=
  let soup := parse_html html in
  let nodes := select soup (product_selector cfg) in
  let '(out, seen_urls) := foldl (node_step cfg) ([], ∅) nodes in
  match out with
  | [] =>
      fst (foldl (anchor_step cfg) (out, seen_urls)
             (select soup "a[href*='/products/']"))
  | _ => out
  end.

End ParseProducts.

(* ===================================================================== *)
(** ** The remote store: one Firestore collection *)
(* ===================================================================== *)

(** A document of the collection, with the fields [upsert_firestore]
    writes.  The collection is the map from document id to document. *)
Record Doc := mkDoc {
  doc_roaster : string;
  doc_title : string;
  doc_url : string;
  doc_price : string;
  doc_in_stock : bool;
  doc_first_seen : string;
  doc_last_seen : string;
  doc_producer : string;
  doc_country : string;
  doc_region : string;
  doc_process : string;
  doc_variety : string;
  doc_notes : string;
  doc_profile : string;
  doc_image : string
}.

Definition doc_of_product (p : Product) (first_seen last_seen : string) : Doc :=
  mkDoc (roaster p) (title p) (url p) (price_text p) (in_stock p)
        first_seen last_seen (producer p) (country p) (region p) (process p)
        (variety p) (notes p) (profile p) (image p).

(** [reference.update({"in_stock": value})]. *)
Definition doc_set_in_stock (v : bool) (d : Doc) : Doc :=
  mkDoc (doc_roaster d) (doc_title d) (doc_url d) (doc_price d) v
        (doc_first_seen d) (doc_last_seen d) (doc_producer d) (doc_country d)
        (doc_region d) (doc_process d) (doc_variety d) (doc_notes d)
        (doc_profile d) (doc_image d).

(** [upsert_firestore]: [raises] tells whether the call to the service
    raises; otherwise the full record is written under [p.id()] and the
    document id is returned. *)
Definition upsert_firestore (raises : bool) (db : gmap string Doc) (p : Product)
    (first_seen last_seen : string) : option (gmap string Doc * string) :=
  if raises then None
  else
    let doc_id := Product_id p in
    Some (<[doc_id := doc_of_product p first_seen last_seen]> db, doc_id).

(** [load_firestore_index]: document id to [first_seen]. *)
Definition load_firestore_index (db : gmap string Doc) : gmap string string :=
  doc_first_seen <$> db.

(** [batch.commit()]: every queued update sets [in_stock] to [False]. *)
Definition commit (batch : list string) (db : gmap string Doc) : gmap string Doc :=
  foldl (fun m doc_id => alter (doc_set_in_stock false) doc_id m) db batch.

(** The state of the inner loop of [mark_stale_by_roaster]. *)
Record StaleLoop := mkStaleLoop {
  sl_db : gmap string Doc;
  sl_batch : list string;
  sl_ops : nat;
  sl_total : nat
}.

Definition stale_doc_step (batch_size : nat) (seen_ids : gset string)
    (st : StaleLoop) (d : string * Doc) : StaleLoop :=
  if bool_decide (seen_ids ≠ ∅) && bool_decide (d.1 ∈ seen_ids) then st
  else
    let batch := sl_batch st ++ [d.1] in
    let ops := S (sl_ops st) in
    if (batch_size <=? ops)%nat then
      mkStaleLoop (commit batch (sl_db st)) [] 0 (sl_total st + ops)
    else mkStaleLoop (sl_db st) batch ops (sl_total st).

(** [db.collection(col).where("roaster", "==", roaster).stream()]. *)
Definition stream_roaster (roaster : string) (db : gmap string Doc) : list (string * Doc) :=
  map_to_list (filter (fun kd => doc_roaster kd.2 = roaster) db).

(** The body of the loop over roasters: the batched pass over one roaster.
    The calls to the service are taken on their success path. *)
Definition stale_roaster_step (batch_size : nat)
    (acc : gmap string Doc * nat) (entry : string * gset string) : gmap string Doc * nat :=
  let '(db, total) := acc in
  let st := foldl (stale_doc_step batch_size entry.2) (mkStaleLoop db [] 0 total)
                  (stream_roaster entry.1 db) in
  if (sl_ops st =? 0)%nat then (sl_db st, sl_total st)
  else (commit (sl_batch st) (sl_db st), sl_total st + sl_ops st).

(** [mark_stale_by_roaster]: the collection afterwards and the number of
    documents updated. *)
Definition mark_stale_by_roaster (db : gmap string Doc)
    (seen_ids_by_roaster : gmap string (gset string)) (batch_size : nat)
    : gmap string Doc * nat :=
  foldl (stale_roaster_step batch_size) (db, 0) (map_to_list seen_ids_by_roaster).

(* ===================================================================== *)
(** ** The local mirror: the SQLite table [coffees] *)
(* ===================================================================== *)

(** A row of [coffees], without its [url], which is the key of the table
    ([url TEXT NOT NULL UNIQUE]).  Nullable columns are options; the
    columns [image] and [price_text] exist only in some databases. *)
Record Row := mkRow {
  row_roaster : string;
  row_title : string;
  row_price : option string;
  row_in_stock : Z;
  row_first_seen : string;
  row_last_seen : string;
  row_producer : string;
  row_country : string;
  row_region : string;
  row_process : string;
  row_variety : string;
  row_notes : string;
  row_profile : string;
  row_image : option string;
  row_price_text : option string;
  row_tried : Z
}.

(** The database: which optional columns the table has, and its rows. *)
Record Mirror := mkMirror {
  has_price_text : bool;
  has_image : bool;
  rows : gmap string Row
}.

Definition with_rows (conn : Mirror) (tbl : gmap string Row) : Mirror :=
  mkMirror (has_price_text conn) (has_image conn) tbl.

Definition row_set_in_stock (v : Z) (r : Row) : Row :=
  mkRow (row_roaster r) (row_title r) (row_price r) v (row_first_seen r)
        (row_last_seen r) (row_producer r) (row_country r) (row_region r)
        (row_process r) (row_variety r) (row_notes r) (row_profile r)
        (row_image r) (row_price_text r) (row_tried r).

Definition row_set_tried (v : Z) (r : Row) : Row :=
  mkRow (row_roaster r) (row_title r) (row_price r) (row_in_stock r)
        (row_first_seen r) (row_last_seen r) (row_producer r) (row_country r)
        (row_region r) (row_process r) (row_variety r) (row_notes r)
        (row_profile r) (row_image r) (row_price_text r) v.

Definition row_set_price (v : option string) (r : Row) : Row :=
  mkRow (row_roaster r) (row_title r) v (row_in_stock r)
        (row_first_seen r) (row_last_seen r) (row_producer r) (row_country r)
        (row_region r) (row_process r) (row_variety r) (row_notes r)
        (row_profile r) (row_image r) (row_price_text r) (row_tried r).

(** [UPDATE coffees SET ... WHERE ...]: the table afterwards and
    [cur.rowcount], the number of rows the condition selects. *)
Definition sql_update (cond : string -> Row -> bool) (set : Row -> Row)
    (tbl : gmap string Row) : gmap string Row * nat :=
  (map_imap (fun u r => Some (if cond u r then set r else r)) tbl,
   size (filter (fun ur => cond ur.1 ur.2 = true) tbl)).

(** The table [SCHEMA] creates in a new file. *)
Definition fresh_db : Mirror := mkMirror false false ∅.

(** [COALESCE(NULLIF(price, ''), price_text)]. *)
Definition coalesce_price (r : Row) : option string :=
  match truthy (row_price r) with
  | Some s => Some s
  | None => row_price_text r
  end.

(** [db_connect] on an existing table: [ensure_db_schema] adds the columns
    of its list that are missing (none of them is [image]) and fills
    [price] from the legacy [price_text]. *)
Definition db_connect (file : Mirror) : Mirror :=
  if has_price_text file then
    with_rows file (sql_update (fun _ _ => true)
                      (fun r => row_set_price (coalesce_price r) r) (rows file)).1
  else file.

Definition legacy_price (conn : Mirror) (price : string) : option string :=
  if has_price_text conn then Some price else None.

(** [ensure_row_sqlite].  Both statements name the column [image]: on a
    table without it SQLite raises and nothing is written. *)
Definition ensure_row_sqlite (conn : Mirror) (p : Product)
    (first_seen last_seen : string) : option Mirror :=
  match rows conn !! url p with
  | None =>
      if has_image conn then
        Some (with_rows conn
          (<[url p :=
               mkRow (roaster p) (title p) (Some (price_text p))
                     (Z.b2z (in_stock p)) first_seen last_seen (producer p)
                     (country p) (region p) (process p) (variety p) (notes p)
                     (profile p) (Some (image p))
                     (legacy_price conn (price_text p)) 0]> (rows conn)))
      else None
  | Some r =>
      if has_image conn then
        Some (with_rows conn
          (<[url p :=
               mkRow (row_roaster r) (title p) (Some (price_text p))
                     (Z.b2z (in_stock p)) (row_first_seen r) last_seen
                     (producer p) (country p) (region p) (process p)
                     (variety p) (notes p) (profile p) (Some (image p))
                     (if has_price_text conn then Some (price_text p)
                      else row_price_text r)
                     (row_tried r)]> (rows conn)))
      else None
  end.

(** The statement [mark_stale_sqlite] runs for one roaster. *)
Definition stale_sqlite_step (acc : gmap string Row * nat)
    (entry : string * gset string) : gmap string Row * nat :=
  let '(tbl, total) := acc in
  let '(roaster, urls) := entry in
  let '(tbl', rowcount) :=
    if bool_decide (urls ≠ ∅) then
      sql_update (fun u r => String.eqb (row_roaster r) roaster
                             && negb (bool_decide (u ∈ urls)))
                 (row_set_in_stock 0) tbl
    else
      sql_update (fun _ r => String.eqb (row_roaster r) roaster)
                 (row_set_in_stock 0) tbl in
  (tbl', total + rowcount).

(** [mark_stale_sqlite]: the database afterwards and the total row count. *)
Definition mark_stale_sqlite (conn : Mirror)
    (seen_by_roaster : gmap string (gset string)) : Mirror * nat :=
  let '(tbl, total) :=
    foldl stale_sqlite_step (rows conn, 0) (map_to_list seen_by_roaster) in
  (with_rows conn tbl, total).

(** [ensure_row_sqlite_from_doc], the upsert of the one-way sync. *)
Definition ensure_row_sqlite_from_doc (conn : Mirror) (data : Doc) : Mirror :=
  let in_stock := if doc_in_stock data then 1%Z else 0%Z in
  match rows conn !! doc_url data with
  | None =>
      with_rows conn
        (<[doc_url data :=
             mkRow (doc_roaster data) (doc_title data) (Some (doc_price data))
                   in_stock (doc_first_seen data) (doc_last_seen data)
                   (doc_producer data) (doc_country data) (doc_region data)
                   (doc_process data) (doc_variety data) (doc_notes data)
                   (doc_profile data) None
                   (legacy_price conn (doc_price data)) 0]> (rows conn))
  | Some r =>
      with_rows conn
        (<[doc_url data :=
             mkRow (row_roaster r) (doc_title data) (Some (doc_price data))
                   in_stock (doc_first_seen data) (doc_last_seen data)
                   (doc_producer data) (doc_country data) (doc_region data)
                   (doc_process data) (doc_variety data) (doc_notes data)
                   (doc_profile data) (row_image r)
                   (if has_price_text conn then Some (doc_price data)
                    else row_price_text r)
                   (row_tried r)]> (rows conn))
  end.

(** [UPDATE coffees SET tried=? WHERE url=?] of [mark_tried] and
    [unmark_tried], and the reset [UPDATE coffees SET tried=0] of the sync. *)
Definition set_tried (conn : Mirror) (u : string) (v : Z) : Mirror :=
  with_rows conn (alter (row_set_tried v) u (rows conn)).

Definition reset_tried (conn : Mirror) : Mirror :=
  with_rows conn (sql_update (fun _ _ => true) (row_set_tried 0) (rows conn)).1.

(* ===================================================================== *)
(** ** The notification composer *)
(* ===================================================================== *)

(** [f"{n}"] for a non-negative integer. *)
Definition str_of_nat (n : nat) : string := NilEmpty.string_of_uint (Nat.to_uint n).

(** [sep.join(parts)]. *)
Fixpoint join (sep : string) (parts : list string) : string :=
  match parts with
  | [] => ""
  | [s] => s
  | s :: rest => s +:+ sep +:+ join sep rest
  end.

(** [sorted(set(names))]: insertion into a strictly increasing list. *)
Fixpoint insert_sorted (x : string) (l : list string) : list string :=
  match l with
  | [] => [x]
  | y :: l' =>
      match String.compare x y with
      | Lt => x :: l
      | Eq => l
      | Gt => y :: insert_sorted x l'
      end
  end.

Definition sorted_set (names : list string) : list string :=
  foldr insert_sorted [] names.

Definition _truncate_lines (lines : list string) (max_lines : nat) : list string :=
  if (length lines <=? max_lines)%nat then lines
  else
    let hidden := (length lines - max_lines)%nat in
    take max_lines lines ++ ["+" +:+ str_of_nat hidden +:+ " more…"].

(** [by_r[r]]: the pairs of roaster [r], in the order of the input. *)
Definition by_r (new_items : list (Product * string)) (r : string)
    : list (Product * string) :=
  filter (fun it => roaster it.1 = r) new_items.

Definition item_line (it : Product * string) : string :=
  "• " +:+ title it.1
  +:+ (if nonempty (price_text it.1) then " — " +:+ price_text it.1 else "").

Definition roaster_line (new_items : list (Product * string)) (r : string) : string :=
  let items := by_r new_items r in
  let shown := take 2 items in
  let extras := (length items - length shown)%nat in
  let ro_line := r +:+ ": " +:+ join "; " ((fun it => title it.1) <$> shown) in
  let ro_line :=
    if (0 <? extras)%nat then ro_line +:+ "; +" +:+ str_of_nat extras +:+ " more"
    else ro_line in
  "• " +:+ ro_line.

(** [build_ntfy_message]: title, body lines and the id to deep-link to. *)
Definition build_ntfy_message (new_items : list (Product * string))
    : string * list string * option string :=
  match new_items with
  | [] => ("", [], None)
  | (p0, first_pid) :: _ =>
      let n := length new_items in
      let roasters := (fun it => roaster it.1) <$> new_items in
      let unique_roasters := sorted_set roasters in
      if (n =? 1)%nat then
        let bits := if nonempty (price_text p0) then [price_text p0] else [] in
        let body :=
          [match bits with [] => "New coffee!" | _ => join " • " bits end; url p0] in
        ("New from " +:+ roaster p0 +:+ ": " +:+ title p0, body, Some first_pid)
      else
        match unique_roasters with
        | [r] =>
            let lines := item_line <$> by_r new_items r in
            (str_of_nat n +:+ " new coffees from " +:+ r,
             _truncate_lines lines 8, Some first_pid)
        | _ =>
            let lines := roaster_line new_items <$> unique_roasters in
            ("New drops: " +:+ str_of_nat n +:+ " coffees from "
               +:+ str_of_nat (length unique_roasters) +:+ " roasters",
             _truncate_lines lines 8, Some first_pid)
        end
  end.

(* ===================================================================== *)
(** ** The reconciliation run *)
(* ===================================================================== *)

(** [datetime.now(timezone.utc)]. *)
Record datetime := mkDatetime {
  year : nat;
  month : nat;
  day : nat;
  hour : nat;
  minute : nat;
  second : nat
}.

(** A field padded with a zero to two digits. *)
Definition two_digits (n : nat) : string :=
  if (n <? 10)%nat then "0" +:+ str_of_nat n else str_of_nat n.

(** [d.strftime(ISO)] with [ISO = "%Y-%m-%d %H:%M:%S%z"], for a time in
    UTC (and a year of four digits). *)
Definition strftime_ISO (d : datetime) : string :=
  str_of_nat (year d) +:+ "-" +:+ two_digits (month d) +:+ "-" +:+ two_digits (day d)
  +:+ " " +:+ two_digits (hour d) +:+ ":" +:+ two_digits (minute d) +:+ ":"
  +:+ two_digits (second d) +:+ "+0000".

(** What the outside world answers while one item is processed: the
    mapping [scrape_product_details] returns, the reading of the clock,
    and whether the Firestore write raises. *)
Record ItemEnv := mkItemEnv {
  details : gmap string string;
  clock : datetime;
  firestore_raises : bool
}.

(** [now = datetime.now(timezone.utc).strftime(ISO)]. *)
Definition now (e : ItemEnv) : string := strftime_ISO (clock e).

(** What [fetch_html] followed by [parse_products] gives for one roaster:
    an exception, or the parsed products, each with the answers of the
    outside world during its turn of the loop. *)
Inductive Listing :=
| FetchRaised
| Parsed (items : list (Product * ItemEnv)).

(** The assignments after [scrape_product_details]. *)
Definition enrich (p : Product) (d : gmap string string) : Product :=
  mkProduct (roaster p) (title p) (url p) (price_text p) (in_stock p)
    (default "" (d !! "producer")) (default "" (d !! "country"))
    (default "" (d !! "region")) (default "" (d !! "process"))
    (default "" (d !! "variety")) (default "" (d !! "notes"))
    (default "" (d !! "profile")) (default (image p) (d !! "image")).

(** The variables of [run_once]. *)
Record RunState := mkRunState {
  st_fdb : gmap string Doc;
  st_conn : Mirror;
  st_new_items : list (Product * string);
  st_seen_ids : gmap string (gset string);
  st_seen_urls : gmap string (gset string);
  st_succeeded : gset string
}.

(** [d[k].add(x)] on a [defaultdict(set)]. *)
Definition dd_add (k x : string) (d : gmap string (gset string))
    : gmap string (gset string) :=
  <[k := default ∅ (d !! k) ∪ {[x]}]> d.

(** [now if is_new else (existing.get(pid) or now)]. *)
Definition first_seen_of (existing : gmap string string) (pid now : string) : string :=
  if bool_decide (existing !! pid = None) then now
  else str_or (default "" (existing !! pid)) now.

(** One turn of [for p in items]. *)
Definition item_step (existing : gmap string string) (st : RunState)
    (it : Product * ItemEnv) : RunState :=
  let p := enrich it.1 (details it.2) in
  let now := now it.2 in
  let pid := Product_id p in
  let is_new := bool_decide (existing !! pid = None) in
  let first := first_seen_of existing pid now in
  let last := now in
  match upsert_firestore (firestore_raises it.2) (st_fdb st) p first last with
  | None => st
  | Some (fdb, doc_id) =>
      match ensure_row_sqlite (st_conn st) p first last with
      | None =>
          mkRunState fdb (st_conn st) (st_new_items st) (st_seen_ids st)
                     (st_seen_urls st) (st_succeeded st)
      | Some conn =>
          mkRunState fdb conn
            (if is_new then st_new_items st ++ [(p, doc_id)] else st_new_items st)
            (dd_add (roaster p) pid (st_seen_ids st))
            (dd_add (roaster p) (url p) (st_seen_urls st))
            (st_succeeded st)
      end
  end.

(** One turn of [for cfg in roasters]. *)
Definition roaster_step (existing : gmap string string) (st : RunState)
    (src : RoasterConfig * Listing) : RunState :=
  match src.2 with
  | FetchRaised => st
  | Parsed items =>
      foldl (item_step existing)
        (mkRunState (st_fdb st) (st_conn st) (st_new_items st) (st_seen_ids st)
                    (st_seen_urls st) (st_succeeded st ∪ {[name src.1]}))
        items
  end.

(** [{r: s for r, s in seen.items() if r in succeeded_roasters}]. *)
Definition filter_succeeded (succeeded : gset string)
    (seen : gmap string (gset string)) : gmap string (gset string) :=
  filter (fun rs => rs.1 ∈ succeeded) seen.

(** The staleness pass at the end of [run_once]. *)
Definition stale_phase (st : RunState) : RunState :=
  if bool_decide (st_succeeded st ≠ ∅) then
    let seen_ids_filtered := filter_succeeded (st_succeeded st) (st_seen_ids st) in
    let fdb := (mark_stale_by_roaster (st_fdb st) seen_ids_filtered 400).1 in
    let seen_urls_filtered := filter_succeeded (st_succeeded st) (st_seen_urls st) in
    let conn := (mark_stale_sqlite (st_conn st) seen_urls_filtered).1 in
    mkRunState fdb conn (st_new_items st) (st_seen_ids st) (st_seen_urls st)
               (st_succeeded st)
  else st.

(** The loop of [run_once] over the roasters, from the handles [fdb] and
    [db_connect()] and the index loaded before the loop. *)
Definition scrape_phase (fdb : gmap string Doc) (file : Mirror)
    (roasters : list (RoasterConfig * Listing)) : RunState :=
  let conn := db_connect file in
  let existing := load_firestore_index fdb in
  foldl (roaster_step existing) (mkRunState fdb conn [] ∅ ∅ ∅) roasters.

(** What a run leaves behind and hands to [notify_ntfy]. *)
Record RunResult := mkRunResult {
  run_fdb : gmap string Doc;
  run_conn : Mirror;
  run_new_items : list (Product * string);
  run_message : option (string * list string * option string);
  run_return : nat
}.

(** [run_once]. *)
Definition run_once (fdb : gmap string Doc) (file : Mirror)
    (roasters : list (RoasterConfig * Listing)) : RunResult :=
  let st := stale_phase (scrape_phase fdb file roasters) in
  let new_items := st_new_items st in
  mkRunResult (st_fdb st) (st_conn st) new_items
    (match new_items with
     | [] => None
     | _ => Some (build_ntfy_message new_items)
     end)
    (length new_items).

(* ===================================================================== *)
(** ** Vocabulary of the properties *)
(* ===================================================================== *)

(** What both loops of [parse_products] maintain: the URLs collected so
    far are pairwise distinct and all of them are in [seen_urls]. *)
Definition listing_inv (st : list Product * gset string) : Prop :=
  NoDup (url <$> st.1) ∧ ∀ u, u ∈ (url <$> st.1) → u ∈ st.2.

(** The products of a list that are the first of their URL, the URLs in
    [seen] counting as met before. *)
Fixpoint first_by_url (seen : gset string) (ps : list Product) : list Product :=
  match ps with
  | [] => []
  | p :: ps' =>
      if bool_decide (url p ∈ seen) then first_by_url seen ps'
      else p :: first_by_url (seen ∪ {[url p]}) ps'
  end.

Section ParseProductsVocabulary.
Context {Tag : Type} `{Scraper Tag}.

(** The product the fallback loop makes of a link, if the link has a
    target. *)
Definition anchor_candidate (cfg : RoasterConfig) (a : Tag) : option Product :=
  match truthy (tag_get a "href") with
  | None => None
  | Some href =>
      Some (mkProduct (name cfg)
              (str_or (normalize_space (get_text a)) "(untitled)")
              (absolute_url cfg href) "" true "" "" "" "" "" "" "" "")
  end.

End ParseProductsVocabulary.

(** The title the specification gives for several new items of one source. *)
Definition spec_single_source_title (n : nat) (source : string) : string :=
  str_of_nat n +:+ " new items from " +:+ source.

(** Whether the pass over [seen_by_roaster] marks the row of URL [u]. *)
Definition stale_row (seen_by_roaster : gmap string (gset string))
    (u : string) (r : Row) : bool :=
  match seen_by_roaster !! row_roaster r with
  | Some urls => negb (bool_decide (u ∈ urls))
  | None => false
  end.

(** Whether the pass over [seen_ids_by_roaster] marks document [doc_id]. *)
Definition stale_doc (seen_ids_by_roaster : gmap string (gset string))
    (doc_id : string) (d : Doc) : bool :=
  match seen_ids_by_roaster !! doc_roaster d with
  | Some ids => negb (bool_decide (doc_id ∈ ids))
  | None => false
  end.

(** The ids the loop of one roaster queues: those of the streamed
    documents that are not skipped. *)
Definition pending (seen_ids : gset string) (docs : list (string * Doc)) : list string :=
  omap (fun d : string * Doc =>
          if bool_decide (seen_ids ≠ ∅) && bool_decide (d.1 ∈ seen_ids)
          then None else Some d.1) docs.

(** Every row of [conn] is still a row of [conn'], with the same
    [first_seen]. *)
Definition first_seen_kept (conn conn' : Mirror) : Prop :=
  ∀ u r, rows conn !! u = Some r →
         ∃ r', rows conn' !! u = Some r' ∧ row_first_seen r' = row_first_seen r.

(** The writes of the local mirror other than the upsert of the sync:
    the upsert of the engine (which leaves the table as it is when
    SQLite raises), the staleness pass, the updates of the [tried] flag
    and the migration done on opening. *)
Inductive MirrorWrite :=
| WEnsureRow (p : Product) (first_seen last_seen : string)
| WMarkStale (seen_by_roaster : gmap string (gset string))
| WSetTried (u : string) (v : Z)
| WResetTried
| WConnect.

Definition mirror_write (conn : Mirror) (w : MirrorWrite) : Mirror :=
  match w with
  | WEnsureRow p first_seen last_seen =>
      default conn (ensure_row_sqlite conn p first_seen last_seen)
  | WMarkStale seen => (mark_stale_sqlite conn seen).1
  | WSetTried u v => set_tried conn u v
  | WResetTried => reset_tried conn
  | WConnect => db_connect conn
  end.

(** The items a run processes, in order. *)
Definition listed_items (roasters : list (RoasterConfig * Listing))
    : list (Product * ItemEnv) :=
  flat_map (fun src => match src.2 with Parsed items => items | FetchRaised => [] end)
           roasters.

(** The names of the roasters whose fetch and parse succeeded. *)
Definition succeeded_names (roasters : list (RoasterConfig * Listing)) : gset string :=
  list_to_set (flat_map (fun src => match src.2 with
                                    | Parsed _ => [name src.1]
                                    | FetchRaised => []
                                    end) roasters).

(** A state of the run with another set of succeeded roasters. *)
Definition with_succeeded (s : gset string) (st : RunState) : RunState :=
  mkRunState (st_fdb st) (st_conn st) (st_new_items st) (st_seen_ids st)
             (st_seen_urls st) s.

(** The variables of [run_once] when its loop starts. *)
Definition run_start (fdb : gmap string Doc) (file : Mirror) : RunState :=
  mkRunState fdb (db_connect file) [] ∅ ∅ ∅.

(** The loop of [run_once] as one loop over the listed items. *)
Definition run_loop (fdb : gmap string Doc) (file : Mirror)
    (roasters : list (RoasterConfig * Listing)) : RunState :=
  foldl (item_step (load_firestore_index fdb)) (run_start fdb file)
        (listed_items roasters).

(** The document a successful turn of the loop writes. *)
Definition written_doc (existing : gmap string string) (it : Product * ItemEnv) : Doc :=
  doc_of_product (enrich it.1 (details it.2))
    (first_seen_of existing (Product_id it.1) (now it.2)) (now it.2).

(** What the adapters gave in a run: per roaster, that the fetch raised,
    or the parsed products with the details scraped for each. *)
Definition adapter_output (roasters : list (RoasterConfig * Listing))
    : list (RoasterConfig * option (list (Product * gmap string string))) :=
  (fun src =>
     (src.1, match src.2 with
             | FetchRaised => None
             | Parsed items => Some ((fun it => (it.1, details it.2)) <$> items)
             end)) <$> roasters.

(* ===================================================================== *)
(** ** A small world for the examples *)
(* ===================================================================== *)

(** Three readings of the clock, on three successive days, and their
    timestamps. *)
Definition day0 : datetime := mkDatetime 2025 8 1 6 0 0.
Definition day1 : datetime := mkDatetime 2025 8 2 6 0 0.
Definition day2 : datetime := mkDatetime 2025 8 3 6 0 0.

Definition t0 : string := strftime_ISO day0.
Definition t1 : string := strftime_ISO day1.
Definition t2 : string := strftime_ISO day2.

Definition acme_cfg : RoasterConfig :=
  mkRoasterConfig "Acme" "https://acme.example/collections/coffee"
    "div.product" "h3" "a" (Some "span.price") None.

Definition zed_cfg : RoasterConfig :=
  mkRoasterConfig "Zed" "https://zed.example/collections/coffee"
    "div.product" "h3" "a" None None.

(** A toy parser: a page is the list of the link targets of its product
    nodes, written separated by spaces; a node is its own link. *)
Fixpoint words (cur : string) (s : string) : list string :=
  match s with
  | EmptyString => if nonempty cur then [cur] else []
  | String c rest =>
      if Ascii.eqb c (Ascii.ascii_of_nat 32)
      then (if nonempty cur then [cur] else []) ++ words "" rest
      else words (cur +:+ String c EmptyString) rest
  end.

#[local] Instance toy_scraper : Scraper (list string) := {|
  parse_html := words "";
  select := fun page _ => (fun href => [href]) <$> page;
  select_one := fun node _ => Some node;
  tag_get := fun node _ => head node;
  get_text := fun node => default "" (head node);
  urljoin := fun _ href => "https://acme.example" +:+ href;
  normalize_space := fun s => s;
  search_sold_out := fun _ => false;
  search_sold_out_word := fun _ => false
|}.

(** A product of "Acme", and a document and a row of it. *)
Definition acme (t pr : string) : Product :=
  mkProduct "Acme" t ("https://acme.example/products/" +:+ t) pr true
            "" "" "" "" "" "" "" "".

Definition acme_doc (t u : string) (stock : bool) (first last : string) : Doc :=
  mkDoc "Acme" t u "$16.00" stock first last "" "" "" "" "" "" "" "".

Definition acme_row (t : string) (stock : Z) (first last : string) : Row :=
  mkRow "Acme" t (Some "$16.00") stock first last "" "" "" "" "" "" ""
        (Some "") None 0.

(** A listed item whose remote write raises, and one whose write succeeds. *)
Definition failing_item : Product * ItemEnv :=
  (acme "Dark Roast" "$16.00", mkItemEnv ∅ day1 true).

Definition good_item (t : string) (stamp : datetime) : Product * ItemEnv :=
  (acme t "$16.00", mkItemEnv ∅ stamp false).

(** A state at the end of the loop of a run that has seen A and B of
    "Acme", the stores holding A, B and C. *)
Definition three_items_state : RunState :=
  mkRunState
    {[ "ida" := acme_doc "A" "ua" true t0 t1;
       "idb" := acme_doc "B" "ub" true t0 t1;
       "idc" := acme_doc "C" "uc" true t0 t0 ]}
    (mkMirror false true
       {[ "ua" := acme_row "A" 1 t0 t1;
          "ub" := acme_row "B" 1 t0 t1;
          "uc" := acme_row "C" 1 t0 t0 ]})
    []
    {[ "Acme" := {[ "ida"; "idb" ]} ]}
    {[ "Acme" := {[ "ua"; "ub" ]} ]}
    {[ "Acme" ]}.

(** A mirror with one row, stored at [t0]. *)
Definition stored_mirror : Mirror :=
  mkMirror false true {[ "ua" := acme_row "A" 1 t0 t0 ]}.

(** The two stores holding one item of "Acme", in stock. *)
Definition mirror_before : Mirror :=
  mkMirror false true
    {[ "https://acme.example/products/A" := acme_row "A" 1 t0 t1 ]}.

Definition fdb_before : gmap string Doc :=
  {[ product_id_from_url "https://acme.example/products/A"
     := acme_doc "A" "https://acme.example/products/A" true t0 t1 ]}.

(** A run in which the fetch of "Acme" raises and "Zed" lists one item. *)
Definition failed_source_run : list (RoasterConfig * Listing) :=
  [(acme_cfg, FetchRaised);
   (zed_cfg, Parsed [(mkProduct "Zed" "Z1" "https://zed.example/products/z1" "" true
                                "" "" "" "" "" "" "" "", mkItemEnv ∅ day2 false)])].

(** Two runs on the same adapter output, at [t1] and at [t2], on an
    empty database whose table has the column [image]. *)
Definition first_run : list (RoasterConfig * Listing) :=
  [(acme_cfg, Parsed [good_item "A" day1; good_item "B" day1]); (zed_cfg, FetchRaised)].

Definition second_run : list (RoasterConfig * Listing) :=
  [(acme_cfg, Parsed [good_item "A" day2; good_item "B" day2]); (zed_cfg, FetchRaised)].

Definition image_db : Mirror := mkMirror false true ∅.

(** The item of the row "ua" of [stored_mirror], as a run lists it. *)
Definition acme_ua (pr : string) : Product :=
  mkProduct "Acme" "A" "ua" pr true "" "" "" "" "" "" "" "".

(** A run in which the fetch of "Acme" raises and "Zed" lists, sold out,
    the URL of the item of "Acme" that the two stores hold. *)
Definition cross_listed_run : list (RoasterConfig * Listing) :=
  [(acme_cfg, FetchRaised);
   (zed_cfg, Parsed [(mkProduct "Zed" "A" "https://acme.example/products/A" "$16.00"
                                false "" "" "" "" "" "" "" "",
                      mkItemEnv ∅ day2 false)])].

(** The table [SCHEMA] creates, holding the row the sync mirrors for the
    item A of "Acme" stored at [t0]. *)
Definition synced_db : Mirror :=
  ensure_row_sqlite_from_doc fresh_db
    (acme_doc "A" "https://acme.example/products/A" true t0 t0).

Definition fdb_synced : gmap string Doc :=
  {[ product_id_from_url "https://acme.example/products/A"
     := acme_doc "A" "https://acme.example/products/A" true t0 t0 ]}.

(* ===================================================================== *)
(** ** The tried ledger *)
(* ===================================================================== *)

(** An entry of the [history] array of a tried document: [tried_on], and
    [notes] and [rating] when they were given. *)
Record HistoryItem := mkHistoryItem {
  tried_on : string;
  h_notes : option string;
  h_rating : option Z
}.

#[export] Instance HistoryItem_eq_dec : EqDecision HistoryItem.
Proof. solve_decision. Defined.

(** A document of the tried collection.  The collection is taken to be
    another one than the main collection, as its default name makes it. *)
Record TriedDoc := mkTriedDoc {
  td_doc_id : string;
  td_url : string;
  td_roaster : string;
  td_title : string;
  td_last_tried_on : string;
  td_last_notes : option string;
  td_last_rating : option Z;
  td_history : list HistoryItem
}.

(** [ref.set(payload, merge=True)]: the five fields of every payload are
    overwritten, [last_notes] and [last_rating] only when the payload has
    them, and [history] is kept. *)
Definition tried_set_merge (old : option TriedDoc) (doc_id url roaster title now notes : string)
    (rating : option Z) : TriedDoc :=
  mkTriedDoc doc_id url roaster title now
    (if nonempty notes then Some notes else old ≫= td_last_notes)
    (match rating with Some v => Some v | None => old ≫= td_last_rating end)
    (default [] (td_history <$> old)).

(** [firestore.ArrayUnion([x])]: [x] is added at the end unless the
    array has it already. *)
Definition array_union {A} `{EqDecision A} (l : list A) (x : A) : list A :=
  if bool_decide (x ∈ l) then l else l ++ [x].

Definition td_set_history (h : list HistoryItem) (td : TriedDoc) : TriedDoc :=
  mkTriedDoc (td_doc_id td) (td_url td) (td_roaster td) (td_title td)
             (td_last_tried_on td) (td_last_notes td) (td_last_rating td) h.

(** What the outside world answers during [mark_tried] or
    [unmark_tried]: the clock, and which of the Firestore calls raise
    (the two reads of the main collection, the [set], the [update] of
    the history, the [delete]). *)
Record LedgerEnv := mkLedgerEnv {
  le_clock : datetime;
  get1_raises : bool;
  get2_raises : bool;
  set_raises : bool;
  update_raises : bool;
  delete_raises : bool
}.

(** What a ledger command leaves: the tried collection, the local
    mirror, and whether it ended with an exception. *)
Record LedgerResult := mkLedgerResult {
  lr_tried : gmap string TriedDoc;
  lr_conn : Mirror;
  lr_raised : bool
}.

(** [fdb.collection(main_col).document(id).get()] inside [try]: the
    document if the call returns and the document exists. *)
Definition main_get (raises : bool) (main : gmap string Doc) (doc_id : string) : option Doc :=
  if raises then None else main !! doc_id.

(** [mark_tried].  The database is opened before the arguments are
    looked at.  The second test [if not id] of the source cannot succeed,
    an id derived from a URL being sixteen characters long, and is left
    out. *)
Definition mark_tried (main : gmap string Doc) (tried : gmap string TriedDoc)
    (file : Mirror) (id url : option string) (notes : string) (rating : option Z)
    (e : LedgerEnv) : LedgerResult :=
  let conn := db_connect file in
  match truthy id, truthy url with
  | None, None => mkLedgerResult tried conn true
  | tid, turl =>
      (* if url and not id: id = product_id_from_url(url) *)
      let id1 :=
        match tid, turl with
        | Some i, _ => i
        | None, Some u => product_id_from_url u
        | None, None => ""
        end in
      (* if id and not url: look the document up *)
      let '(url2, roaster2, title2) :=
        match turl with
        | Some _ => (url, "", "")
        | None =>
            match main_get (get1_raises e) main id1 with
            | Some d => (Some (doc_url d), doc_roaster d, doc_title d)
            | None => (url, "", "")
            end
        end in
      (* if id: look it up again, and fill what is still empty *)
      let '(url3, roaster3, title3) :=
        match main_get (get2_raises e) main id1 with
        | Some d =>
            if nonempty title2 then (url2, roaster2, title2)
            else (Some (match truthy url2 with Some u => u | None => doc_url d end),
                  str_or roaster2 (doc_roaster d), str_or title2 (doc_title d))
        | None => (url2, roaster2, title2)
        end in
      let now := strftime_ISO (le_clock e) in
      if set_raises e then mkLedgerResult tried conn true
      else
        let tried1 :=
          <[id1 := tried_set_merge (tried !! id1) id1 (default "" (truthy url3))
                     roaster3 title3 now notes rating]> tried in
        let history_item :=
          mkHistoryItem now (if nonempty notes then Some notes else None) rating in
        let tried2 :=
          if update_raises e then tried1
          else alter (fun td => td_set_history (array_union (td_history td) history_item) td)
                     id1 tried1 in
        let conn' :=
          match truthy url3 with
          | Some u => set_tried conn u 1
          | None => conn
          end in
        mkLedgerResult tried2 conn' false
  end.

(** [unmark_tried], with the same opening and the same test left out. *)
Definition unmark_tried (main : gmap string Doc) (tried : gmap string TriedDoc)
    (file : Mirror) (id url : option string) (e : LedgerEnv) : LedgerResult :=
  let conn := db_connect file in
  match truthy id, truthy url with
  | None, None => mkLedgerResult tried conn true
  | tid, turl =>
      let id1 :=
        match tid, turl with
        | Some i, _ => i
        | None, Some u => product_id_from_url u
        | None, None => ""
        end in
      let url2 :=
        match turl with
        | Some _ => url
        | None =>
            match main_get (get1_raises e) main id1 with
            | Some d => Some (doc_url d)
            | None => url
            end
        end in
      let tried1 := if delete_raises e then tried else delete id1 tried in
      let conn' :=
        match truthy url2 with
        | Some u => set_tried conn u 0
        | None => conn
        end in
      mkLedgerResult tried1 conn' false
  end.

(** A line of [list_tried]: timestamp, id, roaster, title, url. *)
Definition TriedLine : Type := string * string * string * string * string.

Definition line_key (t : TriedLine) : string := t.1.1.1.1.

(** [items.sort(key=lambda t: t[0], reverse=True)]: a stable sort in
    decreasing order of the key, by insertion from the right. *)
Fixpoint insert_desc (x : TriedLine) (l : list TriedLine) : list TriedLine :=
  match l with
  | [] => [x]
  | y :: l' =>
      match String.compare (line_key y) (line_key x) with
      | Gt => y :: insert_desc x l'
      | _ => x :: l
      end
  end.

Definition sort_desc (l : list TriedLine) : list TriedLine := foldr insert_desc [] l.

(** [list_tried]: the lines it prints. *)
Definition list_tried (tried : gmap string TriedDoc) (limit : Z) : list TriedLine :=
  let items :=
    (fun d : string * TriedDoc =>
       (td_last_tried_on d.2, d.1, td_roaster d.2, td_title d.2, td_url d.2))
      <$> map_to_list tried in
  take (Z.to_nat (Z.max 0 limit)) (sort_desc items).

(* ===================================================================== *)
(** ** The one-way sync *)
(* ===================================================================== *)

(** [SELECT title, price, in_stock, last_seen FROM coffees WHERE url=?]. *)
Definition select_summary (conn : Mirror) (u : string)
    : option (string * option string * Z * string) :=
  (fun r => (row_title r, row_price r, row_in_stock r, row_last_seen r))
    <$> rows conn !! u.

(** The variables of the loop of [sync_sqlite_from_firestore]. *)
Record SyncState := mkSyncState {
  sy_conn : Mirror;
  sy_inserted : nat;
  sy_updated : nat;
  sy_urls : gmap string (gset string)
}.

(** One turn of [for d in docs]. *)
Definition sync_doc_step (st : SyncState) (d : string * Doc) : SyncState :=
  let data := d.2 in
  let before := select_summary (sy_conn st) (doc_url data) in
  let conn := ensure_row_sqlite_from_doc (sy_conn st) data in
  let after := select_summary conn (doc_url data) in
  mkSyncState conn
    (match before with None => S (sy_inserted st) | Some _ => sy_inserted st end)
    (match before with
     | None => sy_updated st
     | Some _ => if bool_decide (after ≠ before) then S (sy_updated st) else sy_updated st
     end)
    (if doc_in_stock data && nonempty (doc_url data) && nonempty (doc_roaster data)
     then dd_add (doc_roaster data) (doc_url data) (sy_urls st)
     else sy_urls st).

(** One turn of [for td in tdocs]: the table and [tried_marked]. *)
Definition sync_tried_step (acc : Mirror * nat) (td : string * TriedDoc) : Mirror * nat :=
  if nonempty (td_url td.2) then
    (set_tried acc.1 (td_url td.2) 1,
     (acc.2 + if bool_decide (is_Some (rows acc.1 !! td_url td.2)) then 1 else 0)%nat)
  else acc.

(** What [sync_sqlite_from_firestore] returns, and the database it
    leaves. *)
Record SyncResult := mkSyncResult {
  sync_conn : Mirror;
  inserted : nat;
  updated : nat;
  sqlite_stale_updates : nat;
  tried_marked : nat
}.

(** [sync_sqlite_from_firestore]; [tried_raises] tells whether the read
    of the tried collection raises. *)
Definition sync_sqlite_from_firestore (fdb : gmap string Doc)
    (tried : gmap string TriedDoc) (file : Mirror) (tried_raises : bool) : SyncResult :=
  let conn := db_connect file in
  let st := foldl sync_doc_step (mkSyncState conn 0 0 ∅) (map_to_list fdb) in
  let '(conn1, stale_updates) := mark_stale_sqlite (sy_conn st) (sy_urls st) in
  let '(conn2, marked) :=
    if tried_raises then (conn1, 0%nat)
    else foldl sync_tried_step (reset_tried conn1, 0%nat) (map_to_list tried) in
  mkSyncResult conn2 (sy_inserted st) (sy_updated st) stale_updates marked.

(* ===================================================================== *)
(** ** The destructive commands *)
(* ===================================================================== *)

(** The settings read from the environment; [None] is a variable that is
    not set. *)
Record Env := mkEnv {
  FIREBASE_COLLECTION : option string;
  FIREBASE_TRIED_COLLECTION : option string;
  COFFEE_DB : option string;
  NTFY_TOPIC : option string;
  NTFY_SERVER : option string;
  SITE_BASE_URL : option string;
  NTFY_CLICK_URL : option string
}.

Definition TRIED_DEFAULT_COLLECTION : string := "coffees_tried".

(** The loop of [clear_firestore_collection] on one collection, whatever
    its documents are: each turn of [while True] deletes the first
    [batch_size] documents of the stream.  [turns] bounds the number of
    turns; the result tells whether the loop ended by itself within
    them. *)
Fixpoint clear_turns {A} (turns : nat) (col : gmap string A)
    (batch_size : nat) (total : nat) : gmap string A * nat * bool :=
  match turns with
  | O => (col, total, false)
  | S turns' =>
      let docs := take batch_size (map_to_list col) in
      match docs with
      | [] => (col, total, true)
      | _ =>
          clear_turns turns' (foldl (fun m d => delete d.1 m) col docs) batch_size
                      (total + length docs)
      end
  end.

(** [clear_firestore_collection]: the collection afterwards and the
    number of documents deleted; [None] when [fuel] turns do not end the
    loop. *)
Definition clear_firestore_collection {A} (fuel : nat) (col : gmap string A)
    (batch_size : nat) : option (gmap string A * nat) :=
  let '(col', total, ended) := clear_turns fuel col batch_size 0 in
  if ended then Some (col', total) else None.

(** [_delete_file] on a file system given by the set of the paths that
    exist; [remove_raises p] tells whether [os.remove] raises for [p] (a
    directory, a missing permission): the exception is caught, the path
    stays and the result is [False]. *)
Definition _delete_file (remove_raises : string → bool) (fs : gset string)
    (path : string) : gset string * bool :=
  if bool_decide (path ∈ fs) then
    if remove_raises path then (fs, false) else (fs ∖ {[path]}, true)
  else (fs, false).

(** [clear_local_sqlite]: the file system afterwards and the number of
    files removed. *)
Definition clear_local_sqlite (remove_raises : string → bool) (db_path_default : string)
    (env : Env) (fs : gset string) : gset string * nat :=
  let db_path := default db_path_default (truthy (COFFEE_DB env)) in
  foldl (fun acc p =>
           let '(fs', removed) := _delete_file remove_raises acc.1 p in
           if removed then (fs', S acc.2) else (fs', acc.2))
        (fs, 0%nat) [db_path; db_path +:+ "-wal"; db_path +:+ "-shm"].

(** [col = collection or env.get("FIREBASE_COLLECTION", "coffees")]: the
    name of the collection [clear_firestore_collection] purges when it
    is handed [collection]. *)
Definition purged_collection (env : Env) (collection : option string) : string :=
  match truthy collection with
  | Some c => c
  | None => default "coffees" (FIREBASE_COLLECTION env)
  end.

(** The stores [clear_datastores] works on: the collections of the
    project by name, and the files. *)
Record Stores (A : Type) := mkStores {
  collections : gmap string (gmap string A);
  files : gset string
}.
Arguments mkStores {A} _ _.
Arguments collections {A} _.
Arguments files {A} _.

(** [clear_datastores]; [answer_yes] tells whether the answer typed at
    the prompt, stripped and lowercased, is "yes", and [raises_after]
    whether the purge of the collection raises, and after how many
    committed batches (the exception is caught, and the files are removed
    all the same). *)
Definition clear_datastores {A} (remove_raises : string → bool) (db_path_default : string)
    (env : Env) (force answer_yes : bool) (raises_after : option nat) (s : Stores A)
    : Stores A :=
  let col := default "coffees" (FIREBASE_COLLECTION env) in
  let tried_col := default TRIED_DEFAULT_COLLECTION (FIREBASE_TRIED_COLLECTION env) in
  if bool_decide (col = tried_col) then s
  else if negb force && negb answer_yes then s
  else
    let target := purged_collection env (Some col) in
    let docs := default ∅ (collections s !! target) in
    let turns := default (S (size docs)) raises_after in
    let docs' := (clear_turns turns docs 400 0).1.1 in
    let cols :=
      match collections s !! target with
      | Some _ => <[target := docs']> (collections s)
      | None => collections s
      end in
    mkStores cols (clear_local_sqlite remove_raises db_path_default env (files s)).1.

(** [clear_tried]: the collection [clear_firestore_collection] purges
    when handed the name of the tried collection; an exception of the
    purge is not caught. *)
Definition clear_tried {A} (env : Env) (force answer_yes : bool)
    (raises_after : option nat) (s : Stores A) : Stores A * bool :=
  let tried_col := default TRIED_DEFAULT_COLLECTION (FIREBASE_TRIED_COLLECTION env) in
  if negb force && negb answer_yes then (s, false)
  else
    let target := purged_collection env (Some tried_col) in
    let docs := default ∅ (collections s !! target) in
    let turns := default (S (size docs)) raises_after in
    let docs' := (clear_turns turns docs 400 0).1.1 in
    (mkStores (match collections s !! target with
               | Some _ => <[target := docs']> (collections s)
               | None => collections s
               end) (files s),
     match raises_after with
     | Some k => negb (clear_turns k docs 400 0).2
     | None => false
     end).

(* ===================================================================== *)
(** ** The push notification *)
(* ===================================================================== *)

(** [s.rstrip("/")]. *)
Fixpoint rstrip_slash (s : string) : string :=
  match s with
  | EmptyString => EmptyString
  | String c rest =>
      let rest' := rstrip_slash rest in
      if Ascii.eqb c (Ascii.ascii_of_nat 47) && negb (nonempty rest') then EmptyString
      else String c rest'
  end.

(** The request [notify_ntfy] posts. *)
Record Request := mkRequest {
  req_url : string;
  req_title : string;
  req_click : option string;
  req_body : string
}.

Definition newline : string := String (Ascii.ascii_of_nat 10) EmptyString.

(** [notify_ntfy]: the request posted, if any.  [post_raises req] tells
    whether [requests.post] raises for the request (a header value
    outside latin-1, the network): the exception is caught and nothing is
    posted. *)
Definition notify_ntfy (post_raises : Request → bool) (lines : list string) (env : Env)
    (deep_id : option string) (title : string) (deep_ids : list string)
    : option Request :=
  let server := rstrip_slash (default "https://ntfy.sh" (truthy (NTFY_SERVER env))) in
  match truthy (NTFY_TOPIC env) with
  | None => None
  | Some topic =>
      let click :=
        match truthy (SITE_BASE_URL env), deep_ids, truthy deep_id with
        | Some site, _ :: _, _ =>
            Some (rstrip_slash site +:+ "/?ids=" +:+ join "," (take 6 deep_ids))
        | Some site, [], Some i => Some (rstrip_slash site +:+ "/?id=" +:+ i)
        | _, _, _ => truthy (NTFY_CLICK_URL env)
        end in
      let req := mkRequest (server +:+ "/" +:+ topic) title click (join newline lines) in
      if post_raises req then None else Some req
  end.

(** What [run_once] and [simulate_new_drop] post for their new items. *)
Definition notify_new_items (post_raises : Request → bool) (env : Env)
    (new_items : list (Product * string)) : option Request :=
  match new_items with
  | [] => None
  | _ =>
      let '(title, body_lines, first_id) := build_ntfy_message new_items in
      notify_ntfy post_raises body_lines env first_id title ((fun it => it.2) <$> new_items)
  end.

(* ===================================================================== *)
(** ** Fetching a page *)
(* ===================================================================== *)

(** [fetch_html]: [net i] is what attempt [i] meets, an exception of
    [requests.get] ([None]) or a status and a text.  The result is the
    text or the final [RuntimeError] ([None]), with the number of
    requests made and the seconds slept. *)
Fixpoint fetch_attempts (net : nat → option (nat * string)) (i n : nat)
    (slept : nat) : option string * nat * nat :=
  match n with
  | O => (None, i, slept)
  | S n' =>
      match net i with
      | Some (status, text) =>
          if (400 <=? status)%nat then fetch_attempts net (S i) n' (slept + (i + 1))
          else (Some text, S i, slept)
      | None => fetch_attempts net (S i) n' (slept + (i + 1))
      end
  end.

Definition fetch_html (net : nat → option (nat * string)) (retries : nat)
    : option string * nat * nat :=
  fetch_attempts net 0 retries 0.

(* ===================================================================== *)
(** ** The columns of the table *)
(* ===================================================================== *)

(** The columns [SCHEMA] creates. *)
Definition SCHEMA_columns : list string :=
  ["id"; "roaster"; "title"; "url"; "price"; "in_stock"; "first_seen"; "last_seen";
   "producer"; "country"; "region"; "process"; "variety"; "notes"; "profile"].






(** The columns [ensure_row_sqlite] names in its [INSERT]. *)
Definition insert_columns : list string :=
  ["roaster"; "title"; "url"; "price"; "in_stock"; "first_seen"; "last_seen";
   "producer"; "country"; "region"; "process"; "variety"; "notes"; "profile"; "image"].

(* ===================================================================== *)
(** ** The simulation *)
(* ===================================================================== *)

(** The fake product number [i] of [simulate_new_drop]. *)
Definition fake_product (ts : nat) (roasters : list string) (i : nat) : Product :=
  mkProduct
    (nth (i mod length roasters) roasters "")
    ("Test Drop " +:+ str_of_nat ts +:+ "-" +:+ str_of_nat (i + 1))
    ("https://example.com/products/test-" +:+ str_of_nat ts +:+ "-" +:+ str_of_nat (i + 1))
    ("$" +:+ str_of_nat (18 + i mod 7) +:+ ".00")
    true
    ""
    (nth (i mod 5) ["Ethiopia"; "Kenya"; "Colombia"; "Guatemala"; "Testland"] "")
    "" "" ""
    (nth (i mod 5) ["berry"; "citrus"; "caramel"; "stone fruit"; "tropical"] "")
    (nth (i mod 5) ["fruity"; "floral"; "chocolate"; "nutty"; "spice"] "")
    "".

(** The variables of the loop of [simulate_new_drop], and whether an
    exception has ended it. *)
Record SimState := mkSimState {
  sim_fdb : gmap string Doc;
  sim_conn : Mirror;
  sim_new_items : list (Product * string);
  sim_raised : bool
}.

(** One turn of [for i in range(count)]: nothing is caught here. *)
Definition sim_step (existing : gmap string string) (ts : nat) (roasters : list string)
    (world : nat → datetime * bool) (st : SimState) (i : nat) : SimState :=
  if sim_raised st then st
  else
    let fake := fake_product ts roasters i in
    let now := strftime_ISO (world i).1 in
    let pid := Product_id fake in
    let is_new := bool_decide (existing !! pid = None) in
    let first := first_seen_of existing pid now in
    match upsert_firestore (world i).2 (sim_fdb st) fake first now with
    | None => mkSimState (sim_fdb st) (sim_conn st) (sim_new_items st) true
    | Some (fdb, doc_id) =>
        match ensure_row_sqlite (sim_conn st) fake first now with
        | None => mkSimState fdb (sim_conn st) (sim_new_items st) true
        | Some conn =>
            mkSimState fdb conn
              (if is_new then sim_new_items st ++ [(fake, doc_id)] else sim_new_items st)
              false
        end
    end.

(** What [simulate_new_drop] leaves and returns: [None] is an exception,
    and then nothing is posted. *)
Record SimResult := mkSimResult {
  simr_fdb : gmap string Doc;
  simr_conn : Mirror;
  simr_return : option nat;
  simr_request : option Request
}.

(** [simulate_new_drop]; [ts] is [int(time.time())], [world i] gives
    the clock and whether the Firestore write raises in turn [i], and
    [post_raises] is as in [notify_ntfy]. *)
Definition simulate_new_drop (post_raises : Request → bool) (env : Env)
    (fdb : gmap string Doc) (file : Mirror) (count : Z) (roasters : list string)
    (ts : nat) (world : nat → datetime * bool) : SimResult :=
  let conn := db_connect file in
  let existing := load_firestore_index fdb in
  let roasters :=
    match roasters with
    | [] => ["Simulation Roaster A"; "Simulation Roaster B"; "Simulation Roaster C"]
    | _ => roasters
    end in
  let st := foldl (sim_step existing ts roasters world)
                  (mkSimState fdb conn [] false) (seq 0 (Z.to_nat count)) in
  if sim_raised st then mkSimResult (sim_fdb st) (sim_conn st) None None
  else
    mkSimResult (sim_fdb st) (sim_conn st) (Some (length (sim_new_items st)))
                (notify_new_items post_raises env (sim_new_items st)).

(* ===================================================================== *)
(** ** Vocabulary of the further properties *)
(* ===================================================================== *)

(** What a turn of the loop appends to the new items when both writes go
    through: the enriched product and its id, if the id is not in the
    index. *)
Definition new_item_of (existing : gmap string string) (it : Product * ItemEnv)
    : list (Product * string) :=
  if firestore_raises it.2 then []
  else if bool_decide (existing !! Product_id it.1 = None)
       then [(enrich it.1 (details it.2), Product_id it.1)]
       else [].

(** Every row of [conn] is still a row of [conn'], with the same
    [roaster], [first_seen] and [tried]. *)
Definition row_identity_kept (conn conn' : Mirror) : Prop :=
  ∀ u r, rows conn !! u = Some r →
         ∃ r', rows conn' !! u = Some r' ∧ row_roaster r' = row_roaster r
               ∧ row_first_seen r' = row_first_seen r ∧ row_tried r' = row_tried r.


(** Attempt [i] of [fetch_html] fails: [requests.get] raises or the
    status is 400 or more. *)
Definition attempt_fails (net : nat → option (nat * string)) (i : nat) : bool :=
  match net i with
  | Some (status, _) => (400 <=? status)%nat
  | None => true
  end.

(** The seconds slept after [k] failed attempts: 1 + 2 + ... + k. *)
Definition backoff (k : nat) : nat := (k * (k + 1) / 2)%nat.

(** The three files of a SQLite database in WAL mode. *)
Definition db_files (db_path : string) : list string :=
  [db_path; db_path +:+ "-wal"; db_path +:+ "-shm"].

(** The id a ledger command works on: the one given, or else the
    identifier of the URL given. *)
Definition ledger_id (id url : option string) : string :=
  match truthy id, truthy url with
  | Some i, _ => i
  | None, Some u => product_id_from_url u
  | None, None => ""
  end.

(** The entry [mark_tried] adds to the history. *)
Definition history_item_of (e : LedgerEnv) (notes : string) (rating : option Z)
    : HistoryItem :=
  mkHistoryItem (strftime_ISO (le_clock e))
                (if nonempty notes then Some notes else None) rating.

(** The document of the main collection [mark_tried] takes the roaster
    and the title from: with a URL given only the second lookup is made,
    with only an id the first and, if that one found nothing, the
    second. *)
Definition ledger_doc (main : gmap string Doc) (id url : option string)
    (e : LedgerEnv) : option Doc :=
  let id1 := ledger_id id url in
  match truthy url with
  | Some _ => main_get (get2_raises e) main id1
  | None =>
      match main_get (get1_raises e) main id1 with
      | Some d => Some d
      | None => main_get (get2_raises e) main id1
      end
  end.

(** The URL [mark_tried] records and flags: the one given, or else the
    one of the document found, unless it is empty. *)
Definition ledger_url (main : gmap string Doc) (id url : option string)
    (e : LedgerEnv) : option string :=
  match truthy url with
  | Some u => Some u
  | None => ledger_doc main id url e ≫= fun d => truthy (Some (doc_url d))
  end.

(** The lines [list_tried] builds, one per record, before it sorts and
    cuts them. *)
Definition tried_lines (tried : gmap string TriedDoc) : list TriedLine :=
  (fun d : string * TriedDoc =>
     (td_last_tried_on d.2, d.1, td_roaster d.2, td_title d.2, td_url d.2))
    <$> map_to_list tried.

(** Line [a] is not older than line [b]. *)
Definition not_older (a b : TriedLine) : Prop :=
  String.compare (line_key a) (line_key b) ≠ Lt.


(** Some record of the ledger has the URL [u], and [u] is not empty. *)
Definition in_ledger (tried : gmap string TriedDoc) (u : string) : Prop :=
  u ≠ "" ∧ ∃ id td, tried !! id = Some td ∧ td_url td = u.

(** The row [r] carries the fields of the document [d] that the sync
    copies on every pass. *)
Definition row_mirrors (r : Row) (d : Doc) : Prop :=
  row_title r = doc_title d ∧ row_price r = Some (doc_price d)
  ∧ row_first_seen r = doc_first_seen d ∧ row_last_seen r = doc_last_seen d
  ∧ row_producer r = doc_producer d ∧ row_country r = doc_country d
  ∧ row_region r = doc_region d ∧ row_process r = doc_process d
  ∧ row_variety r = doc_variety d ∧ row_notes r = doc_notes d
  ∧ row_profile r = doc_profile d.

(** The roaster names [simulate_new_drop] works with. *)
Definition sim_roasters (roasters : list string) : list string :=
  match roasters with
  | [] => ["Simulation Roaster A"; "Simulation Roaster B"; "Simulation Roaster C"]
  | _ => roasters
  end.

(** The fake coffees of a simulation that count as new: those whose id
    the remote store did not have when the simulation started, each with
    its id. *)
Definition sim_news (fdb : gmap string Doc) (ts : nat) (roasters : list string)
    (count : Z) : list (Product * string) :=
  (fun i => (fake_product ts (sim_roasters roasters) i,
             Product_id (fake_product ts (sim_roasters roasters) i)))
    <$> filter (fun i => fdb !! Product_id (fake_product ts (sim_roasters roasters) i) = None)
               (seq 0 (Z.to_nat count)).

(** The line of the roaster [r] in a notification of several sources:
    its first two new titles, and the number of the others. *)
Definition two_titles_line (new_items : list (Product * string)) (r : string) : string :=
  "• " +:+ r +:+ ": "
  +:+ join "; " ((fun it => title it.1) <$> take 2 (by_r new_items r))
  +:+ (if (2 <? length (by_r new_items r))%nat
       then "; +" +:+ str_of_nat (length (by_r new_items r) - 2) +:+ " more"
       else "").

(* ===================================================================== *)
(** ** More of the small world *)
(* ===================================================================== *)

(** A product of "Zed", and new items of two sources. *)
Definition zed_z1 : Product :=
  mkProduct "Zed" "Z1" "https://zed.example/products/z1" "" true "" "" "" "" "" "" "" "".

Definition two_sources : list (Product * string) :=
  [(acme "A" "$16.00", "ida"); (zed_z1, "idz")].

(** A network that fails twice, by an exception and by a status 503,
    before it answers, and one that never answers. *)
Definition flaky_net (i : nat) : option (nat * string) :=
  match i with
  | O => None
  | S O => Some (503%nat, "busy")
  | _ => Some (200%nat, "<html></html>")
  end.

Definition dead_net (_ : nat) : option (nat * string) := None.

(** Settings with a topic and a site, and settings with nothing set. *)
Definition site_env : Env :=
  mkEnv None None None (Some "coffee") None (Some "https://site.example/") None.

Definition bare_env : Env := mkEnv None None None None None None None.

(** Settings in which the name of the tried collection is set to the
    empty string. *)
Definition blank_tried_env : Env := mkEnv None (Some "") None None None None None.

(** A world in which posting never raises, and one in which the WAL
    file cannot be removed. *)
Definition post_ok (_ : Request) : bool := false.

Definition wal_locked (p : string) : bool := String.eqb p "coffee.db-wal".

(** Two collections and the files of a database. *)
Definition two_collections : Stores nat :=
  mkStores {[ "coffees" := {[ "ida" := 1%nat; "idb" := 2%nat ]};
              "coffees_tried" := {[ "ida" := 3%nat ]} ]}
           {[ "coffee.db"; "coffee.db-wal"; "notes.txt" ]}.

(** A main collection and a ledger with one record each for the same id,
    and a clock under which only the second lookup goes through. *)
Definition main_one : gmap string Doc :=
  {[ "ida" := acme_doc "A" "ua" true t0 t1 ]}.

Definition ledger_one : gmap string TriedDoc :=
  {[ "ida" := mkTriedDoc "ida" "ua" "Acme" "A" t0 (Some "bright") None
                (mkHistoryItem t0 (Some "bright") None :: nil) ]}.

Definition second_lookup_only : LedgerEnv := mkLedgerEnv day1 true false false false false.

Definition quiet_ledger : LedgerEnv := mkLedgerEnv day2 false false false false false.

(** The world of a simulation in which Firestore answers. *)
Definition calm_world (_ : nat) : datetime * bool := (day1, false).


(* ===================================================================== *)
(** * Properties *)
(* ===================================================================== *)

(** ** The identifier *)

(** The model of [hashlib.sha1] on the standard test vectors. *)
Example sha1_empty :
  SHA1.hexdigest (encode_utf8 "") = "da39a3ee5e6b4b0d3255bfef95601890afd80709".
Proof. vm_compute. reflexivity. Qed.

Example sha1_abc :
  SHA1.hexdigest (encode_utf8 "abc") = "a9993e364706816aba3e25717850c26c9cd0d89d".
Proof. vm_compute. reflexivity. Qed.

Example sha1_fox :
  SHA1.hexdigest (encode_utf8 "The quick brown fox jumps over the lazy dog")
  = "2fd4e1c67a2d28fced849ee1bb76e7391b93eb12".
Proof. vm_compute. reflexivity. Qed.

Example sha1_two_blocks :
  SHA1.hexdigest (encode_utf8 "abcdbcdecdefdefgefghfghighijhijkijkljklmklmnlmnomnopnopq")
  = "84983e441c3bd26ebaae4aa1f95129e5e54670f1".
Proof. vm_compute. reflexivity. Qed.

Example strftime_example : strftime_ISO day0 = "2025-08-01 06:00:00+0000".
Proof. reflexivity. Qed.

Example product_id_example :
  product_id_from_url "https://example.com/products/test-1" = "d6403629910092ac".
Proof. vm_compute. reflexivity. Qed.

Lemma substring_of_list (n : nat) (l : list Ascii.ascii) :
  String.substring 0 n (String.string_of_list_ascii l)
  = String.string_of_list_ascii (take n l).
Proof.
  revert l. induction n as [|n IH]; intros [|c l]; simpl; try reflexivity.
  by rewrite IH.
Qed.

Lemma string_of_list_length (l : list Ascii.ascii) :
  String.length (String.string_of_list_ascii l) = length l.
Proof. induction l as [|c l IH]; simpl; [reflexivity | by rewrite IH]. Qed.

Lemma flat_map_hex_byte_length (bs : list Z) :
  length (flat_map SHA1.hex_byte bs) = 2 * length bs.
Proof. induction bs as [|b bs IH]; simpl; [reflexivity | rewrite IH; lia]. Qed.

Lemma digest_length (msg : list Z) : length (SHA1.digest msg) = 20.
Proof. unfold SHA1.digest. by destruct (SHA1.hash msg). Qed.

(** The identifier always has sixteen characters. *)
Lemma product_id_from_url_length (u : string) :
  String.length (product_id_from_url u) = 16.
Proof.
  unfold product_id_from_url, str_prefix, SHA1.hexdigest.
  rewrite substring_of_list, string_of_list_length, length_take.
  rewrite flat_map_hex_byte_length, digest_length. reflexivity.
Qed.

(** C9: [Product.id] of a product and [product_id_from_url] of its URL
    return the same value, which is the first sixteen hexadecimal
    characters of the SHA-1 digest of the UTF-8 encoding of the URL. *)
Theorem C9_product_id_agrees (p : Product) :
  Product_id p = product_id_from_url (url p)
  ∧ product_id_from_url (url p) = identifier_spec (url p).
Proof.
  split; [reflexivity |].
  unfold product_id_from_url, identifier_spec, str_prefix, SHA1.hexdigest.
  apply substring_of_list.
Qed.

(** ** The listing parser *)

Section ParseProductsProps.
Context {Tag : Type} `{Scraper Tag}.

Lemma listing_inv_snoc out seen (prod : Product) :
  listing_inv (out, seen) → url prod ∉ seen →
  listing_inv (out ++ [prod], seen ∪ {[url prod]}).
Proof.
  intros [Hnd Hsub] Hfresh. split; simpl in *.
  - rewrite fmap_app. apply NoDup_app. split; [done |]. split.
    + intros u Hu Hin. apply list_elem_of_singleton in Hin as ->.
      by apply Hfresh, Hsub.
    + apply NoDup_singleton.
  - intros u. rewrite fmap_app, elem_of_app. intros [Hu | Hu].
    + apply elem_of_union_l. by apply Hsub.
    + apply list_elem_of_singleton in Hu as ->. set_solver.
Qed.

Lemma node_step_inv cfg st n :
  listing_inv st → listing_inv (node_step cfg st n).
Proof.
  destruct st as [out seen]. intros Hinv. unfold node_step.
  destruct (extract cfg n) as [prod|]; [|done].
  case_bool_decide; [done |]. by apply listing_inv_snoc.
Qed.

Lemma anchor_step_inv cfg st a :
  listing_inv st → listing_inv (anchor_step cfg st a).
Proof.
  destruct st as [out seen]. intros Hinv. unfold anchor_step.
  destruct (truthy (tag_get a "href")) as [href|]; [|done].
  case_bool_decide; [done |].
  by apply (listing_inv_snoc out seen (mkProduct _ _ _ _ _ _ _ _ _ _ _ _ _)).
Qed.

Lemma foldl_inv {A B} (P : A → Prop) (f : A → B → A) (l : list B) (a : A) :
  (∀ a b, P a → P (f a b)) → P a → P (foldl f a l).
Proof. intros Hf. revert a. induction l; simpl; auto. Qed.

Lemma parse_products_NoDup (cfg : RoasterConfig) (html : string) :
  NoDup (url <$> parse_products cfg html).
Proof.
  unfold parse_products.
  pose proof (foldl_inv listing_inv (node_step cfg)
                (select (parse_html html) (product_selector cfg)) ([], ∅)) as Hnodes.
  destruct (foldl (node_step cfg) ([], ∅) _) as [out seen].
  assert (listing_inv (out, seen)) as Hinv.
  { apply Hnodes; [apply node_step_inv |]. split; [constructor | set_solver]. }
  destruct out as [|p out]; [| apply Hinv].
  apply (foldl_inv listing_inv (anchor_step cfg)); [apply anchor_step_inv | done].
Qed.

(** Each loop keeps, of the candidates it meets, the first of every URL;
    the set of seen URLs is the set of the URLs kept. *)
Lemma node_loop_first cfg nodes out seen :
  foldl (node_step cfg) (out, seen) nodes
  = (out ++ first_by_url seen (omap (extract cfg) nodes),
     seen ∪ list_to_set (url <$> first_by_url seen (omap (extract cfg) nodes))).
Proof.
  revert out seen. induction nodes as [|n nodes IH]; intros out seen; cbn [foldl].
  - cbn. by rewrite app_nil_r, (right_id_L ∅ (∪)).
  - unfold node_step at 2. cbn [omap list_omap].
    destruct (extract cfg n) as [prod|]; [| apply IH].
    cbn [first_by_url]. case_bool_decide; [apply IH |].
    rewrite IH, <- app_assoc. cbn [app fmap list_fmap].
    by rewrite list_to_set_cons, (assoc_L (∪)).
Qed.

Lemma anchor_loop_first cfg anchors out seen :
  (foldl (anchor_step cfg) (out, seen) anchors).1
  = out ++ first_by_url seen (omap (anchor_candidate cfg) anchors).
Proof.
  revert out seen. induction anchors as [|a anchors IH]; intros out seen; cbn [foldl].
  - cbn. by rewrite app_nil_r.
  - unfold anchor_step at 2, anchor_candidate. cbn [omap list_omap].
    destruct (truthy (tag_get a "href")) as [href|]; [| apply IH].
    cbn [first_by_url url]. case_bool_decide; [apply IH |].
    by rewrite IH, <- app_assoc.
Qed.

(** C10: the products [parse_products] returns have pairwise distinct
    URLs; they are, in order, the first candidate of every URL among the
    nodes of the product selector or, when these give nothing, among the
    product links of the page. *)
Theorem C10_parse_products_distinct_urls (cfg : RoasterConfig) (html : string) :
  NoDup (url <$> parse_products cfg html)
  ∧ parse_products cfg html
    = match first_by_url ∅ (omap (extract cfg)
                              (select (parse_html html) (product_selector cfg))) with
      | [] => first_by_url ∅ (omap (anchor_candidate cfg)
                                (select (parse_html html) "a[href*='/products/']"))
      | out => out
      end.
Proof.
  split; [apply parse_products_NoDup |].
  unfold parse_products. rewrite node_loop_first. cbn [app].
  destruct (first_by_url ∅ _) as [|p out]; [| reflexivity].
  rewrite anchor_loop_first. cbn [app fmap list_fmap].
  by rewrite list_to_set_nil, (right_id_L ∅ (∪)).
Qed.

(** Only the first candidate of a URL is kept: a node whose URL has been
    collected leaves the result as it is. *)
Lemma node_step_keeps_first cfg out seen n prod :
  extract cfg n = Some prod → url prod ∈ seen →
  node_step cfg (out, seen) n = (out, seen).
Proof. intros He Hin. unfold node_step. rewrite He. by rewrite bool_decide_eq_true_2. Qed.

End ParseProductsProps.

(** On the toy parser: three product nodes, two of them with the same
    link, give two products. *)
Example parse_products_toy :
  url <$> parse_products acme_cfg "/products/a /products/a /products/b"
  = ["https://acme.example/products/a"; "https://acme.example/products/b"].
Proof. reflexivity. Qed.

(** ** The notification composer *)

Lemma compare_refl (s : string) : String.compare s s = Eq.
Proof.
  pose proof (String.compare_antisym s s) as Hs.
  destruct (String.compare s s); simpl in Hs; congruence.
Qed.

(** [sorted_set] is [sorted(set(names))]: it has the elements of
    [names] and is strictly increasing. *)
Lemma elem_of_insert_sorted (z x : string) (l : list string) :
  z ∈ insert_sorted x l ↔ z = x ∨ z ∈ l.
Proof.
  induction l as [|y l IH]; cbn [insert_sorted].
  - rewrite list_elem_of_singleton, elem_of_nil. tauto.
  - destruct (String.compare x y) eqn:Hc.
    + apply String.compare_eq_iff in Hc as ->. rewrite elem_of_cons. tauto.
    + rewrite !elem_of_cons. tauto.
    + rewrite !elem_of_cons, IH. tauto.
Qed.

Lemma elem_of_sorted_set (z : string) (names : list string) :
  z ∈ sorted_set names ↔ z ∈ names.
Proof.
  unfold sorted_set. induction names as [|x names IH]; cbn [foldr]; [done |].
  by rewrite elem_of_insert_sorted, elem_of_cons, IH.
Qed.

Lemma insert_sorted_Sorted (x : string) (l : list string) :
  Sorted (fun a b => String.compare a b = Lt) l →
  Sorted (fun a b => String.compare a b = Lt) (insert_sorted x l).
Proof.
  induction 1 as [|y l Hs IH Hhd]; cbn [insert_sorted]; [by repeat constructor |].
  destruct (String.compare x y) eqn:Hc.
  - by constructor.
  - constructor; [by constructor | by constructor].
  - constructor; [exact IH |].
    assert (String.compare y x = Lt) as Hyx.
    { rewrite String.compare_antisym, Hc. reflexivity. }
    destruct Hhd as [|z l Hyz]; cbn [insert_sorted]; [by constructor |].
    destruct (String.compare x z); by constructor.
Qed.

Lemma sorted_set_Sorted (names : list string) :
  Sorted (fun a b => String.compare a b = Lt) (sorted_set names).
Proof.
  unfold sorted_set. induction names as [|x names IH]; cbn [foldr]; [constructor |].
  by apply insert_sorted_Sorted.
Qed.

Lemma sorted_set_one_roaster (r : string) (names : list string) :
  names ≠ [] → Forall (fun x => x = r) names → sorted_set names = [r].
Proof.
  induction names as [|x names IH]; [done |].
  intros _ Hall. apply Forall_cons in Hall as [-> Hall]. simpl.
  destruct names as [|y names]; [reflexivity |].
  rewrite IH by done. simpl. by rewrite compare_refl.
Qed.

Lemma by_r_one_roaster (r : string) (new_items : list (Product * string)) :
  Forall (fun it => roaster it.1 = r) new_items → by_r new_items r = new_items.
Proof.
  unfold by_r. induction 1 as [|it l Hit Hall IH]; [reflexivity |].
  rewrite filter_cons_True by done. by rewrite IH.
Qed.

Lemma _truncate_lines_spec (lines : list string) (max_lines : nat) :
  _truncate_lines lines max_lines
  = take max_lines lines
    ++ (if (max_lines <? length lines)%nat
        then ["+" +:+ str_of_nat (length lines - max_lines) +:+ " more…"]
        else []).
Proof.
  unfold _truncate_lines.
  destruct (Nat.leb_spec (length lines) max_lines) as [Hle | Hlt].
  - rewrite take_ge by done.
    destruct (Nat.ltb_spec max_lines (length lines)); [lia |].
    by rewrite app_nil_r.
  - destruct (Nat.ltb_spec max_lines (length lines)); [done | lia].
Qed.

(** C7, as stated, fails: for two new items of the source "Acme" the
    title is "2 new coffees from Acme", not "2 new items from Acme". *)
Lemma C7_title_counterexample :
  let new_items := [(acme "Dark Roast" "$16.00", "id1"); (acme "Light Roast" "", "id2")] in
  (build_ntfy_message new_items).1.1 = "2 new coffees from Acme"
  ∧ (build_ntfy_message new_items).1.1 ≠ spec_single_source_title 2 "Acme".
Proof. split; [reflexivity | discriminate]. Qed.

(** C7, amended: for N >= 2 new items that all share one source, the
    title is "{N} new coffees from {source}" and the body is the bullet
    lines "• {title} — {price}" (without the price segment when the price
    is empty) of the first eight items in encounter order, followed by
    exactly one line "+{N-8} more…" when N > 8 and by nothing otherwise. *)
Theorem C7_single_source_message (new_items : list (Product * string)) (source : string) :
  (2 ≤ length new_items)%nat →
  Forall (fun it => roaster it.1 = source) new_items →
  (build_ntfy_message new_items).1
  = (str_of_nat (length new_items) +:+ " new coffees from " +:+ source,
     ((fun it => "• " +:+ title it.1
                 +:+ (if String.eqb (price_text it.1) "" then ""
                      else " — " +:+ price_text it.1))
        <$> take 8 new_items)
     ++ (if (8 <? length new_items)%nat
         then ["+" +:+ str_of_nat (length new_items - 8) +:+ " more…"]
         else [])).
Proof.
  intros Hlen Hall. unfold build_ntfy_message.
  destruct new_items as [|[p0 pid0] rest]; [simpl in Hlen; lia |].
  destruct (Nat.eqb_spec (length ((p0, pid0) :: rest)) 1) as [Hone | _];
    [simpl in Hone, Hlen; lia |].
  rewrite (sorted_set_one_roaster source); [| done |].
  - rewrite by_r_one_roaster by done. cbn [fst].
    rewrite _truncate_lines_spec, length_fmap, <- fmap_take.
    f_equal. f_equal. apply list_fmap_ext. intros _ it _.
    unfold item_line, nonempty. by destruct (String.eqb (price_text it.1) "").
  - apply Forall_fmap. eapply Forall_impl; [exact Hall | done].
Qed.

Lemma C7_single_source_message_witness :
  (build_ntfy_message
     ((fun i => (acme ("Lot " +:+ str_of_nat i) "", "id" +:+ str_of_nat i)) <$> seq 0 10)).1
  = ("10 new coffees from Acme",
     ["• Lot 0"; "• Lot 1"; "• Lot 2"; "• Lot 3"; "• Lot 4"; "• Lot 5";
      "• Lot 6"; "• Lot 7"; "+2 more…"]).
Proof.
  rewrite (C7_single_source_message _ "Acme").
  - reflexivity.
  - simpl. lia.
  - repeat constructor.
Defined.

(** C8: for a non-empty list of new items, the identifier returned by
    [build_ntfy_message] is the identifier of the first pair, in the
    single-item, single-source and multi-source cases alike. *)
Theorem C8_primary_identifier_is_first (p : Product) (pid : string)
    (rest : list (Product * string)) :
  (build_ntfy_message ((p, pid) :: rest)).2 = Some pid.
Proof.
  unfold build_ntfy_message.
  destruct (length ((p, pid) :: rest) =? 1)%nat; [reflexivity |].
  destruct (sorted_set _) as [|r [|r' rs]]; reflexivity.
Qed.

(** The three cases on examples: one new item; several of one source;
    and several sources, the first new item being of "Zed", which sorts
    after "Acme" in the body. *)
Example primary_identifier_single_item :
  build_ntfy_message [(acme "Dark Roast" "$16.00", "id1")]
  = ("New from Acme: Dark Roast",
     ["$16.00"; "https://acme.example/products/Dark Roast"], Some "id1").
Proof. reflexivity. Qed.

Example primary_identifier_single_source :
  build_ntfy_message
    [(acme "Dark Roast" "$16.00", "id1"); (acme "Light Roast" "", "id2");
     (acme "Decaf" "$14.00", "id3")]
  = ("3 new coffees from Acme",
     ["• Dark Roast — $16.00"; "• Light Roast"; "• Decaf — $14.00"], Some "id1").
Proof. reflexivity. Qed.

Example primary_identifier_multi_source :
  build_ntfy_message
    [(mkProduct "Zed" "Z1" "https://zed.example/products/z1" "" true
                "" "" "" "" "" "" "" "", "idz");
     (acme "A1" "", "ida1"); (acme "A2" "", "ida2")]
  = ("New drops: 3 coffees from 2 roasters", ["• Acme: A1; A2"; "• Zed: Z1"], Some "idz").
Proof. reflexivity. Qed.

(** ** The staleness passes, row by row *)

Lemma sql_update_lookup cond set (tbl : gmap string Row) (u : string) :
  (sql_update cond set tbl).1 !! u
  = (fun r => if cond u r then set r else r) <$> tbl !! u.
Proof.
  unfold sql_update. cbn [fst]. rewrite map_lookup_imap.
  by destruct (tbl !! u).
Qed.

(** A pass made of steps that each rewrite the entries selected by a
    condition rewrites exactly the entries some step selects, if the
    rewriting is idempotent and does not change what the conditions see. *)
Lemma foldl_pointwise {V A T : Type}
    (step : gmap string V * T → A → gmap string V * T)
    (c : A → string → V → bool) (upd : V → V) :
  (∀ v, upd (upd v) = upd v) →
  (∀ a i v, c a i (upd v) = c a i v) →
  (∀ m t a i, (step (m, t) a).1 !! i = (fun v => if c a i v then upd v else v) <$> m !! i) →
  ∀ l m t i,
    (foldl step (m, t) l).1 !! i
    = (fun v => if existsb (fun a => c a i v) l then upd v else v) <$> m !! i.
Proof.
  intros Hidem Hstable Hstep l.
  induction l as [|a l IH]; intros m t i; simpl.
  - by destruct (m !! i).
  - destruct (step (m, t) a) as [m' t'] eqn:Hs.
    rewrite IH. pose proof (Hstep m t a i) as Hl. rewrite Hs in Hl.
    cbn [fst] in Hl. rewrite Hl.
    destruct (m !! i) as [v|]; [| reflexivity]. simpl. f_equal.
    destruct (c a i v) eqn:Hc; simpl; [| reflexivity].
    rewrite Hidem.
    by destruct (existsb _ l).
Qed.

Lemma existsb_map_to_list {B : Type} (seen : gmap string B) (k : string) (q : B → bool) :
  existsb (fun e : string * B => String.eqb k e.1 && q e.2) (map_to_list seen)
  = match seen !! k with Some s => q s | None => false end.
Proof.
  destruct (existsb _ _) eqn:He.
  - apply existsb_exists in He as ([k' s] & Hin & Hq).
    apply list_elem_of_In, elem_of_map_to_list in Hin.
    apply andb_true_iff in Hq as [Hk Hq]. apply String.eqb_eq in Hk. simpl in *.
    subst k'. by rewrite Hin.
  - destruct (seen !! k) as [s|] eqn:Hk; [| reflexivity].
    destruct (q s) eqn:Hq; [| reflexivity].
    assert (existsb (fun e : string * B => String.eqb k e.1 && q e.2)
              (map_to_list seen) = true) as Ht; [| congruence].
    apply existsb_exists. exists (k, s). split.
    + by apply list_elem_of_In, elem_of_map_to_list.
    + simpl. by rewrite String.eqb_refl, Hq.
Qed.

Lemma stale_sqlite_step_lookup tbl total entry u :
  (stale_sqlite_step (tbl, total) entry).1 !! u
  = (fun r => if String.eqb (row_roaster r) entry.1 && negb (bool_decide (u ∈ entry.2))
              then row_set_in_stock 0 r else r) <$> tbl !! u.
Proof.
  destruct entry as [k urls]. unfold stale_sqlite_step.
  case_bool_decide as Hne.
  - destruct (sql_update _ _ tbl) as [tbl' n] eqn:Hu.
    pose proof (sql_update_lookup
      (fun u r => String.eqb (row_roaster r) k && negb (bool_decide (u ∈ urls)))
      (row_set_in_stock 0) tbl u) as Hl.
    rewrite Hu in Hl. exact Hl.
  - destruct (sql_update _ _ tbl) as [tbl' n] eqn:Hu.
    pose proof (sql_update_lookup (fun _ r => String.eqb (row_roaster r) k)
      (row_set_in_stock 0) tbl u) as Hl.
    rewrite Hu in Hl. cbn [fst snd] in *. rewrite Hl.
    assert (urls = ∅) as -> by (destruct (decide (urls = ∅)); [done | by destruct Hne]).
    destruct (tbl !! u) as [r|]; [| reflexivity]. simpl.
    rewrite bool_decide_eq_false_2 by set_solver.
    by rewrite andb_true_r.
Qed.

(** [mark_stale_sqlite], row by row: a row is rewritten exactly when its
    roaster is a key of the map and its URL is not in that roaster's set,
    and then only [in_stock] changes. *)
Lemma mark_stale_sqlite_lookup conn seen u :
  rows (mark_stale_sqlite conn seen).1 !! u
  = (fun r => if stale_row seen u r then row_set_in_stock 0 r else r) <$> rows conn !! u.
Proof.
  unfold mark_stale_sqlite.
  destruct (foldl stale_sqlite_step (rows conn, 0) (map_to_list seen)) as [tbl n] eqn:Hf.
  cbn [fst with_rows rows].
  pose proof (foldl_pointwise stale_sqlite_step
    (fun e u r => String.eqb (row_roaster r) e.1 && negb (bool_decide (u ∈ e.2)))
    (row_set_in_stock 0)) as Hp.
  rewrite <- (f_equal fst Hf : _ = tbl). rewrite Hp.
  - destruct (rows conn !! u) as [r|]; [| reflexivity]. simpl. f_equal.
    unfold stale_row.
    pose proof (existsb_map_to_list seen (row_roaster r)
                  (fun s => negb (bool_decide (u ∈ s)))) as He.
    cbv beta in He. by rewrite He.
  - reflexivity.
  - reflexivity.
  - intros m t a i. apply stale_sqlite_step_lookup.
Qed.

Lemma doc_set_in_stock_idem v d :
  doc_set_in_stock v (doc_set_in_stock v d) = doc_set_in_stock v d.
Proof. reflexivity. Qed.

Lemma commit_lookup (batch : list string) (db : gmap string Doc) (doc_id : string) :
  commit batch db !! doc_id
  = if bool_decide (doc_id ∈ batch) then doc_set_in_stock false <$> db !! doc_id
    else db !! doc_id.
Proof.
  unfold commit. revert db. induction batch as [|k batch IH]; intros db; cbn [foldl].
  - by rewrite bool_decide_eq_false_2 by set_solver.
  - rewrite IH, lookup_alter.
    destruct (decide (k = doc_id)) as [-> | Hne].
    + rewrite (bool_decide_eq_true_2 (doc_id ∈ doc_id :: batch)) by set_solver.
      case_bool_decide; [| reflexivity].
      by destruct (db !! doc_id).
    + case_bool_decide as Hin.
      * by rewrite bool_decide_eq_true_2 by (apply elem_of_cons; by right).
      * rewrite bool_decide_eq_false_2; [done |].
        apply not_elem_of_cons. by split; [congruence |].
Qed.

Lemma commit_app (b1 b2 : list string) (db : gmap string Doc) :
  commit (b1 ++ b2) db = commit b2 (commit b1 db).
Proof. unfold commit. apply foldl_app. Qed.

Lemma stale_doc_step_commit batch_size seen_ids st d :
  sl_ops st = length (sl_batch st) →
  let st1 := stale_doc_step batch_size seen_ids st d in
  sl_ops st1 = length (sl_batch st1)
  ∧ ∀ rest, commit (sl_batch st1 ++ rest) (sl_db st1)
            = commit (sl_batch st ++ pending seen_ids [d] ++ rest) (sl_db st).
Proof.
  intros Hops. unfold stale_doc_step, pending. cbn [omap list_omap].
  destruct (bool_decide (seen_ids ≠ ∅) && bool_decide (d.1 ∈ seen_ids)).
  - split; [exact Hops | done].
  - destruct (batch_size <=? S (sl_ops st))%nat; cbn [sl_ops sl_batch sl_db].
    + split; [reflexivity |]. intros rest.
      rewrite app_nil_l, (app_assoc (sl_batch st)). symmetry. apply commit_app.
    + split; [rewrite length_app; simpl; lia |]. intros rest.
      by rewrite <- app_assoc.
Qed.

(** Batching does not change what is written: whatever the batch size,
    after the final commit the loop has applied every queued update. *)
Lemma stale_loop_commit batch_size seen_ids docs st :
  sl_ops st = length (sl_batch st) →
  let st' := foldl (stale_doc_step batch_size seen_ids) st docs in
  sl_ops st' = length (sl_batch st')
  ∧ commit (sl_batch st') (sl_db st')
    = commit (sl_batch st ++ pending seen_ids docs) (sl_db st).
Proof.
  revert st. induction docs as [|d docs IH]; intros st Hops; cbn [foldl].
  - cbn. by rewrite app_nil_r.
  - destruct (stale_doc_step_commit batch_size seen_ids st d Hops) as [Hops1 Hc1].
    destruct (IH _ Hops1) as [Hops' Hc']. cbv zeta.
    split; [exact Hops' |]. rewrite Hc', Hc1.
    change (d :: docs) with ([d] ++ docs).
    unfold pending. by rewrite omap_app.
Qed.

Lemma stale_roaster_step_db batch_size db total entry :
  (stale_roaster_step batch_size (db, total) entry).1
  = commit (pending entry.2 (stream_roaster entry.1 db)) db.
Proof.
  unfold stale_roaster_step.
  destruct (stale_loop_commit batch_size entry.2 (stream_roaster entry.1 db)
              (mkStaleLoop db [] 0 total) eq_refl) as [Hops Hc].
  simpl in Hc. rewrite <- Hc.
  destruct (Nat.eqb_spec (sl_ops (foldl (stale_doc_step batch_size entry.2)
              (mkStaleLoop db [] 0 total) (stream_roaster entry.1 db))) 0) as [Hz | Hnz];
    [| reflexivity].
  rewrite Hz in Hops. symmetry in Hops. apply length_zero_iff_nil in Hops.
  by rewrite Hops.
Qed.

Lemma elem_of_pending seen_ids r (db : gmap string Doc) doc_id :
  doc_id ∈ pending seen_ids (stream_roaster r db)
  ↔ ∃ d, db !! doc_id = Some d ∧ doc_roaster d = r ∧ doc_id ∉ seen_ids.
Proof.
  unfold pending, stream_roaster. rewrite list_elem_of_omap. split.
  - intros ([k d] & Hin & Hq). apply elem_of_map_to_list in Hin.
    apply map_lookup_filter_Some in Hin as [Hk Hr]. simpl in *.
    destruct (bool_decide (seen_ids ≠ ∅) && bool_decide (k ∈ seen_ids)) eqn:Hs;
      [discriminate |].
    injection Hq as ->. exists d. split; [done |]. split; [done |].
    intros Hin. rewrite andb_false_iff in Hs.
    destruct Hs as [Hs | Hs]; apply bool_decide_eq_false in Hs; set_solver.
  - intros (d & Hk & Hr & Hnot). exists (doc_id, d). split.
    + apply elem_of_map_to_list, map_lookup_filter_Some. by split.
    + simpl. rewrite (bool_decide_eq_false_2 (doc_id ∈ seen_ids)) by done.
      by rewrite andb_false_r.
Qed.

Lemma stale_roaster_step_lookup batch_size db total entry doc_id :
  (stale_roaster_step batch_size (db, total) entry).1 !! doc_id
  = (fun d => if String.eqb (doc_roaster d) entry.1
                 && negb (bool_decide (doc_id ∈ entry.2))
              then doc_set_in_stock false d else d) <$> db !! doc_id.
Proof.
  rewrite stale_roaster_step_db, commit_lookup.
  destruct (db !! doc_id) as [d|] eqn:Hd; simpl.
  - case_bool_decide as Hin.
    + apply elem_of_pending in Hin as (d' & Hd' & Hr & Hnot).
      rewrite Hd in Hd'. injection Hd' as <-.
      apply String.eqb_eq in Hr. rewrite Hr.
      by rewrite bool_decide_eq_false_2 by done.
    + destruct (String.eqb_spec (doc_roaster d) entry.1) as [Hr | Hr]; [| done].
      case_bool_decide as Hs; [done |]. destruct Hin.
      apply elem_of_pending. by exists d.
  - by case_bool_decide.
Qed.

(** [mark_stale_by_roaster], document by document, for every batch size:
    a document is rewritten exactly when its roaster is a key of the map
    and its id is not in that roaster's set, and then only [in_stock]
    changes. *)
Lemma mark_stale_by_roaster_lookup db seen batch_size doc_id :
  (mark_stale_by_roaster db seen batch_size).1 !! doc_id
  = (fun d => if stale_doc seen doc_id d then doc_set_in_stock false d else d)
      <$> db !! doc_id.
Proof.
  unfold mark_stale_by_roaster.
  rewrite (foldl_pointwise (stale_roaster_step batch_size)
    (fun e i d => String.eqb (doc_roaster d) e.1 && negb (bool_decide (i ∈ e.2)))
    (doc_set_in_stock false)).
  - destruct (db !! doc_id) as [d|]; [| reflexivity]. simpl. f_equal.
    unfold stale_doc.
    pose proof (existsb_map_to_list seen (doc_roaster d)
                  (fun s => negb (bool_decide (doc_id ∈ s)))) as He.
    cbv beta in He. by rewrite He.
  - reflexivity.
  - reflexivity.
  - intros m t a i. apply stale_roaster_step_lookup.
Qed.

Lemma filter_succeeded_lookup succeeded (seen : gmap string (gset string)) r :
  filter_succeeded succeeded seen !! r
  = if bool_decide (r ∈ succeeded) then seen !! r else None.
Proof.
  unfold filter_succeeded. rewrite map_lookup_filter.
  destruct (seen !! r) as [s|]; simpl; [| by case_bool_decide].
  case_bool_decide; by case_guard.
Qed.

(** The staleness pass of a run, record by record, in both stores. *)
Lemma stale_phase_fdb_lookup st doc_id :
  st_fdb (stale_phase st) !! doc_id
  = (fun d => if stale_doc (filter_succeeded (st_succeeded st) (st_seen_ids st)) doc_id d
              then doc_set_in_stock false d else d) <$> st_fdb st !! doc_id.
Proof.
  unfold stale_phase. case_bool_decide as Hne; cbn [st_fdb].
  - apply mark_stale_by_roaster_lookup.
  - assert (st_succeeded st = ∅) as Hs
      by (destruct (decide (st_succeeded st = ∅)); [done | by destruct Hne]).
    destruct (st_fdb st !! doc_id) as [d|]; [| reflexivity]. simpl. f_equal.
    unfold stale_doc. rewrite filter_succeeded_lookup, Hs.
    by rewrite bool_decide_eq_false_2 by set_solver.
Qed.

Lemma stale_phase_rows_lookup st u :
  rows (st_conn (stale_phase st)) !! u
  = (fun r => if stale_row (filter_succeeded (st_succeeded st) (st_seen_urls st)) u r
              then row_set_in_stock 0 r else r) <$> rows (st_conn st) !! u.
Proof.
  unfold stale_phase. case_bool_decide as Hne; cbn [st_conn].
  - apply mark_stale_sqlite_lookup.
  - assert (st_succeeded st = ∅) as Hs
      by (destruct (decide (st_succeeded st = ∅)); [done | by destruct Hne]).
    destruct (rows (st_conn st) !! u) as [r|]; [| reflexivity]. simpl. f_equal.
    unfold stale_row. rewrite filter_succeeded_lookup, Hs.
    by rewrite bool_decide_eq_false_2 by set_solver.
Qed.

(** ** Staleness correctness *)

Lemma not_elem_of_pair (x a b : string) :
  x ≠ a → x ≠ b → x ∉ ({[a; b]} : gset string).
Proof.
  intros Ha Hb Hin. apply elem_of_union in Hin as [Hin | Hin];
    apply elem_of_singleton in Hin; done.
Qed.

(** C3: when the stores hold the items A, B and C of a source and the
    run's seen-sets for that source are those of A and B, the staleness
    pass sets [in_stock] to false on C, and to nothing else of C, in the
    remote store and in the local mirror, and leaves A and B as they
    were. *)
Theorem C3_staleness_marks_only_absent (st : RunState) (r : string)
    (ida idb idc ua ub uc : string) (A B C : Doc) (RA RB RC : Row) :
  r ∈ st_succeeded st →
  st_seen_ids st !! r = Some {[ida; idb]} →
  st_seen_urls st !! r = Some {[ua; ub]} →
  st_fdb st !! ida = Some A → st_fdb st !! idb = Some B → st_fdb st !! idc = Some C →
  doc_roaster A = r → doc_roaster B = r → doc_roaster C = r →
  idc ≠ ida → idc ≠ idb →
  rows (st_conn st) !! ua = Some RA → rows (st_conn st) !! ub = Some RB →
  rows (st_conn st) !! uc = Some RC →
  row_roaster RA = r → row_roaster RB = r → row_roaster RC = r →
  uc ≠ ua → uc ≠ ub →
  let st' := stale_phase st in
  (st_fdb st' !! idc = Some (doc_set_in_stock false C)
   ∧ st_fdb st' !! ida = Some A ∧ st_fdb st' !! idb = Some B)
  ∧ (rows (st_conn st') !! uc = Some (row_set_in_stock 0 RC)
     ∧ rows (st_conn st') !! ua = Some RA ∧ rows (st_conn st') !! ub = Some RB).
Proof.
  intros Hr Hids Hurls HA HB HC HrA HrB HrC Hca Hcb HRA HRB HRC HrRA HrRB HrRC Hua Hub.
  cbv zeta. rewrite !stale_phase_fdb_lookup, !stale_phase_rows_lookup.
  rewrite HA, HB, HC, HRA, HRB, HRC. cbn [fmap option_fmap option_map].
  unfold stale_doc, stale_row. rewrite !filter_succeeded_lookup.
  rewrite HrA, HrB, HrC, HrRA, HrRB, HrRC.
  rewrite (bool_decide_eq_true_2 _ Hr), Hids, Hurls.
  rewrite (bool_decide_eq_false_2 (idc ∈ _)) by (by apply not_elem_of_pair).
  rewrite (bool_decide_eq_true_2 (ida ∈ _)) by set_solver.
  rewrite (bool_decide_eq_true_2 (idb ∈ _)) by set_solver.
  rewrite (bool_decide_eq_false_2 (uc ∈ _)) by (by apply not_elem_of_pair).
  rewrite (bool_decide_eq_true_2 (ua ∈ _)) by set_solver.
  rewrite (bool_decide_eq_true_2 (ub ∈ _)) by set_solver.
  done.
Qed.

Lemma C3_staleness_marks_only_absent_witness :
  (st_fdb (stale_phase three_items_state) !! "idc"
     = Some (acme_doc "C" "uc" false t0 t0)
   ∧ st_fdb (stale_phase three_items_state) !! "ida" = Some (acme_doc "A" "ua" true t0 t1)
   ∧ st_fdb (stale_phase three_items_state) !! "idb" = Some (acme_doc "B" "ub" true t0 t1))
  ∧ (rows (st_conn (stale_phase three_items_state)) !! "uc" = Some (acme_row "C" 0 t0 t0)
     ∧ rows (st_conn (stale_phase three_items_state)) !! "ua" = Some (acme_row "A" 1 t0 t1)
     ∧ rows (st_conn (stale_phase three_items_state)) !! "ub" = Some (acme_row "B" 1 t0 t1)).
Proof.
  apply (C3_staleness_marks_only_absent three_items_state "Acme"
           "ida" "idb" "idc" "ua" "ub" "uc"
           (acme_doc "A" "ua" true t0 t1) (acme_doc "B" "ub" true t0 t1)
           (acme_doc "C" "uc" true t0 t0)
           (acme_row "A" 1 t0 t1) (acme_row "B" 1 t0 t1) (acme_row "C" 1 t0 t0));
    first [ reflexivity | discriminate | by apply bool_decide_unpack; vm_compute ].
Defined.

(** ** A failing remote write *)

(** C5: when the remote write of an item raises, the turn of the loop
    changes nothing: the local mirror is not written, the item is not
    appended to the new items, its identifier and URL are not added to
    the seen-sets; and the loop goes on with the items that follow, as
    if the item had not been listed. *)
Theorem C5_remote_failure_skips_item (existing : gmap string string)
    (it : Product * ItemEnv) :
  firestore_raises it.2 = true →
  (∀ st, item_step existing st it = st)
  ∧ (∀ st rest, foldl (item_step existing) st (it :: rest)
                = foldl (item_step existing) st rest)
  ∧ (∀ st cfg before after,
       roaster_step existing st (cfg, Parsed (before ++ it :: after))
       = roaster_step existing st (cfg, Parsed (before ++ after))).
Proof.
  intros Hraise.
  assert (∀ st, item_step existing st it = st) as Hskip.
  { intros st. unfold item_step, upsert_firestore. by rewrite Hraise. }
  split; [exact Hskip |]. split.
  - intros st rest. cbn [foldl]. by rewrite Hskip.
  - intros st cfg before after. unfold roaster_step. cbn [snd fst].
    rewrite !foldl_app. cbn [foldl]. by rewrite Hskip.
Qed.

Lemma C5_remote_failure_skips_item_witness :
  item_step ∅ three_items_state failing_item = three_items_state
  ∧ roaster_step ∅ three_items_state
      (acme_cfg, Parsed ([good_item "A" day1] ++ failing_item :: [good_item "B" day1]))
    = roaster_step ∅ three_items_state
        (acme_cfg, Parsed ([good_item "A" day1] ++ [good_item "B" day1])).
Proof.
  destruct (C5_remote_failure_skips_item ∅ failing_item eq_refl) as (Hskip & _ & Hrun).
  split; [apply Hskip | apply Hrun].
Defined.

(** ** [first_seen] in the local mirror *)

Lemma first_seen_kept_refl conn : first_seen_kept conn conn.
Proof. intros u r Hr. by exists r. Qed.

Lemma first_seen_kept_trans c1 c2 c3 :
  first_seen_kept c1 c2 → first_seen_kept c2 c3 → first_seen_kept c1 c3.
Proof.
  intros H12 H23 u r Hr.
  destruct (H12 u r Hr) as (r2 & Hr2 & Hf2).
  destruct (H23 u r2 Hr2) as (r3 & Hr3 & Hf3).
  exists r3. split; [done | congruence].
Qed.

Lemma ensure_row_sqlite_first_seen conn p first_seen last_seen conn' :
  ensure_row_sqlite conn p first_seen last_seen = Some conn' →
  first_seen_kept conn conn'.
Proof.
  unfold ensure_row_sqlite. intros He u r Hr.
  destruct (rows conn !! url p) as [r0|] eqn:H0;
    destruct (has_image conn); try discriminate;
    injection He as <-; cbn [rows with_rows];
    destruct (decide (url p = u)) as [Heq | Hne].
  - rewrite Heq in *. rewrite lookup_insert_eq.
    eexists. split; [reflexivity |]. simpl. congruence.
  - rewrite lookup_insert_ne by done. by exists r.
  - congruence.
  - rewrite lookup_insert_ne by done. by exists r.
Qed.

Lemma sql_update_first_seen cond set conn :
  (∀ r, row_first_seen (set r) = row_first_seen r) →
  first_seen_kept conn (with_rows conn (sql_update cond set (rows conn)).1).
Proof.
  intros Hset u r Hr. cbn [rows with_rows]. rewrite sql_update_lookup, Hr. simpl.
  eexists. split; [reflexivity |]. by destruct (cond u r).
Qed.

Lemma mark_stale_sqlite_first_seen conn seen :
  first_seen_kept conn (mark_stale_sqlite conn seen).1.
Proof.
  intros u r Hr. rewrite mark_stale_sqlite_lookup, Hr. simpl.
  eexists. split; [reflexivity |]. by destruct (stale_row seen u r).
Qed.

Lemma db_connect_first_seen file : first_seen_kept file (db_connect file).
Proof.
  unfold db_connect. destruct (has_price_text file); [| apply first_seen_kept_refl].
  by apply sql_update_first_seen.
Qed.

Lemma mirror_write_first_seen conn w : first_seen_kept conn (mirror_write conn w).
Proof.
  destruct w as [p f l | seen | u v | |]; cbn [mirror_write].
  - destruct (ensure_row_sqlite conn p f l) as [conn'|] eqn:He;
      [by eapply ensure_row_sqlite_first_seen | apply first_seen_kept_refl].
  - apply mark_stale_sqlite_first_seen.
  - intros u' r Hr. unfold set_tried. cbn [rows with_rows].
    rewrite lookup_alter. destruct (decide (u = u')) as [-> | Hne].
    + rewrite Hr. by eexists.
    + by exists r.
  - by apply sql_update_first_seen.
  - apply db_connect_first_seen.
Qed.

(** C2, as stated, fails: the upsert of the sync overwrites the stored
    [first_seen] of a row that is already there. *)
Lemma C2_sync_overwrites_first_seen :
  row_first_seen <$> rows stored_mirror !! "ua" = Some t0
  ∧ row_first_seen
      <$> rows (ensure_row_sqlite_from_doc stored_mirror (acme_doc "A" "ua" true t1 t2))
          !! "ua"
    = Some t1
  ∧ t1 ≠ t0.
Proof. split; [reflexivity | split; [reflexivity | discriminate]]. Qed.

(** C2, amended: the stored [first_seen] of a row that is already in the
    local mirror is not changed by any sequence of upserts through
    [ensure_row_sqlite], whatever [first_seen] the caller passes, nor by
    the staleness pass, the [tried] updates or the migration; the upsert
    of the sync, [ensure_row_sqlite_from_doc], sets it to the
    [first_seen] of the document. *)
Theorem C2_first_seen_fixed_by_engine (conn : Mirror) (u : string) (r : Row) :
  rows conn !! u = Some r →
  (∀ ws : list MirrorWrite,
     ∃ r', rows (foldl mirror_write conn ws) !! u = Some r'
           ∧ row_first_seen r' = row_first_seen r)
  ∧ (∀ p first_seen last_seen conn',
       url p = u → ensure_row_sqlite conn p first_seen last_seen = Some conn' →
       ∃ r', rows conn' !! u = Some r' ∧ row_first_seen r' = row_first_seen r
             ∧ row_last_seen r' = last_seen)
  ∧ (∀ data, doc_url data = u →
       ∃ r', rows (ensure_row_sqlite_from_doc conn data) !! u = Some r'
             ∧ row_first_seen r' = doc_first_seen data).
Proof.
  intros Hr. split; [| split].
  - intros ws. revert conn r Hr. induction ws as [|w ws IH]; intros conn r Hr.
    + by exists r.
    + cbn [foldl]. destruct (mirror_write_first_seen conn w u r Hr) as (r1 & Hr1 & Hf1).
      destruct (IH _ _ Hr1) as (r' & Hr' & Hf'). exists r'. split; [done | congruence].
  - intros p f l conn' Hu He. unfold ensure_row_sqlite in He.
    rewrite Hu, Hr in He. destruct (has_image conn); [| discriminate].
    injection He as <-. cbn [rows with_rows]. rewrite lookup_insert_eq.
    eexists. split; [reflexivity |]. by split.
  - intros data Hu. unfold ensure_row_sqlite_from_doc. rewrite Hu, Hr.
    cbn [rows with_rows]. rewrite lookup_insert_eq. by eexists.
Qed.

(** The row "ua", stored at [t0], is upserted again by the engine under
    the same URL with the [first_seen] [t1]: it keeps [t0]. *)
Lemma C2_first_seen_fixed_by_engine_witness :
  (∃ r', rows (foldl mirror_write stored_mirror
                 [WConnect; WEnsureRow (acme_ua "$17.00") t1 t2;
                  WMarkStale {[ "Acme" := ∅ ]}; WSetTried "ua" 1]) !! "ua" = Some r'
         ∧ row_first_seen r' = t0)
  ∧ (∃ r', rows (default stored_mirror
                   (ensure_row_sqlite stored_mirror (acme_ua "$17.00") t1 t2)) !! "ua"
           = Some r'
           ∧ row_first_seen r' = t0 ∧ row_last_seen r' = t2)
  ∧ t1 ≠ t0.
Proof.
  destruct (C2_first_seen_fixed_by_engine stored_mirror "ua" (acme_row "A" 1 t0 t0)
              eq_refl) as (Hws & Hupsert & _).
  split; [| split; [| discriminate]].
  - apply (Hws [WConnect; WEnsureRow (acme_ua "$17.00") t1 t2;
                WMarkStale {[ "Acme" := ∅ ]}; WSetTried "ua" 1]).
  - apply (Hupsert (acme_ua "$17.00") t1 t2
             (default stored_mirror
                (ensure_row_sqlite stored_mirror (acme_ua "$17.00") t1 t2)));
      reflexivity.
Defined.

(** ** A source that lists nothing *)

(** C1 fails on the code: after a run in which "Acme" is fetched and
    parsed to an empty list, the row of "Acme" that was stored before is
    still in stock.  The roaster never becomes a key of the seen-maps, so
    [mark_stale_sqlite] is not run for it; run for it with the empty set,
    it marks the row. *)
Theorem C1_empty_listing_marks_nothing :
  let res := run_once fdb_before mirror_before [(acme_cfg, Parsed [])] in
  rows (run_conn res) !! "https://acme.example/products/A" = Some (acme_row "A" 1 t0 t1)
  ∧ run_fdb res = fdb_before
  ∧ rows (mark_stale_sqlite mirror_before {[ "Acme" := ∅ ]}).1
      !! "https://acme.example/products/A"
    = Some (acme_row "A" 0 t0 t1).
Proof. vm_compute. repeat split; reflexivity. Qed.

(** ** The loop of a run, item by item *)

Lemma enrich_url p d : url (enrich p d) = url p.
Proof. reflexivity. Qed.

Lemma enrich_id p d : Product_id (enrich p d) = Product_id p.
Proof. reflexivity. Qed.

Lemma ensure_row_sqlite_image conn p first_seen last_seen :
  ensure_row_sqlite conn p first_seen last_seen = None ↔ has_image conn = false.
Proof.
  unfold ensure_row_sqlite.
  destruct (rows conn !! url p); destruct (has_image conn); split; congruence.
Qed.

Lemma ensure_row_sqlite_frame conn p first_seen last_seen conn' :
  ensure_row_sqlite conn p first_seen last_seen = Some conn' →
  has_image conn' = has_image conn
  ∧ (∃ r, rows conn' !! url p = Some r ∧ row_last_seen r = last_seen)
  ∧ ∀ u, u ≠ url p → rows conn' !! u = rows conn !! u.
Proof.
  unfold ensure_row_sqlite. intros He.
  destruct (rows conn !! url p); destruct (has_image conn) eqn:Himg; try discriminate;
    injection He as <-; cbn [rows with_rows has_image];
    (split; [by rewrite Himg |]); (split; [rewrite lookup_insert_eq; by eexists |]);
    intros u Hu; by rewrite lookup_insert_ne.
Qed.

(** The remote store after one turn. *)
Lemma item_step_fdb existing st it :
  st_fdb (item_step existing st it)
  = if firestore_raises it.2 then st_fdb st
    else <[Product_id it.1 :=
             doc_of_product (enrich it.1 (details it.2))
               (first_seen_of existing (Product_id it.1) (now it.2)) (now it.2)]>
           (st_fdb st).
Proof.
  unfold item_step, upsert_firestore. rewrite enrich_id.
  destruct (firestore_raises it.2); [reflexivity |].
  by destruct (ensure_row_sqlite _ _ _ _).
Qed.

(** The local mirror after one turn. *)
Lemma item_step_conn existing st it :
  st_conn (item_step existing st it)
  = if firestore_raises it.2 then st_conn st
    else default (st_conn st)
           (ensure_row_sqlite (st_conn st) (enrich it.1 (details it.2))
              (first_seen_of existing (Product_id it.1) (now it.2)) (now it.2)).
Proof.
  unfold item_step, upsert_firestore. rewrite enrich_id.
  destruct (firestore_raises it.2); [reflexivity |].
  by destruct (ensure_row_sqlite _ _ _ _).
Qed.

Lemma item_step_succeeded existing st it :
  st_succeeded (item_step existing st it) = st_succeeded st.
Proof.
  unfold item_step, upsert_firestore.
  destruct (firestore_raises it.2); [reflexivity |].
  by destruct (ensure_row_sqlite _ _ _ _).
Qed.

(** An item whose identifier is in the index is not appended. *)
Lemma item_step_known existing st it :
  is_Some (existing !! Product_id it.1) →
  st_new_items (item_step existing st it) = st_new_items st.
Proof.
  intros [v Hv]. unfold item_step, upsert_firestore. rewrite enrich_id.
  destruct (firestore_raises it.2); [reflexivity |].
  destruct (ensure_row_sqlite _ _ _ _); [| reflexivity].
  cbn [st_new_items]. rewrite bool_decide_eq_false_2; [done | congruence].
Qed.

Lemma item_step_with_succeeded existing s st it :
  item_step existing (with_succeeded s st) it
  = with_succeeded s (item_step existing st it).
Proof.
  unfold item_step, upsert_firestore, with_succeeded. cbn.
  destruct (firestore_raises it.2); [reflexivity |].
  by destruct (ensure_row_sqlite _ _ _ _).
Qed.

Lemma foldl_item_step_with_succeeded existing s items st :
  foldl (item_step existing) (with_succeeded s st) items
  = with_succeeded s (foldl (item_step existing) st items).
Proof.
  revert st. induction items as [|it items IH]; intros st; [reflexivity |].
  cbn [foldl]. by rewrite item_step_with_succeeded, IH.
Qed.

(** The loop over the roasters is the loop over all listed items, with
    the set of succeeded roasters kept on the side. *)
Lemma foldl_roaster_step existing roasters st :
  foldl (roaster_step existing) st roasters
  = with_succeeded (st_succeeded st ∪ succeeded_names roasters)
      (foldl (item_step existing) st (listed_items roasters)).
Proof.
  revert st. induction roasters as [|[cfg listing] roasters IH]; intros st.
  - unfold succeeded_names, with_succeeded. cbn.
    rewrite (right_id_L ∅ (∪)). by destruct st.
  - cbn [foldl]. rewrite IH. unfold roaster_step, listed_items, succeeded_names.
    cbn [fst snd flat_map]. destruct listing as [|items].
    + reflexivity.
    + fold (with_succeeded (st_succeeded st ∪ {[name cfg]}) st).
      rewrite foldl_item_step_with_succeeded, foldl_app.
      rewrite foldl_item_step_with_succeeded.
      unfold with_succeeded at 1 2. cbn [st_succeeded].
      unfold with_succeeded. cbn. f_equal.
      by rewrite (assoc_L (∪)).
Qed.

Lemma scrape_phase_items fdb file roasters :
  scrape_phase fdb file roasters
  = with_succeeded (succeeded_names roasters)
      (foldl (item_step (load_firestore_index fdb)) (run_start fdb file)
             (listed_items roasters)).
Proof.
  unfold scrape_phase. rewrite foldl_roaster_step. cbn [st_succeeded].
  by rewrite (left_id_L ∅ (∪)).
Qed.

Lemma elem_of_succeeded_names r roasters :
  r ∈ succeeded_names roasters
  ↔ ∃ src items, src ∈ roasters ∧ name src.1 = r ∧ src.2 = Parsed items.
Proof.
  unfold succeeded_names. rewrite elem_of_list_to_set, list_elem_of_In, in_flat_map.
  split.
  - intros ([cfg listing] & Hin & Hr). apply list_elem_of_In in Hin.
    destruct listing as [|items]; simpl in Hr; [done |].
    destruct Hr as [Hr | []]. by exists (cfg, Parsed items), items.
  - intros (src & items & Hin & Hr & Hl). exists src. split.
    + by apply list_elem_of_In.
    + rewrite Hl. by left.
Qed.

(** A turn of the loop writes one document and one row: every other
    document and row stays as it is. *)
Lemma item_step_fdb_frame existing st it doc_id :
  doc_id ≠ Product_id it.1 →
  st_fdb (item_step existing st it) !! doc_id = st_fdb st !! doc_id.
Proof.
  intros Hne. rewrite item_step_fdb.
  destruct (firestore_raises it.2); [reflexivity |]. by rewrite lookup_insert_ne.
Qed.

Lemma item_step_rows_frame existing st it u :
  u ≠ url it.1 →
  rows (st_conn (item_step existing st it)) !! u = rows (st_conn st) !! u.
Proof.
  intros Hne. rewrite item_step_conn.
  destruct (firestore_raises it.2); [reflexivity |].
  destruct (ensure_row_sqlite _ _ _ _) as [conn'|] eqn:He; [| reflexivity].
  apply ensure_row_sqlite_frame in He as (_ & _ & Hframe). by apply Hframe.
Qed.

Lemma foldl_item_step_fdb_frame existing items st doc_id :
  doc_id ∉ (fun it => Product_id it.1) <$> items →
  st_fdb (foldl (item_step existing) st items) !! doc_id = st_fdb st !! doc_id.
Proof.
  revert st. induction items as [|it items IH]; intros st Hnot; [reflexivity |].
  cbn [foldl]. rewrite fmap_cons in Hnot. apply not_elem_of_cons in Hnot as [Hne Hnot].
  rewrite IH by done. by apply item_step_fdb_frame.
Qed.

Lemma foldl_item_step_rows_frame existing items st u :
  u ∉ (fun it => url it.1) <$> items →
  rows (st_conn (foldl (item_step existing) st items)) !! u = rows (st_conn st) !! u.
Proof.
  revert st. induction items as [|it items IH]; intros st Hnot; [reflexivity |].
  cbn [foldl]. rewrite fmap_cons in Hnot. apply not_elem_of_cons in Hnot as [Hne Hnot].
  rewrite IH by done. by apply item_step_rows_frame.
Qed.

(** ** A source whose fetch raises *)

(** C4, amended: when every fetch of the source [r] raises in a run,
    [r] is not a key of the maps handed to the two staleness passes, so
    that no staleness pass is run for it: the passes leave every
    document and row of [r] as the loop left them; and a record of [r]
    that was stored before the run, and whose key no item listed in the
    run carries, is after the run as it was before, in both stores (a
    row as the database was opened). *)
Theorem C4_failed_source_untouched (fdb : gmap string Doc) (file : Mirror)
    (roasters : list (RoasterConfig * Listing)) (r : string) :
  (∀ src, src ∈ roasters → name src.1 = r → src.2 = FetchRaised) →
  let st := scrape_phase fdb file roasters in
  let res := run_once fdb file roasters in
  (filter_succeeded (st_succeeded st) (st_seen_ids st) !! r = None
   ∧ filter_succeeded (st_succeeded st) (st_seen_urls st) !! r = None)
  ∧ (∀ doc_id d, st_fdb st !! doc_id = Some d → doc_roaster d = r →
                 run_fdb res !! doc_id = Some d)
  ∧ (∀ u row, rows (st_conn st) !! u = Some row → row_roaster row = r →
              rows (run_conn res) !! u = Some row)
  ∧ (∀ doc_id d, fdb !! doc_id = Some d → doc_roaster d = r →
                 doc_id ∉ (fun it => Product_id it.1) <$> listed_items roasters →
                 run_fdb res !! doc_id = Some d)
  ∧ (∀ u row, rows (db_connect file) !! u = Some row → row_roaster row = r →
              u ∉ (fun it => url it.1) <$> listed_items roasters →
              rows (run_conn res) !! u = Some row).
Proof.
  intros Hfail. cbv zeta.
  assert (r ∉ st_succeeded (scrape_phase fdb file roasters)) as Hnot.
  { rewrite scrape_phase_items. cbn [with_succeeded st_succeeded].
    rewrite elem_of_succeeded_names. intros (src & items & Hin & Hr & Hl).
    rewrite (Hfail src Hin Hr) in Hl. discriminate. }
  assert (∀ seen, filter_succeeded (st_succeeded (scrape_phase fdb file roasters)) seen
                  !! r = None) as Hkey.
  { intros seen. rewrite filter_succeeded_lookup. by rewrite bool_decide_eq_false_2. }
  assert (∀ doc_id d, st_fdb (scrape_phase fdb file roasters) !! doc_id = Some d →
            doc_roaster d = r →
            run_fdb (run_once fdb file roasters) !! doc_id = Some d) as Hdocs.
  { intros doc_id d Hd Hr. unfold run_once. cbn [run_fdb].
    rewrite stale_phase_fdb_lookup, Hd. cbn. unfold stale_doc. by rewrite Hr, Hkey. }
  assert (∀ u row, rows (st_conn (scrape_phase fdb file roasters)) !! u = Some row →
            row_roaster row = r →
            rows (run_conn (run_once fdb file roasters)) !! u = Some row) as Hrows.
  { intros u row Hu Hr. unfold run_once. cbn [run_conn].
    rewrite stale_phase_rows_lookup, Hu. cbn. unfold stale_row. by rewrite Hr, Hkey. }
  split; [by split |]. split; [exact Hdocs |]. split; [exact Hrows |]. split.
  - intros doc_id d Hd Hr Hfresh. apply Hdocs; [| done].
    rewrite scrape_phase_items. cbn [with_succeeded st_fdb].
    by rewrite foldl_item_step_fdb_frame.
  - intros u row Hu Hr Hfresh. apply Hrows; [| done].
    rewrite scrape_phase_items. cbn [with_succeeded st_conn].
    by rewrite foldl_item_step_rows_frame.
Qed.

Lemma C4_failed_source_untouched_witness :
  run_fdb (run_once fdb_before mirror_before failed_source_run)
    !! product_id_from_url "https://acme.example/products/A"
  = Some (acme_doc "A" "https://acme.example/products/A" true t0 t1)
  ∧ rows (run_conn (run_once fdb_before mirror_before failed_source_run))
      !! "https://acme.example/products/A"
    = Some (acme_row "A" 1 t0 t1).
Proof.
  assert (∀ src, src ∈ failed_source_run → name src.1 = "Acme" → src.2 = FetchRaised)
    as Hfail.
  { intros src Hin Hn. unfold failed_source_run in Hin.
    apply elem_of_cons in Hin as [-> | Hin]; [reflexivity |].
    apply list_elem_of_singleton in Hin as ->. discriminate Hn. }
  destruct (C4_failed_source_untouched fdb_before mirror_before failed_source_run
              "Acme" Hfail) as (_ & _ & _ & Hdocs & Hrows).
  split.
  - apply Hdocs; [reflexivity | reflexivity | compute_done].
  - apply Hrows; [reflexivity | reflexivity | compute_done].
Defined.

(** C4, as stated, fails: the fetch of "Acme" raises, but "Zed" lists the
    URL of the stored item of "Acme", and the loop of the run rewrites
    the record of "Acme" in both stores, [in_stock] included. *)
Lemma C4_cross_listed_record_rewritten :
  let res := run_once fdb_before mirror_before cross_listed_run in
  let doc_id := product_id_from_url "https://acme.example/products/A" in
  (∀ src, src ∈ cross_listed_run → name src.1 = "Acme" → src.2 = FetchRaised)
  ∧ (fun d => (doc_roaster d, doc_in_stock d, doc_last_seen d)) <$> fdb_before !! doc_id
    = Some ("Acme", true, t1)
  ∧ (fun d => (doc_roaster d, doc_in_stock d, doc_last_seen d)) <$> run_fdb res !! doc_id
    = Some ("Zed", false, t2)
  ∧ (fun r => (row_roaster r, row_in_stock r, row_last_seen r))
      <$> rows (db_connect mirror_before) !! "https://acme.example/products/A"
    = Some ("Acme", 1%Z, t1)
  ∧ (fun r => (row_roaster r, row_in_stock r, row_last_seen r))
      <$> rows (run_conn res) !! "https://acme.example/products/A"
    = Some ("Acme", 0%Z, t2).
Proof.
  cbv zeta. split.
  - intros src Hin Hn. unfold cross_listed_run in Hin.
    apply elem_of_cons in Hin as [-> | Hin]; [reflexivity |].
    apply list_elem_of_singleton in Hin as ->. discriminate Hn.
  - vm_compute. repeat split; reflexivity.
Qed.

(** ** Running twice on the same scraped input *)

Lemma append_nonempty (s1 s2 : string) : s2 ≠ "" → s1 +:+ s2 ≠ "".
Proof. intros Hne. destruct s1; [exact Hne | discriminate]. Qed.

(** A timestamp is never the empty string. *)
Lemma now_nonempty (e : ItemEnv) : now e ≠ "".
Proof. unfold now, strftime_ISO. by repeat apply append_nonempty. Qed.

Lemma first_seen_of_nonempty existing pid stamp :
  stamp ≠ "" → first_seen_of existing pid stamp ≠ "".
Proof.
  intros Hs. unfold first_seen_of, str_or, nonempty.
  case_bool_decide; [done |].
  destruct (String.eqb_spec (default "" (existing !! pid)) ""); simpl; done.
Qed.

Lemma first_seen_of_known existing pid stamp f :
  existing !! pid = Some f → f ≠ "" → first_seen_of existing pid stamp = f.
Proof.
  intros Hf Hne. unfold first_seen_of, str_or, nonempty. rewrite Hf.
  rewrite bool_decide_eq_false_2 by done. simpl.
  by destruct (String.eqb_spec f "").
Qed.

(** After the loop, the document of a listed item whose write succeeded
    is the one written by the last successful turn for its identifier. *)
Lemma foldl_item_step_written existing items st it :
  it ∈ items → firestore_raises it.2 = false →
  ∃ it', it' ∈ items ∧ Product_id it'.1 = Product_id it.1
         ∧ firestore_raises it'.2 = false
         ∧ st_fdb (foldl (item_step existing) st items) !! Product_id it.1
           = Some (written_doc existing it').
Proof.
  induction items as [|x items IH] using rev_ind; [by intros ?%elem_of_nil |].
  intros Hin Hok. rewrite foldl_app. cbn [foldl]. rewrite item_step_fdb.
  destruct (firestore_raises x.2) eqn:Hx.
  - apply elem_of_app in Hin as [Hin | Hin].
    + destruct (IH Hin Hok) as (it' & Hin' & Hid & Hok' & Hd).
      exists it'. rewrite elem_of_app. auto.
    + apply list_elem_of_singleton in Hin as ->. congruence.
  - destruct (decide (Product_id x.1 = Product_id it.1)) as [Heq | Hne].
    + exists x. rewrite elem_of_app, list_elem_of_singleton.
      split; [by right |]. split; [done |]. split; [done |].
      rewrite <- Heq. by rewrite lookup_insert_eq.
    + rewrite lookup_insert_ne by done.
      apply elem_of_app in Hin as [Hin | Hin].
      * destruct (IH Hin Hok) as (it' & Hin' & Hid & Hok' & Hd).
        exists it'. rewrite elem_of_app. auto.
      * apply list_elem_of_singleton in Hin as ->. done.
Qed.

Lemma item_step_has_image existing st it :
  has_image (st_conn (item_step existing st it)) = has_image (st_conn st).
Proof.
  rewrite item_step_conn. destruct (firestore_raises it.2); [reflexivity |].
  destruct (ensure_row_sqlite _ _ _ _) as [conn'|] eqn:He; [| reflexivity].
  by apply ensure_row_sqlite_frame in He as (Himg & _).
Qed.

Lemma foldl_item_step_has_image existing items st :
  has_image (st_conn (foldl (item_step existing) st items)) = has_image (st_conn st).
Proof.
  revert st. induction items as [|it items IH]; intros st; [reflexivity |].
  cbn [foldl]. by rewrite IH, item_step_has_image.
Qed.

(** The same for the rows of a mirror whose table has the column
    [image]. *)
Lemma foldl_item_step_row_written existing items st it :
  has_image (st_conn st) = true →
  it ∈ items → firestore_raises it.2 = false →
  ∃ it' row, it' ∈ items ∧ url it'.1 = url it.1 ∧ firestore_raises it'.2 = false
             ∧ rows (st_conn (foldl (item_step existing) st items)) !! url it.1 = Some row
             ∧ row_last_seen row = now it'.2.
Proof.
  intros Himg. induction items as [|x items IH] using rev_ind;
    [by intros ?%elem_of_nil |].
  intros Hin Hok. rewrite foldl_app. cbn [foldl]. rewrite item_step_conn.
  destruct (firestore_raises x.2) eqn:Hx.
  - apply elem_of_app in Hin as [Hin | Hin].
    + destruct (IH Hin Hok) as (it' & row & Hin' & Hu & Hok' & Hrow & Hl).
      exists it', row. rewrite elem_of_app. auto.
    + apply list_elem_of_singleton in Hin as ->. congruence.
  - destruct (ensure_row_sqlite _ _ _ _) as [conn'|] eqn:He.
    2:{ apply ensure_row_sqlite_image in He.
        rewrite foldl_item_step_has_image in He. congruence. }
    apply ensure_row_sqlite_frame in He as (_ & (row & Hrow & Hl) & Hframe).
    rewrite enrich_url in Hrow. cbn [default].
    destruct (decide (url x.1 = url it.1)) as [Heq | Hne].
    + exists x, row. rewrite elem_of_app, list_elem_of_singleton.
      rewrite <- Heq. auto.
    + rewrite Hframe by (rewrite enrich_url; congruence).
      apply elem_of_app in Hin as [Hin | Hin].
      * destruct (IH Hin Hok) as (it' & row' & Hin' & Hu & Hok' & Hrow' & Hl').
        exists it', row'. rewrite elem_of_app. auto.
      * apply list_elem_of_singleton in Hin as ->. done.
Qed.

(** With the index loaded from the collection, the loop does not change
    the [first_seen] of a document that was there, provided the stored
    value is not empty or no listed item has its identifier. *)
Lemma foldl_item_step_first_seen fdb0 items st doc_id d0 :
  fdb0 !! doc_id = Some d0 →
  doc_first_seen d0 ≠ "" ∨ doc_id ∉ (fun it => Product_id it.1) <$> items →
  (∃ d, st_fdb st !! doc_id = Some d ∧ doc_first_seen d = doc_first_seen d0) →
  ∃ d, st_fdb (foldl (item_step (load_firestore_index fdb0)) st items) !! doc_id = Some d
       ∧ doc_first_seen d = doc_first_seen d0.
Proof.
  intros Hd0. revert st. induction items as [|it items IH]; intros st Hcase Hst;
    [exact Hst |].
  cbn [foldl]. apply IH.
  - destruct Hcase as [Hne | Hnot]; [by left | right].
    rewrite fmap_cons in Hnot. by apply not_elem_of_cons in Hnot as [_ Hnot].
  - rewrite item_step_fdb. destruct (firestore_raises it.2); [exact Hst |].
    destruct (decide (Product_id it.1 = doc_id)) as [Heq | Hne].
    + rewrite Heq, lookup_insert_eq. eexists. split; [reflexivity |].
      cbn [doc_of_product doc_first_seen].
      apply first_seen_of_known.
      * unfold load_firestore_index. by rewrite lookup_fmap, Hd0.
      * destruct Hcase as [Hne | Hnot]; [done |].
        destruct Hnot. rewrite fmap_cons, <- Heq. apply elem_of_cons. by left.
    + by rewrite lookup_insert_ne.
Qed.

Lemma foldl_item_step_known existing items st :
  (∀ it, it ∈ items → is_Some (existing !! Product_id it.1)) →
  st_new_items (foldl (item_step existing) st items) = st_new_items st.
Proof.
  revert st. induction items as [|it items IH]; intros st Hknown; [reflexivity |].
  cbn [foldl]. rewrite IH.
  - apply item_step_known, Hknown, elem_of_cons. by left.
  - intros it' Hin. apply Hknown, elem_of_cons. by right.
Qed.

Lemma foldl_item_step_first_seen_kept existing items st :
  first_seen_kept (st_conn st) (st_conn (foldl (item_step existing) st items)).
Proof.
  revert st. induction items as [|it items IH]; intros st;
    [apply first_seen_kept_refl |].
  cbn [foldl]. eapply first_seen_kept_trans; [| apply IH].
  rewrite item_step_conn. destruct (firestore_raises it.2);
    [apply first_seen_kept_refl |].
  destruct (ensure_row_sqlite _ _ _ _) as [conn'|] eqn:He;
    [by eapply ensure_row_sqlite_first_seen | apply first_seen_kept_refl].
Qed.

Lemma stale_phase_new_items st : st_new_items (stale_phase st) = st_new_items st.
Proof. unfold stale_phase. by case_bool_decide. Qed.

Lemma stale_phase_doc st doc_id d :
  st_fdb st !! doc_id = Some d →
  ∃ d', st_fdb (stale_phase st) !! doc_id = Some d'
        ∧ doc_first_seen d' = doc_first_seen d ∧ doc_last_seen d' = doc_last_seen d.
Proof.
  intros Hd. rewrite stale_phase_fdb_lookup, Hd. cbn.
  eexists. split; [reflexivity |]. by destruct (stale_doc _ _ _).
Qed.

Lemma stale_phase_row st u r :
  rows (st_conn st) !! u = Some r →
  ∃ r', rows (st_conn (stale_phase st)) !! u = Some r'
        ∧ row_first_seen r' = row_first_seen r ∧ row_last_seen r' = row_last_seen r.
Proof.
  intros Hr. rewrite stale_phase_rows_lookup, Hr. cbn.
  eexists. split; [reflexivity |]. by destruct (stale_row _ _ _).
Qed.

Lemma stale_phase_has_image st :
  has_image (st_conn (stale_phase st)) = has_image (st_conn st).
Proof.
  unfold stale_phase. case_bool_decide; [| reflexivity]. cbn [st_conn].
  unfold mark_stale_sqlite. by destruct (foldl _ _ _).
Qed.

Lemma db_connect_has_image file : has_image (db_connect file) = has_image file.
Proof. unfold db_connect. by destruct (has_price_text file). Qed.

Lemma run_once_fdb fdb file roasters :
  run_fdb (run_once fdb file roasters)
  = st_fdb (stale_phase (with_succeeded (succeeded_names roasters)
                           (run_loop fdb file roasters))).
Proof. unfold run_once. cbn [run_fdb]. by rewrite scrape_phase_items. Qed.

Lemma run_once_conn fdb file roasters :
  run_conn (run_once fdb file roasters)
  = st_conn (stale_phase (with_succeeded (succeeded_names roasters)
                            (run_loop fdb file roasters))).
Proof. unfold run_once. cbn [run_conn]. by rewrite scrape_phase_items. Qed.

Lemma run_once_new_items fdb file roasters :
  run_new_items (run_once fdb file roasters)
  = st_new_items (run_loop fdb file roasters).
Proof.
  unfold run_once. cbn [run_new_items].
  by rewrite stale_phase_new_items, scrape_phase_items.
Qed.

Lemma run_once_has_image fdb file roasters :
  has_image (run_conn (run_once fdb file roasters)) = has_image file.
Proof.
  rewrite run_once_conn, stale_phase_has_image. cbn [with_succeeded st_conn].
  unfold run_loop. rewrite foldl_item_step_has_image. apply db_connect_has_image.
Qed.

Lemma run_once_first_seen_kept fdb file roasters :
  first_seen_kept file (run_conn (run_once fdb file roasters)).
Proof.
  rewrite run_once_conn.
  eapply first_seen_kept_trans; [apply db_connect_first_seen |].
  eapply first_seen_kept_trans;
    [apply (foldl_item_step_first_seen_kept (load_firestore_index fdb)
              (listed_items roasters) (run_start fdb file)) |].
  intros u r Hr.
  destruct (stale_phase_row (with_succeeded (succeeded_names roasters)
              (run_loop fdb file roasters)) u r Hr) as (r' & Hr' & Hf & _).
  by exists r'.
Qed.

(** After a run, the document of a listed item whose write succeeded
    carries the [first_seen] and [last_seen] of the last successful turn
    for its identifier. *)
Lemma run_once_written fdb file roasters it :
  it ∈ listed_items roasters → firestore_raises it.2 = false →
  ∃ it' d, it' ∈ listed_items roasters ∧ Product_id it'.1 = Product_id it.1
           ∧ run_fdb (run_once fdb file roasters) !! Product_id it.1 = Some d
           ∧ doc_first_seen d
             = first_seen_of (load_firestore_index fdb) (Product_id it'.1) (now it'.2)
           ∧ doc_last_seen d = now it'.2.
Proof.
  intros Hin Hok.
  destruct (foldl_item_step_written (load_firestore_index fdb) (listed_items roasters)
              (run_start fdb file) it Hin Hok) as (it' & Hin' & Hid & Hok' & Hd).
  destruct (stale_phase_doc (with_succeeded (succeeded_names roasters)
              (run_loop fdb file roasters)) _ _ Hd) as (d' & Hd' & Hf & Hl).
  exists it', d'. rewrite run_once_fdb. by repeat split.
Qed.

Lemma adapter_output_products run1 run2 :
  adapter_output run1 = adapter_output run2 →
  (fun it => it.1) <$> listed_items run1 = (fun it => it.1) <$> listed_items run2.
Proof.
  revert run2. induction run1 as [|[cfg1 l1] run1 IH]; intros [|[cfg2 l2] run2] Heq;
    try discriminate; [reflexivity |].
  unfold adapter_output in Heq. rewrite !fmap_cons in Heq.
  injection Heq as Hcfg Hl Hrest. cbn [fst snd] in *.
  unfold listed_items. cbn [flat_map fst snd]. rewrite !fmap_app.
  f_equal; [| by apply IH].
  destruct l1 as [|items1], l2 as [|items2]; try discriminate; [reflexivity |].
  injection Hl as Hl. apply (f_equal (fmap fst)) in Hl.
  by rewrite <- !list_fmap_compose in Hl.
Qed.

(** The part of C6 that holds of every database: when the engine is run
    twice in succession on the same adapter
    output, the remote writes of the first run succeeding, the second
    run has no new items and
    sends no message; every [first_seen] stored after the first run, in
    the remote store and in the local mirror, is the same after the
    second; and the [last_seen] of every item written in the second run
    is the timestamp taken for it in the second run, in the remote store
    and, when the table has the column [image] that [ensure_row_sqlite]
    writes, in the local mirror. *)
Theorem C6_second_run_idempotent (fdb : gmap string Doc) (file : Mirror)
    (run1 run2 : list (RoasterConfig * Listing)) :
  adapter_output run1 = adapter_output run2 →
  (∀ it, it ∈ listed_items run1 → firestore_raises it.2 = false) →
  let res1 := run_once fdb file run1 in
  let res2 := run_once (run_fdb res1) (run_conn res1) run2 in
  (run_new_items res2 = [] ∧ run_return res2 = 0%nat ∧ run_message res2 = None)
  ∧ (∀ doc_id d1, run_fdb res1 !! doc_id = Some d1 →
       ∃ d2, run_fdb res2 !! doc_id = Some d2
             ∧ doc_first_seen d2 = doc_first_seen d1)
  ∧ first_seen_kept (run_conn res1) (run_conn res2)
  ∧ (∀ it, it ∈ listed_items run2 → firestore_raises it.2 = false →
       ∃ it' d, it' ∈ listed_items run2 ∧ Product_id it'.1 = Product_id it.1
                ∧ run_fdb res2 !! Product_id it.1 = Some d
                ∧ doc_last_seen d = now it'.2)
  ∧ (has_image file = true →
     ∀ it, it ∈ listed_items run2 → firestore_raises it.2 = false →
       ∃ it' row, it' ∈ listed_items run2 ∧ url it'.1 = url it.1
                  ∧ rows (run_conn res2) !! url it.1 = Some row
                  ∧ row_last_seen row = now it'.2).
Proof.
  intros Hsame Hrun1. cbv zeta.
  set (res1 := run_once fdb file run1).
  (* every item of the second run has, after the first, a document with
     a first_seen that is not empty *)
  assert (∀ it2, it2 ∈ listed_items run2 →
            ∃ d1, run_fdb res1 !! Product_id it2.1 = Some d1
                  ∧ doc_first_seen d1 ≠ "") as Hknown.
  { intros it2 Hin2.
    assert (it2.1 ∈ (fun it => it.1) <$> listed_items run1) as Hin1.
    { rewrite (adapter_output_products _ _ Hsame). apply list_elem_of_fmap. by exists it2. }
    apply list_elem_of_fmap in Hin1 as (it1 & Hp & Hin1).
    pose proof (Hrun1 it1 Hin1) as Hok.
    destruct (run_once_written fdb file run1 it1 Hin1 Hok)
      as (it' & d & Hin' & Hid & Hd & Hf & _).
    exists d. rewrite Hp. split; [exact Hd |].
    rewrite Hf. apply first_seen_of_nonempty, now_nonempty. }
  assert (run_new_items (run_once (run_fdb res1) (run_conn res1) run2) = []) as Hnew.
  { rewrite run_once_new_items. unfold run_loop.
    rewrite foldl_item_step_known; [reflexivity |].
    intros it2 Hin2. destruct (Hknown it2 Hin2) as (d1 & Hd1 & _).
    unfold load_firestore_index. rewrite lookup_fmap, Hd1. by eexists. }
  split; [| split; [| split; [| split]]].
  - split; [exact Hnew |].
    unfold run_once in *. cbn [run_new_items run_return run_message] in *.
    by rewrite Hnew.
  - intros doc_id d1 Hd1.
    destruct (foldl_item_step_first_seen (run_fdb res1) (listed_items run2)
                (run_start (run_fdb res1) (run_conn res1)) doc_id d1 Hd1)
      as (d & Hd & Hf).
    + destruct (decide (doc_id ∈ (fun it => Product_id it.1) <$> listed_items run2))
        as [Hin | Hnot]; [left | by right].
      apply list_elem_of_fmap in Hin as (it2 & -> & Hin2).
      destruct (Hknown it2 Hin2) as (d1' & Hd1' & Hne). congruence.
    + by exists d1.
    + destruct (stale_phase_doc (with_succeeded (succeeded_names run2)
                  (run_loop (run_fdb res1) (run_conn res1) run2)) _ _ Hd)
        as (d2 & Hd2 & Hf2 & _).
      exists d2. rewrite run_once_fdb. split; [exact Hd2 | congruence].
  - apply run_once_first_seen_kept.
  - intros it Hin Hok.
    destruct (run_once_written (run_fdb res1) (run_conn res1) run2 it Hin Hok)
      as (it' & d & Hin' & Hid & Hd & _ & Hl).
    by exists it', d.
  - intros Himg it Hin Hok.
    destruct (foldl_item_step_row_written (load_firestore_index (run_fdb res1))
                (listed_items run2) (run_start (run_fdb res1) (run_conn res1)) it)
      as (it' & row & Hin' & Hu & _ & Hrow & Hl); [| done | done |].
    { cbn [run_start st_conn]. rewrite db_connect_has_image.
      unfold res1. by rewrite run_once_has_image. }
    destruct (stale_phase_row (with_succeeded (succeeded_names run2)
                (run_loop (run_fdb res1) (run_conn res1) run2)) _ _ Hrow)
      as (row' & Hrow' & _ & Hl').
    exists it', row'. rewrite run_once_conn. split; [done |]. split; [done |].
    split; [exact Hrow' | congruence].
Qed.

Lemma C6_second_run_idempotent_witness :
  let res1 := run_once ∅ image_db first_run in
  let res2 := run_once (run_fdb res1) (run_conn res1) second_run in
  (run_new_items res2 = [] ∧ run_return res2 = 0%nat ∧ run_message res2 = None)
  ∧ first_seen_kept (run_conn res1) (run_conn res2).
Proof.
  assert (∀ it, it ∈ listed_items first_run → firestore_raises it.2 = false) as Hrun1.
  { intros it Hin. unfold first_run, listed_items in Hin. cbn in Hin.
    apply elem_of_cons in Hin as [-> | Hin]; [reflexivity |].
    by apply list_elem_of_singleton in Hin as ->. }
  destruct (C6_second_run_idempotent ∅ image_db first_run second_run eq_refl Hrun1)
    as (Hnew & _ & Hkept & _).
  by split.
Defined.

(** The two runs of the witness, evaluated: two new items, then none;
    [first_seen] stays at the first run's timestamp and [last_seen] moves
    to the second's, in both stores. *)
Example two_runs_evaluated :
  let res1 := run_once ∅ image_db first_run in
  let res2 := run_once (run_fdb res1) (run_conn res1) second_run in
  run_return res1 = 2%nat ∧ run_return res2 = 0%nat
  ∧ (fun d => (doc_first_seen d, doc_last_seen d))
      <$> run_fdb res2 !! product_id_from_url "https://acme.example/products/A"
    = Some (t1, t2)
  ∧ (fun r => (row_first_seen r, row_last_seen r))
      <$> rows (run_conn res2) !! "https://acme.example/products/A"
    = Some (t1, t2).
Proof. vm_compute. repeat split; reflexivity. Qed.

(** On the table [SCHEMA] creates, which has no column [image], every
    upsert of [ensure_row_sqlite] raises: the run writes the remote store
    only, reports no new item and marks nothing stale. *)
Example run_on_fresh_db :
  let res := run_once ∅ fresh_db first_run in
  ensure_row_sqlite fresh_db (acme "A" "$16.00") t1 t1 = None
  ∧ run_return res = 0%nat ∧ rows (run_conn res) = ∅ ∧ size (run_fdb res) = 2%nat.
Proof. vm_compute. repeat split; reflexivity. Qed.

(** C6 fails on the code, for the local mirror: on the table the program
    itself creates, which has no column [image], every local upsert of a
    run raises.  Two runs on the same adapter output, at [t1] and [t2],
    on the stores holding the item A stored and mirrored at [t0]: the
    second run has no new item and the remote store has [first_seen] at
    [t0] and [last_seen] at [t2], but the row of A still has the
    [last_seen] [t0], and B, listed twice, has no row at all and was
    never reported as new. *)
Theorem C6_local_last_seen_not_advanced :
  let res1 := run_once fdb_synced synced_db first_run in
  let res2 := run_once (run_fdb res1) (run_conn res1) second_run in
  (has_image (db_connect fresh_db) = false ∧ has_image synced_db = false
   ∧ adapter_output first_run = adapter_output second_run)
  ∧ (run_new_items res2 = []
     ∧ (fun d => (doc_first_seen d, doc_last_seen d))
         <$> run_fdb res2 !! product_id_from_url "https://acme.example/products/A"
       = Some (t0, t2))
  ∧ (fun r => (row_first_seen r, row_last_seen r))
      <$> rows (run_conn res2) !! "https://acme.example/products/A"
    = Some (t0, t0)
  ∧ t0 ≠ t2
  ∧ (run_return res1 = 0%nat
     ∧ (fun d => (doc_first_seen d, doc_last_seen d))
         <$> run_fdb res2 !! product_id_from_url "https://acme.example/products/B"
       = Some (t1, t2)
     ∧ rows (run_conn res2) !! "https://acme.example/products/B" = None).
Proof. vm_compute. repeat split; (reflexivity || discriminate). Qed.

(** ** A roaster none of whose items is written *)

Lemma item_step_seen_urls_none existing st it r :
  roaster it.1 ≠ r → st_seen_urls st !! r = None →
  st_seen_urls (item_step existing st it) !! r = None.
Proof.
  intros Hne Hnone. unfold item_step, upsert_firestore.
  destruct (firestore_raises it.2); [exact Hnone |].
  destruct (ensure_row_sqlite _ _ _ _); [| exact Hnone].
  cbn [st_seen_urls]. unfold dd_add. by rewrite lookup_insert_ne.
Qed.

Lemma foldl_item_step_seen_urls_none existing items st r :
  (∀ it, it ∈ items → roaster it.1 ≠ r) → st_seen_urls st !! r = None →
  st_seen_urls (foldl (item_step existing) st items) !! r = None.
Proof.
  revert st. induction items as [|it items IH]; intros st Hall Hnone; [exact Hnone |].
  cbn [foldl]. apply IH.
  - intros it' Hin. apply Hall, elem_of_cons. by right.
  - apply item_step_seen_urls_none; [| exact Hnone]. apply Hall, elem_of_cons. by left.
Qed.

(** Whatever the outcome of its fetch, a roaster none of whose items is
    listed in a run (in particular one whose listing parses to the empty
    list) keeps all its rows as the loop left them: the staleness pass
    of the local mirror is not run for it. *)
Lemma run_once_unlisted_roaster_rows fdb file roasters r u row :
  (∀ it, it ∈ listed_items roasters → roaster it.1 ≠ r) →
  rows (st_conn (scrape_phase fdb file roasters)) !! u = Some row →
  row_roaster row = r →
  rows (run_conn (run_once fdb file roasters)) !! u = Some row.
Proof.
  intros Hall Hrow Hr. unfold run_once. cbn [run_conn].
  rewrite stale_phase_rows_lookup, Hrow. cbn. unfold stale_row.
  rewrite filter_succeeded_lookup, Hr.
  assert (st_seen_urls (scrape_phase fdb file roasters) !! r = None) as ->.
  { rewrite scrape_phase_items. cbn [with_succeeded st_seen_urls].
    by apply foldl_item_step_seen_urls_none. }
  by case_bool_decide.
Qed.

(* ===================================================================== *)
(** * Further properties of the code *)
(* ===================================================================== *)

(** ** The format of the identifier *)

Lemma be_bytes_range (w : Z) : Forall (fun b => (0 ≤ b < 256)%Z) (SHA1.be_bytes w).
Proof.
  unfold SHA1.be_bytes. cbn [List.map].
  repeat (constructor;
          [change 255%Z with (Z.ones 8); rewrite Z.land_ones by lia;
           apply Z.mod_pos_bound; lia |]).
  constructor.
Qed.

Lemma digest_range (msg : list Z) :
  Forall (fun b => (0 ≤ b < 256)%Z) (SHA1.digest msg).
Proof.
  unfold SHA1.digest. destruct (SHA1.hash msg).
  repeat (apply Forall_app; split); apply be_bytes_range.
Qed.

Lemma hex_digit_lowercase (x : Z) :
  (0 ≤ x < 16)%Z →
  SHA1.hex_digit x ∈ String.list_ascii_of_string "0123456789abcdef".
Proof.
  intros Hx.
  assert (x ∈ Z.of_nat <$> seq 0 16) as Hin.
  { apply list_elem_of_fmap. exists (Z.to_nat x). split; [lia |].
    apply elem_of_seq. lia. }
  cbn in Hin. repeat (apply elem_of_cons in Hin as [-> | Hin]; [compute_done |]).
  by apply elem_of_nil in Hin.
Qed.

Lemma hex_byte_lowercase (b : Z) :
  (0 ≤ b < 256)%Z →
  Forall (fun c => c ∈ String.list_ascii_of_string "0123456789abcdef")
         (SHA1.hex_byte b).
Proof.
  intros Hb. unfold SHA1.hex_byte.
  constructor; [| constructor; [| constructor]]; apply hex_digit_lowercase.
  - rewrite Z.shiftr_div_pow2 by lia. change (2 ^ 4)%Z with 16%Z.
    split; [apply Z.div_pos; lia | apply Z.div_lt_upper_bound; lia].
  - change 15%Z with (Z.ones 4). rewrite Z.land_ones by lia.
    apply Z.mod_pos_bound. lia.
Qed.

(** The identifier of every URL is a string of exactly sixteen lowercase
    hexadecimal digits. *)
Theorem product_id_sixteen_hex_digits (u : string) :
  String.length (product_id_from_url u) = 16
  ∧ Forall (fun c => c ∈ String.list_ascii_of_string "0123456789abcdef")
           (String.list_ascii_of_string (product_id_from_url u)).
Proof.
  split; [apply product_id_from_url_length |].
  unfold product_id_from_url, str_prefix, SHA1.hexdigest.
  rewrite substring_of_list, String.list_ascii_of_string_of_list_ascii.
  apply Forall_take.
  pose proof (digest_range (encode_utf8 u)) as Hr.
  induction Hr as [|b bs Hb Hbs IH]; cbn [flat_map]; [constructor |].
  apply Forall_app. split; [by apply hex_byte_lowercase | exact IH].
Qed.

(** ** The size and the shape of a notification *)

(** [_truncate_lines] returns at most [max_lines + 1] lines, the first
    [max_lines] of which are those of the input; a list that is not
    longer than [max_lines] is returned as it is. *)
Lemma truncate_lines_bounds (lines : list string) (max_lines : nat) :
  (length (_truncate_lines lines max_lines) ≤ max_lines + 1)%nat
  ∧ take max_lines (_truncate_lines lines max_lines) = take max_lines lines
  ∧ ((length lines ≤ max_lines)%nat → _truncate_lines lines max_lines = lines).
Proof.
  rewrite _truncate_lines_spec.
  destruct (Nat.ltb_spec max_lines (length lines)) as [Hlt | Hge].
  - split; [| split].
    + rewrite length_app, length_take. simpl. lia.
    + rewrite take_app_le by (rewrite length_take; lia).
      by rewrite take_take, Nat.min_id.
    + lia.
  - rewrite app_nil_r. split; [| split].
    + rewrite length_take. lia.
    + by rewrite take_take, Nat.min_id.
    + intros _. by apply take_ge.
Qed.

(** Whatever the new items, the body of the notification has at most
    nine lines. *)
Theorem build_ntfy_message_body_size (new_items : list (Product * string)) :
  (length (build_ntfy_message new_items).1.2 ≤ 9)%nat.
Proof.
  unfold build_ntfy_message.
  destruct new_items as [|[p0 pid0] rest]; [simpl; lia |].
  destruct (length ((p0, pid0) :: rest) =? 1)%nat; [simpl; lia |].
  destruct (sorted_set _) as [|r [|r' rs]]; cbn [fst snd];
    apply (truncate_lines_bounds _ 8).
Qed.

Lemma append_assoc (a b c : string) : (a +:+ b) +:+ c = a +:+ (b +:+ c).
Proof.
  induction a as [|x a IH]; [reflexivity |].
  change (String x ((a +:+ b) +:+ c) = String x (a +:+ (b +:+ c))). by rewrite IH.
Qed.

Lemma append_empty_r (a : string) : a +:+ "" = a.
Proof.
  induction a as [|x a IH]; [reflexivity |].
  change (String x (a +:+ "") = String x a). by rewrite IH.
Qed.

(** The line of a roaster shows its first two titles and counts the rest. *)
Lemma roaster_line_shape (new_items : list (Product * string)) (r : string) :
  roaster_line new_items r
  = "• " +:+ r +:+ ": "
    +:+ join "; " ((fun it => title it.1) <$> take 2 (by_r new_items r))
    +:+ (if (2 <? length (by_r new_items r))%nat
         then "; +" +:+ str_of_nat (length (by_r new_items r) - 2) +:+ " more"
         else "").
Proof.
  unfold roaster_line. cbv zeta. rewrite length_take.
  destruct (Nat.ltb_spec 2 (length (by_r new_items r))) as [Hlt | Hge].
  - replace (length (by_r new_items r) - 2 `min` length (by_r new_items r))%nat
      with (length (by_r new_items r) - 2)%nat by lia.
    destruct (Nat.ltb_spec 0 (length (by_r new_items r) - 2)) as [_ | Hz]; [| lia].
    by rewrite !append_assoc.
  - destruct (Nat.ltb_spec 0 (length (by_r new_items r)
                              - 2 `min` length (by_r new_items r))) as [Hz | _]; [lia |].
    by rewrite ?append_assoc, append_empty_r.
Qed.

Lemma sorted_set_two (names : list string) (x y : string) :
  x ∈ names → y ∈ names → x ≠ y → (2 ≤ length (sorted_set names))%nat.
Proof.
  intros Hx Hy Hne. apply elem_of_sorted_set in Hx, Hy.
  destruct (sorted_set names) as [|a [|b l]]; simpl; [| | lia].
  - by apply elem_of_nil in Hx.
  - apply list_elem_of_singleton in Hx, Hy. congruence.
Qed.

(** New items of several sources: the title counts the items and the
    sources, and the body has, before truncation to eight lines, one line
    for each source that has a new item, the sources in strictly
    increasing order, each line showing at most two titles. *)
Theorem build_ntfy_message_multi_source (new_items : list (Product * string))
    (it1 it2 : Product * string) :
  it1 ∈ new_items → it2 ∈ new_items → roaster it1.1 ≠ roaster it2.1 →
  ∃ sources : list string,
    Sorted (fun a b => String.compare a b = Lt) sources
    ∧ (∀ r, r ∈ sources ↔ ∃ it, it ∈ new_items ∧ roaster it.1 = r)
    ∧ (build_ntfy_message new_items).1
      = ("New drops: " +:+ str_of_nat (length new_items) +:+ " coffees from "
           +:+ str_of_nat (length sources) +:+ " roasters",
         _truncate_lines (two_titles_line new_items <$> sources) 8).
Proof.
  intros H1 H2 Hne.
  exists (sorted_set ((fun it => roaster it.1) <$> new_items)).
  split; [apply sorted_set_Sorted |]. split.
  - intros r. rewrite elem_of_sorted_set, list_elem_of_fmap.
    split; intros (it & Ha & Hb); exists it; by split.
  - assert (2 ≤ length (sorted_set ((fun it => roaster it.1) <$> new_items)))%nat as Hs.
    { apply (sorted_set_two _ (roaster it1.1) (roaster it2.1)); [| | done];
        apply list_elem_of_fmap; eauto. }
    unfold build_ntfy_message.
    destruct new_items as [|[p0 pid0] rest]; [by apply elem_of_nil in H1 |].
    destruct (Nat.eqb_spec (length ((p0, pid0) :: rest)) 1) as [Hone | _].
    { destruct rest; [| simpl in Hone; lia].
      apply list_elem_of_singleton in H1, H2. congruence. }
    destruct (sorted_set _) as [|r [|r' rs]] eqn:Hss; [simpl in Hs; lia.. |].
    cbn [fst snd]. f_equal. f_equal. apply list_fmap_ext.
    intros _ r0 _. apply roaster_line_shape.
Qed.

Lemma build_ntfy_message_multi_source_witness :
  ∃ sources : list string,
    Sorted (fun a b => String.compare a b = Lt) sources
    ∧ (∀ r, r ∈ sources ↔ ∃ it, it ∈ two_sources ∧ roaster it.1 = r)
    ∧ (build_ntfy_message two_sources).1
      = ("New drops: " +:+ str_of_nat (length two_sources) +:+ " coffees from "
           +:+ str_of_nat (length sources) +:+ " roasters",
         _truncate_lines (two_titles_line two_sources <$> sources) 8).
Proof.
  apply (build_ntfy_message_multi_source two_sources
           (acme "A" "$16.00", "ida") (zed_z1, "idz")).
  - apply elem_of_cons. by left.
  - apply elem_of_cons. right. apply elem_of_cons. by left.
  - discriminate.
Defined.

(** ** The staleness passes as functions of their arguments *)

Lemma stale_doc_step_total batch_size seen_ids st d :
  (sl_total (stale_doc_step batch_size seen_ids st d)
   + sl_ops (stale_doc_step batch_size seen_ids st d)
   = sl_total st + sl_ops st + length (pending seen_ids [d]))%nat.
Proof.
  unfold stale_doc_step, pending. cbn [omap list_omap].
  destruct (bool_decide (seen_ids ≠ ∅) && bool_decide (d.1 ∈ seen_ids));
    [simpl; lia |].
  destruct (batch_size <=? S (sl_ops st))%nat; simpl; lia.
Qed.

Lemma stale_loop_total batch_size seen_ids docs st :
  (sl_total (foldl (stale_doc_step batch_size seen_ids) st docs)
   + sl_ops (foldl (stale_doc_step batch_size seen_ids) st docs)
   = sl_total st + sl_ops st + length (pending seen_ids docs))%nat.
Proof.
  revert st. induction docs as [|d docs IH]; intros st; cbn [foldl].
  - simpl. lia.
  - rewrite IH, stale_doc_step_total.
    change (d :: docs) with ([d] ++ docs). unfold pending.
    rewrite omap_app, length_app. lia.
Qed.

(** The pass over one roaster commits every queued update and counts it,
    whatever the batch size. *)
Lemma stale_roaster_step_eq batch_size db total entry :
  stale_roaster_step batch_size (db, total) entry
  = (commit (pending entry.2 (stream_roaster entry.1 db)) db,
     (total + length (pending entry.2 (stream_roaster entry.1 db)))%nat).
Proof.
  pose proof (stale_roaster_step_db batch_size db total entry) as Hdb.
  pose proof (stale_loop_total batch_size entry.2 (stream_roaster entry.1 db)
                (mkStaleLoop db [] 0 total)) as Ht.
  unfold stale_roaster_step in *. cbn [sl_total sl_ops] in Ht.
  destruct (Nat.eqb_spec (sl_ops (foldl (stale_doc_step batch_size entry.2)
              (mkStaleLoop db [] 0 total) (stream_roaster entry.1 db))) 0) as [Hz | Hnz];
    cbn [fst] in Hdb; rewrite <- Hdb; f_equal; lia.
Qed.

(** The batch size of [mark_stale_by_roaster] changes neither the
    resulting collection nor the returned count. *)
Theorem mark_stale_by_roaster_batch_size (db : gmap string Doc)
    (seen : gmap string (gset string)) (batch_size batch_size' : nat) :
  mark_stale_by_roaster db seen batch_size = mark_stale_by_roaster db seen batch_size'.
Proof.
  unfold mark_stale_by_roaster. generalize (map_to_list seen), (db, 0%nat).
  intros entries. induction entries as [|e entries IH]; intros [db0 total];
    [reflexivity |].
  cbn [foldl]. by rewrite !stale_roaster_step_eq, IH.
Qed.

Lemma mirror_eq (a b : Mirror) :
  has_price_text a = has_price_text b → has_image a = has_image b →
  rows a = rows b → a = b.
Proof. destruct a, b. simpl. by intros -> -> ->. Qed.

Lemma mark_stale_sqlite_schema conn seen :
  has_price_text (mark_stale_sqlite conn seen).1 = has_price_text conn
  ∧ has_image (mark_stale_sqlite conn seen).1 = has_image conn.
Proof. unfold mark_stale_sqlite. by destruct (foldl _ _ _). Qed.

(** The two staleness passes neither add nor remove a record: each
    rewrites exactly the records whose roaster is a key of the map and
    whose key (the id for [mark_stale_by_roaster], the URL for
    [mark_stale_sqlite]) is not in that roaster's set, and of those it
    changes [in_stock] only, to false.  The columns of the table stay as
    they are. *)
Theorem stale_passes_effect (db : gmap string Doc) (conn : Mirror)
    (seen : gmap string (gset string)) (batch_size : nat) :
  (dom (mark_stale_by_roaster db seen batch_size).1 = dom db
   ∧ ∀ doc_id d, db !! doc_id = Some d →
       (mark_stale_by_roaster db seen batch_size).1 !! doc_id
       = Some (match seen !! doc_roaster d with
               | Some ids =>
                   if bool_decide (doc_id ∈ ids) then d else doc_set_in_stock false d
               | None => d
               end))
  ∧ (has_price_text (mark_stale_sqlite conn seen).1 = has_price_text conn
     ∧ has_image (mark_stale_sqlite conn seen).1 = has_image conn)
  ∧ dom (rows (mark_stale_sqlite conn seen).1) = dom (rows conn)
  ∧ ∀ u r, rows conn !! u = Some r →
      rows (mark_stale_sqlite conn seen).1 !! u
      = Some (match seen !! row_roaster r with
              | Some urls =>
                  if bool_decide (u ∈ urls) then r else row_set_in_stock 0 r
              | None => r
              end).
Proof.
  split; [split |].
  - apply set_eq. intros doc_id.
    rewrite !elem_of_dom, mark_stale_by_roaster_lookup. apply fmap_is_Some.
  - intros doc_id d Hd. rewrite mark_stale_by_roaster_lookup, Hd. cbn.
    unfold stale_doc. destruct (seen !! doc_roaster d); [| reflexivity].
    by case_bool_decide.
  - split; [apply mark_stale_sqlite_schema |]. split.
    + apply set_eq. intros u.
      rewrite !elem_of_dom, mark_stale_sqlite_lookup. apply fmap_is_Some.
    + intros u r Hr. rewrite mark_stale_sqlite_lookup, Hr. cbn.
      unfold stale_row. destruct (seen !! row_roaster r); [| reflexivity].
      by case_bool_decide.
Qed.

(** Handed the empty set for a roaster, each pass marks every record of
    that roaster out of stock. *)
Lemma stale_passes_empty_set (db : gmap string Doc) (conn : Mirror)
    (seen : gmap string (gset string)) (r : string) (batch_size : nat) :
  seen !! r = Some ∅ →
  (∀ doc_id d, db !! doc_id = Some d → doc_roaster d = r →
     (mark_stale_by_roaster db seen batch_size).1 !! doc_id
     = Some (doc_set_in_stock false d))
  ∧ (∀ u row, rows conn !! u = Some row → row_roaster row = r →
       rows (mark_stale_sqlite conn seen).1 !! u = Some (row_set_in_stock 0 row)).
Proof.
  intros Hr. split.
  - intros doc_id d Hd Hrd. rewrite mark_stale_by_roaster_lookup, Hd. cbn.
    unfold stale_doc. by rewrite Hrd, Hr.
  - intros u row Hrow Hrr. rewrite mark_stale_sqlite_lookup, Hrow. cbn.
    unfold stale_row. by rewrite Hrr, Hr.
Qed.

(** Each pass is idempotent: run again with the same map, it leaves the
    store as the first pass left it. *)
Lemma stale_passes_idempotent (db : gmap string Doc) (conn : Mirror)
    (seen : gmap string (gset string)) (batch_size : nat) :
  (mark_stale_by_roaster (mark_stale_by_roaster db seen batch_size).1 seen batch_size).1
  = (mark_stale_by_roaster db seen batch_size).1
  ∧ (mark_stale_sqlite (mark_stale_sqlite conn seen).1 seen).1
    = (mark_stale_sqlite conn seen).1.
Proof.
  split.
  - apply map_eq. intros doc_id. rewrite !mark_stale_by_roaster_lookup.
    destruct (db !! doc_id) as [d|]; [| reflexivity]. cbn.
    destruct (stale_doc seen doc_id d) eqn:Hs; [| by rewrite Hs].
    reflexivity || (unfold stale_doc in *; cbn; by rewrite Hs).
  - apply mirror_eq.
    + by rewrite !(proj1 (mark_stale_sqlite_schema _ _)).
    + by rewrite !(proj2 (mark_stale_sqlite_schema _ _)).
    + apply map_eq. intros u. rewrite !mark_stale_sqlite_lookup.
      destruct (rows conn !! u) as [r|]; [| reflexivity]. cbn.
      destruct (stale_row seen u r) eqn:Hs; [| by rewrite Hs].
      reflexivity || (unfold stale_row in *; cbn; by rewrite Hs).
Qed.

(** ** What a run reports and what it leaves alone *)

(** The new item a turn of the loop appends, if any. *)
Lemma item_step_new_items existing st it :
  st_new_items (item_step existing st it)
  = st_new_items st
    ++ (if has_image (st_conn st) then new_item_of existing it else []).
Proof.
  unfold item_step, upsert_firestore, new_item_of. rewrite enrich_id.
  destruct (firestore_raises it.2);
    [destruct (has_image _); by rewrite app_nil_r |].
  destruct (ensure_row_sqlite _ _ _ _) as [conn'|] eqn:He.
  - assert (has_image (st_conn st) = true) as ->.
    { destruct (has_image (st_conn st)) eqn:Himg; [done |].
      eapply ensure_row_sqlite_image in Himg. rewrite Himg in He. discriminate. }
    cbn [st_new_items]. case_bool_decide; [done | by rewrite app_nil_r].
  - apply ensure_row_sqlite_image in He. rewrite He. by rewrite app_nil_r.
Qed.

Lemma foldl_item_step_new_items existing items st :
  st_new_items (foldl (item_step existing) st items)
  = st_new_items st
    ++ (if has_image (st_conn st) then flat_map (new_item_of existing) items else []).
Proof.
  revert st. induction items as [|it items IH]; intros st; cbn [foldl flat_map].
  - destruct (has_image _); by rewrite app_nil_r.
  - rewrite IH, item_step_new_items, item_step_has_image, <- app_assoc.
    by destruct (has_image (st_conn st)).
Qed.

Lemma run_once_new_items_eq fdb file roasters :
  run_new_items (run_once fdb file roasters)
  = if has_image file
    then flat_map (new_item_of (load_firestore_index fdb)) (listed_items roasters)
    else [].
Proof.
  rewrite run_once_new_items. unfold run_loop.
  rewrite foldl_item_step_new_items. cbn [run_start st_new_items st_conn app].
  by rewrite db_connect_has_image.
Qed.


Lemma row_identity_kept_refl conn : row_identity_kept conn conn.
Proof. intros u r Hr. by exists r. Qed.

Lemma row_identity_kept_trans c1 c2 c3 :
  row_identity_kept c1 c2 → row_identity_kept c2 c3 → row_identity_kept c1 c3.
Proof.
  intros H12 H23 u r Hr.
  destruct (H12 u r Hr) as (r2 & Hr2 & Ha & Hb & Hc).
  destruct (H23 u r2 Hr2) as (r3 & Hr3 & Ha' & Hb' & Hc').
  exists r3. repeat split; congruence.
Qed.

Lemma ensure_row_sqlite_identity conn p first_seen last_seen conn' :
  ensure_row_sqlite conn p first_seen last_seen = Some conn' →
  row_identity_kept conn conn'.
Proof.
  unfold ensure_row_sqlite. intros He u r Hr.
  destruct (rows conn !! url p) as [r0|] eqn:H0;
    destruct (has_image conn); try discriminate;
    injection He as <-; cbn [rows with_rows];
    destruct (decide (url p = u)) as [Heq | Hne].
  - rewrite Heq in *. rewrite lookup_insert_eq.
    eexists. split; [reflexivity |]. simpl. repeat split; congruence.
  - rewrite lookup_insert_ne by done. by exists r.
  - congruence.
  - rewrite lookup_insert_ne by done. by exists r.
Qed.

Lemma sql_update_identity cond set conn :
  (∀ r, row_roaster (set r) = row_roaster r ∧ row_first_seen (set r) = row_first_seen r
        ∧ row_tried (set r) = row_tried r) →
  row_identity_kept conn (with_rows conn (sql_update cond set (rows conn)).1).
Proof.
  intros Hset u r Hr. cbn [rows with_rows]. rewrite sql_update_lookup, Hr. simpl.
  eexists. split; [reflexivity |]. destruct (cond u r); [apply Hset | done].
Qed.

Lemma db_connect_identity file : row_identity_kept file (db_connect file).
Proof.
  unfold db_connect. destruct (has_price_text file);
    [| apply row_identity_kept_refl].
  by apply (sql_update_identity (fun _ _ => true)
              (fun r => row_set_price (coalesce_price r) r)).
Qed.

Lemma foldl_item_step_identity existing items st :
  row_identity_kept (st_conn st) (st_conn (foldl (item_step existing) st items)).
Proof.
  revert st. induction items as [|it items IH]; intros st;
    [apply row_identity_kept_refl |].
  cbn [foldl]. eapply row_identity_kept_trans; [| apply IH].
  rewrite item_step_conn. destruct (firestore_raises it.2);
    [apply row_identity_kept_refl |].
  destruct (ensure_row_sqlite _ _ _ _) as [conn'|] eqn:He;
    [by eapply ensure_row_sqlite_identity | apply row_identity_kept_refl].
Qed.

Lemma foldl_item_step_fdb_mono existing items st doc_id :
  is_Some (st_fdb st !! doc_id) →
  is_Some (st_fdb (foldl (item_step existing) st items) !! doc_id).
Proof.
  revert st. induction items as [|it items IH]; intros st Hs; [exact Hs |].
  cbn [foldl]. apply IH. rewrite item_step_fdb.
  destruct (firestore_raises it.2); [exact Hs |].
  rewrite lookup_insert. by case_decide.
Qed.

(** A run deletes nothing: every document stored before the run is still
    stored after it, and every row of the local mirror is still there
    with the [roaster], the [first_seen] and the [tried] flag it had. *)
Theorem run_once_deletes_nothing (fdb : gmap string Doc) (file : Mirror)
    (roasters : list (RoasterConfig * Listing)) :
  dom fdb ⊆ dom (run_fdb (run_once fdb file roasters))
  ∧ row_identity_kept file (run_conn (run_once fdb file roasters)).
Proof.
  split.
  - intros doc_id. rewrite !elem_of_dom. intros Hs.
    rewrite run_once_fdb, stale_phase_fdb_lookup. apply fmap_is_Some.
    cbn [with_succeeded st_fdb]. by apply foldl_item_step_fdb_mono.
  - rewrite run_once_conn.
    eapply row_identity_kept_trans; [apply db_connect_identity |].
    eapply row_identity_kept_trans;
      [apply (foldl_item_step_identity (load_firestore_index fdb)
                (listed_items roasters) (run_start fdb file)) |].
    intros u r Hr. rewrite stale_phase_rows_lookup.
    cbn [with_succeeded st_conn]. unfold run_loop. rewrite Hr. cbn.
    eexists. split; [reflexivity |]. by destruct (stale_row _ _ _).
Qed.

(** ** The seen-sets of a run *)


(** Without the column [image], a turn of the loop changes the remote
    store only. *)
Lemma item_step_no_image existing st it :
  has_image (st_conn st) = false →
  st_conn (item_step existing st it) = st_conn st
  ∧ st_seen_ids (item_step existing st it) = st_seen_ids st
  ∧ st_seen_urls (item_step existing st it) = st_seen_urls st.
Proof.
  intros Himg. unfold item_step, upsert_firestore.
  destruct (firestore_raises it.2); [done |].
  destruct (ensure_row_sqlite _ _ _ _) as [conn'|] eqn:He; [| done].
  eapply ensure_row_sqlite_image in Himg. rewrite Himg in He. discriminate.
Qed.

Lemma foldl_item_step_no_image existing items st :
  has_image (st_conn st) = false →
  st_conn (foldl (item_step existing) st items) = st_conn st
  ∧ st_seen_ids (foldl (item_step existing) st items) = st_seen_ids st
  ∧ st_seen_urls (foldl (item_step existing) st items) = st_seen_urls st.
Proof.
  revert st. induction items as [|it items IH]; intros st Himg; [done |].
  cbn [foldl]. destruct (item_step_no_image existing st it Himg) as (Hc & Hi & Hu).
  destruct (IH (item_step existing st it)) as (Hc' & Hi' & Hu');
    [by rewrite Hc |].
  repeat split; congruence.
Qed.



Lemma with_rows_id conn : with_rows conn (rows conn) = conn.
Proof. by destruct conn. Qed.

Lemma stale_phase_no_keys st :
  st_seen_ids st = ∅ → st_seen_urls st = ∅ → stale_phase st = st.
Proof.
  intros Hi Hu. unfold stale_phase. case_bool_decide; [| reflexivity].
  rewrite Hi, Hu. unfold filter_succeeded. rewrite map_filter_empty.
  unfold mark_stale_by_roaster, mark_stale_sqlite. rewrite map_to_list_empty.
  cbn [foldl fst]. rewrite with_rows_id. destruct st. cbn in *. by subst.
Qed.

(** On a table without the column [image] (the table [SCHEMA] creates
    and [ensure_db_schema] completes), a run reports no new item, sends
    no message, leaves the local mirror exactly as it was opened, and
    its staleness pass changes nothing in the remote store either. *)
Theorem run_once_without_image_column (fdb : gmap string Doc) (file : Mirror)
    (roasters : list (RoasterConfig * Listing)) :
  has_image file = false →
  (run_new_items (run_once fdb file roasters) = []
   ∧ run_message (run_once fdb file roasters) = None
   ∧ run_return (run_once fdb file roasters) = 0%nat)
  ∧ run_conn (run_once fdb file roasters) = db_connect file
  ∧ run_fdb (run_once fdb file roasters) = st_fdb (scrape_phase fdb file roasters).
Proof.
  intros Himg.
  assert (has_image (st_conn (run_start fdb file)) = false) as Himg0.
  { cbn [run_start st_conn]. by rewrite db_connect_has_image. }
  destruct (foldl_item_step_no_image (load_firestore_index fdb) (listed_items roasters)
              (run_start fdb file) Himg0) as (Hc & Hi & Hu).
  assert (stale_phase (scrape_phase fdb file roasters) = scrape_phase fdb file roasters)
    as Hstale.
  { apply stale_phase_no_keys; rewrite scrape_phase_items;
      cbn [with_succeeded st_seen_ids st_seen_urls]; [by rewrite Hi | by rewrite Hu]. }
  assert (run_new_items (run_once fdb file roasters) = []) as Hnew.
  { by rewrite run_once_new_items_eq, Himg. }
  split; [| split].
  - split; [exact Hnew |]. unfold run_once in *.
    cbn [run_new_items run_message run_return] in *. by rewrite Hnew.
  - unfold run_once. cbn [run_conn]. rewrite Hstale, scrape_phase_items.
    cbn [with_succeeded st_conn]. by rewrite Hc.
  - unfold run_once. cbn [run_fdb]. by rewrite Hstale.
Qed.

Lemma run_once_without_image_column_witness :
  (run_new_items (run_once ∅ fresh_db first_run) = []
   ∧ run_message (run_once ∅ fresh_db first_run) = None
   ∧ run_return (run_once ∅ fresh_db first_run) = 0%nat)
  ∧ run_conn (run_once ∅ fresh_db first_run) = db_connect fresh_db
  ∧ run_fdb (run_once ∅ fresh_db first_run) = st_fdb (scrape_phase ∅ fresh_db first_run).
Proof. apply (run_once_without_image_column ∅ fresh_db first_run). reflexivity. Defined.





(** ** The upserts of the local mirror *)

Lemma ensure_row_sqlite_schema conn p first_seen last_seen conn' :
  ensure_row_sqlite conn p first_seen last_seen = Some conn' →
  has_price_text conn' = has_price_text conn ∧ has_image conn' = has_image conn.
Proof.
  unfold ensure_row_sqlite. intros He.
  destruct (rows conn !! url p); destruct (has_image conn) eqn:Himg; try discriminate;
    injection He as <-; cbn; by rewrite ?Himg.
Qed.

(** An upsert of the engine that has gone through is stable: the same
    product and [last_seen] written again, with whatever [first_seen],
    leave the database as the first upsert left it. *)
Lemma ensure_row_sqlite_idempotent (conn conn' : Mirror) (p : Product)
    (first_seen first_seen' last_seen : string) :
  ensure_row_sqlite conn p first_seen last_seen = Some conn' →
  ensure_row_sqlite conn' p first_seen' last_seen = Some conn'.
Proof.
  intros He. destruct (ensure_row_sqlite_schema _ _ _ _ _ He) as [Hpt Himg].
  unfold ensure_row_sqlite in *.
  destruct (rows conn !! url p) as [r|] eqn:Hr;
    destruct (has_image conn) eqn:Hi; try discriminate;
    injection He as <-; cbn [rows with_rows has_image has_price_text] in *;
    rewrite lookup_insert_eq, Hi; f_equal; apply mirror_eq; cbn; try done;
    rewrite insert_insert_eq; f_equal; unfold legacy_price;
    by destruct (has_price_text conn).
Qed.

(** The upsert of the sync is idempotent. *)
Lemma ensure_row_sqlite_from_doc_idempotent (conn : Mirror) (data : Doc) :
  ensure_row_sqlite_from_doc (ensure_row_sqlite_from_doc conn data) data
  = ensure_row_sqlite_from_doc conn data.
Proof.
  unfold ensure_row_sqlite_from_doc.
  destruct (rows conn !! doc_url data) as [r|] eqn:Hr;
    cbn [rows with_rows has_image has_price_text];
    rewrite lookup_insert_eq; apply mirror_eq; cbn; try done;
    rewrite insert_insert_eq; f_equal; unfold legacy_price;
    by destruct (has_price_text conn).
Qed.

(** For a URL that has no row yet, the engine and the sync insert the
    same row for the same record, except that the sync leaves the column
    [image] null: it never mirrors the image of a document. *)
Theorem sync_upsert_matches_engine (conn conn' : Mirror) (p : Product)
    (first_seen last_seen : string) :
  rows conn !! url p = None →
  ensure_row_sqlite conn p first_seen last_seen = Some conn' →
  ∃ r, rows conn' !! url p = Some r
       ∧ rows (ensure_row_sqlite_from_doc conn (doc_of_product p first_seen last_seen))
           !! url p
         = Some (mkRow (row_roaster r) (row_title r) (row_price r) (row_in_stock r)
                   (row_first_seen r) (row_last_seen r) (row_producer r)
                   (row_country r) (row_region r) (row_process r) (row_variety r)
                   (row_notes r) (row_profile r) None (row_price_text r)
                   (row_tried r))
       ∧ row_image r = Some (image p).
Proof.
  intros Hnone He. unfold ensure_row_sqlite, ensure_row_sqlite_from_doc in *.
  cbn [doc_of_product doc_url]. rewrite Hnone in *.
  destruct (has_image conn); [| discriminate]. injection He as <-.
  cbn [rows with_rows]. rewrite !lookup_insert_eq.
  eexists. split; [reflexivity |]. split; [| reflexivity].
  cbn. by destruct (in_stock p).
Qed.

Lemma sync_upsert_matches_engine_witness :
  ∃ r, rows (default image_db (ensure_row_sqlite image_db (acme "A" "$16.00") t0 t1))
         !! url (acme "A" "$16.00") = Some r
       ∧ rows (ensure_row_sqlite_from_doc image_db
                 (doc_of_product (acme "A" "$16.00") t0 t1))
           !! url (acme "A" "$16.00")
         = Some (mkRow (row_roaster r) (row_title r) (row_price r) (row_in_stock r)
                   (row_first_seen r) (row_last_seen r) (row_producer r)
                   (row_country r) (row_region r) (row_process r) (row_variety r)
                   (row_notes r) (row_profile r) None (row_price_text r)
                   (row_tried r))
       ∧ row_image r = Some (image (acme "A" "$16.00")).
Proof.
  apply (sync_upsert_matches_engine image_db
           (default image_db (ensure_row_sqlite image_db (acme "A" "$16.00") t0 t1))
           (acme "A" "$16.00") t0 t1); reflexivity.
Defined.

(** The migration done on opening is idempotent: opening an opened
    database changes nothing. *)
Lemma db_connect_idempotent (file : Mirror) :
  db_connect (db_connect file) = db_connect file.
Proof.
  unfold db_connect. destruct (has_price_text file) eqn:Hpt; [| by rewrite Hpt].
  cbn [has_price_text with_rows]. rewrite Hpt.
  apply mirror_eq; cbn [rows with_rows has_price_text has_image]; try done.
  apply map_eq. intros u. rewrite !sql_update_lookup.
  destruct (rows file !! u) as [r|]; [| reflexivity]. cbn. f_equal.
  unfold row_set_price, coalesce_price, truthy. cbn.
  destruct (row_price r) as [s|]; [destruct (nonempty s) eqn:Hs |]; cbn;
    rewrite ?Hs; try reflexivity;
    destruct (row_price_text r) as [s'|]; cbn; try reflexivity;
    by destruct (nonempty s').
Qed.

(* ===================================================================== *)
(** ** The columns the migration adds *)








(* ===================================================================== *)
(** ** Fetching with retries *)

Lemma backoff_S (k : nat) : backoff (S k) = (backoff k + (k + 1))%nat.
Proof.
  unfold backoff.
  replace (S k * (S k + 1))%nat with (k * (k + 1) + (k + 1) * 2)%nat by lia.
  by rewrite Nat.div_add.
Qed.

Lemma fetch_attempts_fail net (n : nat) :
  ∀ i, (∀ j, (i ≤ j < i + n)%nat → attempt_fails net j = true) →
       fetch_attempts net i n (backoff i) = (None, (i + n)%nat, backoff (i + n)).
Proof.
  induction n as [|n IH]; intros i Hfail; cbn [fetch_attempts].
  - by rewrite Nat.add_0_r.
  - assert (Hi : attempt_fails net i = true) by (apply Hfail; lia).
    unfold attempt_fails in Hi. rewrite <- backoff_S.
    replace (i + S n)%nat with (S i + n)%nat by lia.
    destruct (net i) as [[status text] |].
    + rewrite Hi. apply IH. intros j Hj. apply Hfail. lia.
    + apply IH. intros j Hj. apply Hfail. lia.
Qed.

Lemma fetch_attempts_success net (n : nat) :
  ∀ i k status text,
    (i ≤ k < i + n)%nat →
    (∀ j, (i ≤ j < k)%nat → attempt_fails net j = true) →
    net k = Some (status, text) → (status < 400)%nat →
    fetch_attempts net i n (backoff i) = (Some text, S k, backoff k).
Proof.
  induction n as [|n IH]; intros i k status text Hk Hfail Hnet Hok; [lia |].
  cbn [fetch_attempts].
  destruct (decide (i = k)) as [-> | Hne].
  - rewrite Hnet. by rewrite (proj2 (Nat.leb_gt 400 status) Hok).
  - assert (Hi : attempt_fails net i = true) by (apply Hfail; lia).
    unfold attempt_fails in Hi. rewrite <- backoff_S.
    destruct (net i) as [[status' text'] |].
    + rewrite Hi. apply (IH (S i) k status text); [lia | | done | done].
      intros j Hj. apply Hfail. lia.
    + apply (IH (S i) k status text); [lia | | done | done].
      intros j Hj. apply Hfail. lia.
Qed.

(** [fetch_html] returns the text of the first attempt that neither
    raises nor has a status of 400 or more, after one request per attempt
    and a sleep of [j + 1] seconds after each failed attempt [j]. *)
Theorem fetch_html_first_success (net : nat → option (nat * string))
    (retries k status : nat) (text : string) :
  (k < retries)%nat →
  (∀ j, (j < k)%nat → attempt_fails net j = true) →
  net k = Some (status, text) →
  (status < 400)%nat →
  fetch_html net retries = (Some text, S k, backoff k).
Proof.
  intros Hk Hfail Hnet Hok. unfold fetch_html.
  apply (fetch_attempts_success net retries 0 k status text); [lia | | done | done].
  intros j Hj. apply Hfail. lia.
Qed.

Lemma fetch_html_first_success_witness :
  fetch_html flaky_net 3 = (Some "<html></html>", 3%nat, backoff 2).
Proof.
  apply (fetch_html_first_success flaky_net 3 2 200 "<html></html>").
  - lia.
  - intros [|[|j]] Hj; [reflexivity | reflexivity | lia].
  - reflexivity.
  - lia.
Defined.

(** When every attempt fails, [fetch_html] raises after [retries]
    requests, having slept after the last one too; with no attempt
    allowed it raises without a request. *)
Theorem fetch_html_gives_up (net : nat → option (nat * string)) (retries : nat) :
  (∀ j, (j < retries)%nat → attempt_fails net j = true) →
  fetch_html net retries = (None, retries, backoff retries).
Proof.
  intros Hfail. unfold fetch_html.
  apply (fetch_attempts_fail net retries 0). intros j Hj. apply Hfail. lia.
Qed.

Lemma fetch_html_gives_up_witness :
  fetch_html dead_net 3 = (None, 3%nat, backoff 3).
Proof. apply (fetch_html_gives_up dead_net 3). intros j _. reflexivity. Defined.

(* ===================================================================== *)
(** ** The notification of a run *)

(** What a run hands to [requests.post] for its new items, when a
    topic is set: the title the composer built, and as click link the
    site's page of the first six new items, in the order they were found.
    The primary identifier the composer returns takes no part in the
    link; without a site the link is the configured click URL, if any.
    The request is posted unless [requests.post] raises for it. *)
Theorem notify_new_items_request (post_raises : Request → bool) (env : Env)
    (new_items : list (Product * string)) (topic : string) :
  new_items ≠ [] →
  truthy (NTFY_TOPIC env) = Some topic →
  ∃ req, notify_new_items post_raises env new_items
         = (if post_raises req then None else Some req)
         ∧ req_url req
           = rstrip_slash (default "https://ntfy.sh" (truthy (NTFY_SERVER env)))
             +:+ "/" +:+ topic
         ∧ req_title req = (build_ntfy_message new_items).1.1
         ∧ req_body req = join newline (build_ntfy_message new_items).1.2
         ∧ req_click req
           = match truthy (SITE_BASE_URL env) with
             | Some site =>
                 Some (rstrip_slash site +:+ "/?ids=" +:+ join "," (take 6 new_items.*2))
             | None => truthy (NTFY_CLICK_URL env)
             end.
Proof.
  intros Hne Htopic. unfold notify_new_items.
  destruct new_items as [|it rest]; [done |].
  destruct (build_ntfy_message (it :: rest)) as [[title body_lines] first_id].
  unfold notify_ntfy. rewrite Htopic. eexists. split; [reflexivity |].
  cbn [req_url req_title req_body req_click fst snd].
  split; [done |]. split; [done |]. split; [done |].
  by destruct (truthy (SITE_BASE_URL env)).
Qed.

Lemma notify_new_items_request_witness :
  ∃ req, notify_new_items post_ok site_env two_sources
         = (if post_ok req then None else Some req)
         ∧ req_url req
           = rstrip_slash (default "https://ntfy.sh" (truthy (NTFY_SERVER site_env)))
             +:+ "/" +:+ "coffee"
         ∧ req_title req = (build_ntfy_message two_sources).1.1
         ∧ req_body req = join newline (build_ntfy_message two_sources).1.2
         ∧ req_click req
           = match truthy (SITE_BASE_URL site_env) with
             | Some site =>
                 Some (rstrip_slash site +:+ "/?ids=" +:+ join "," (take 6 two_sources.*2))
             | None => truthy (NTFY_CLICK_URL site_env)
             end.
Proof.
  apply (notify_new_items_request post_ok site_env two_sources "coffee").
  - discriminate.
  - reflexivity.
Defined.

(* ===================================================================== *)
(** ** The destructive commands *)

Lemma foldl_delete_lookup {A} (l : list (string * A)) :
  ∀ (m : gmap string A) (k : string),
    foldl (fun m d => delete d.1 m) m l !! k
    = if bool_decide (k ∈ l.*1) then None else m !! k.
Proof.
  induction l as [|d l IH]; intros m k; cbn [foldl fmap list_fmap].
  - rewrite bool_decide_eq_false_2; [done | apply not_elem_of_nil].
  - rewrite IH. case_bool_decide as Hin.
    + rewrite bool_decide_eq_true_2; [done | by apply elem_of_cons; right].
    + destruct (decide (k = d.1)) as [-> | Hne].
      * rewrite bool_decide_eq_true_2; [| by apply elem_of_cons; left].
        apply lookup_delete_eq.
      * rewrite bool_decide_eq_false_2; [by apply lookup_delete_ne |].
        intros [? | ?]%elem_of_cons; done.
Qed.

Lemma foldl_delete_size {A} (l : list (string * A)) :
  ∀ m : gmap string A,
    NoDup l.*1 → (∀ k, k ∈ l.*1 → is_Some (m !! k)) →
    (size (foldl (fun m d => delete d.1 m) m l) + length l = size m)%nat.
Proof.
  induction l as [|d l IH]; intros m Hnd Hin; cbn [foldl length].
  - lia.
  - cbn [fmap list_fmap] in Hnd, Hin. apply NoDup_cons in Hnd as [Hd Hnd].
    pose proof (IH (delete d.1 m) Hnd) as IH'.
    assert (Hd' : is_Some (m !! d.1)) by (apply Hin, elem_of_cons; by left).
    rewrite map_size_delete_Some in IH' by done.
    assert (size m ≠ 0)%nat by (apply map_size_ne_0_lookup; by exists d.1).
    assert (size (foldl (fun m d => delete d.1 m) (delete d.1 m) l) + length l
            = Nat.pred (size m))%nat; [| lia].
    apply IH'. intros k Hk.
    rewrite lookup_delete_ne; [apply Hin, elem_of_cons; by right |].
    intros Heq. by rewrite <- Heq in Hk.
Qed.

(** With a batch of at least one document, the loop of
    [clear_firestore_collection] ends, leaves the collection empty and has
    counted every document. *)
Lemma clear_turns_spec {A} (batch_size : nat) :
  (1 ≤ batch_size)%nat →
  ∀ (turns : nat) (col : gmap string A) (total : nat),
    (size col < turns)%nat →
    clear_turns turns col batch_size total = (∅, (total + size col)%nat, true).
Proof.
  intros Hbs. induction turns as [|turns IH]; intros col total Hsize; [lia |].
  cbn [clear_turns].
  destruct (take batch_size (map_to_list col)) as [|d docs] eqn:Hdocs.
  - assert (col = ∅) as ->.
    { apply map_to_list_empty_iff. destruct (map_to_list col); [done |].
      destruct batch_size; [lia | done]. }
    by rewrite map_size_empty, Nat.add_0_r.
  - rewrite <- Hdocs.
    pose proof (foldl_delete_size (take batch_size (map_to_list col)) col) as Hsz.
    rewrite fmap_take in Hsz.
    assert (Hsub : take batch_size (map_to_list col).*1 `sublist_of` (map_to_list col).*1)
      by apply sublist_take.
    assert (Hnd : NoDup (take batch_size (map_to_list col).*1))
      by (apply (sublist_NoDup _ _ (NoDup_fst_map_to_list col) Hsub)).
    specialize (Hsz Hnd).
    rewrite <- fmap_take in Hsz.
    assert (Hall : ∀ k, k ∈ (take batch_size (map_to_list col)).*1 → is_Some (col !! k)).
    { intros k Hk. rewrite fmap_take in Hk.
      eapply elem_of_sublist in Hk; [| exact Hsub].
      apply list_elem_of_fmap in Hk as ([k' v] & -> & Hkv).
      apply elem_of_map_to_list in Hkv. by exists v. }
    specialize (Hsz Hall).
    assert (Hlen : (1 ≤ length (take batch_size (map_to_list col)))%nat)
      by (rewrite Hdocs; cbn; lia).
    rewrite IH; [| lia]. f_equal. f_equal. lia.
Qed.

(** [clear_firestore_collection] with a batch size of at least one
    returns, whatever the collection: it leaves it empty and returns the
    number of documents it had. *)
Theorem clear_firestore_collection_empties {A} (col : gmap string A)
    (batch_size fuel : nat) :
  (1 ≤ batch_size)%nat →
  (size col < fuel)%nat →
  clear_firestore_collection fuel col batch_size = Some (∅, size col).
Proof.
  intros Hbs Hfuel. unfold clear_firestore_collection.
  by rewrite (clear_turns_spec batch_size Hbs fuel col 0 Hfuel).
Qed.

Lemma clear_firestore_collection_empties_witness :
  clear_firestore_collection 3 ({[ "ida" := 1%nat; "idb" := 2%nat ]} : gmap string nat) 1
  = Some (∅, size ({[ "ida" := 1%nat; "idb" := 2%nat ]} : gmap string nat)).
Proof.
  apply (clear_firestore_collection_empties
           ({[ "ida" := 1%nat; "idb" := 2%nat ]} : gmap string nat) 1 3).
  - lia.
  - vm_compute. lia.
Defined.

Lemma db_files_distinct (p : string) :
  p ≠ p +:+ "-wal" ∧ p ≠ p +:+ "-shm" ∧ p +:+ "-wal" ≠ p +:+ "-shm".
Proof.
  split; [| split].
  - intros H. rewrite <- (append_empty_r p) in H at 1. by apply String.app_inj in H.
  - intros H. rewrite <- (append_empty_r p) in H at 1. by apply String.app_inj in H.
  - intros H. by apply String.app_inj in H.
Qed.

Lemma delete_files_spec (remove_raises : string → bool) (fs0 : gset string)
    (l : list string) :
  ∀ (fs : gset string) (n : nat),
    NoDup l → (∀ f, f ∈ l → f ∈ fs ↔ f ∈ fs0) →
    let res := foldl (fun (acc : gset string * nat) p =>
                        let '(fs', removed) := _delete_file remove_raises acc.1 p in
                        if removed then (fs', S acc.2) else (fs', acc.2))
                     (fs, n) l in
    (∀ f, f ∈ res.1 ↔ f ∈ fs ∧ (f ∈ l → remove_raises f = true))
    ∧ res.2 = (n + length (filter (fun f => f ∈ fs0 ∧ remove_raises f = false) l))%nat.
Proof.
  induction l as [|p l IH]; intros fs n Hnd Hfs; cbn [foldl].
  - split; [| cbn; lia]. intros f. cbn [fst]. rewrite elem_of_nil. tauto.
  - apply NoDup_cons in Hnd as [Hp Hnd]. cbn [fst snd].
    assert (Hp0 : p ∈ fs ↔ p ∈ fs0) by (apply Hfs, elem_of_cons; by left).
    rewrite filter_cons.
    destruct (_delete_file remove_raises fs p) as [fs' removed] eqn:Hdel.
    unfold _delete_file in Hdel.
    case_bool_decide as Hin; [destruct (remove_raises p) eqn:Hraise |];
      injection Hdel as <- <-.
    + destruct (IH fs n Hnd) as [Hmem Hcount].
      { intros f Hf. apply Hfs, elem_of_cons. by right. }
      split.
      * intros f. rewrite Hmem, elem_of_cons. split.
        -- intros [Hf Hl]. split; [done |]. intros [-> | ?]; auto.
        -- intros [Hf Hl]. split; [done |]. auto.
      * rewrite Hcount. rewrite decide_False; [done |]. intros [_ ?]. congruence.
    + destruct (IH (fs ∖ {[p]}) (S n) Hnd) as [Hmem Hcount].
      { intros f Hf. rewrite elem_of_difference, elem_of_singleton.
        rewrite <- (Hfs f) by (apply elem_of_cons; by right).
        split; [tauto |]. intros Hffs. split; [done |]. by intros ->. }
      split.
      * intros f. rewrite Hmem, elem_of_difference, elem_of_singleton, elem_of_cons. split.
        -- intros [[Hf Hne] Hl]. split; [done |]. intros [? | ?]; [done | auto].
        -- intros [Hf Hl]. split; [split; [done |] | auto].
           intros ->. rewrite Hl in Hraise by auto. done.
      * rewrite Hcount. rewrite decide_True by tauto. cbn [length]. lia.
    + destruct (IH fs n Hnd) as [Hmem Hcount].
      { intros f Hf. apply Hfs, elem_of_cons. by right. }
      split.
      * intros f. rewrite Hmem, elem_of_cons. split.
        -- intros [Hf Hl]. split; [done |]. intros [-> | ?]; [done | auto].
        -- intros [Hf Hl]. split; [done |]. auto.
      * rewrite Hcount. by rewrite decide_False by tauto.
Qed.

Lemma clear_local_sqlite_spec remove_raises db_path_default env (fs : gset string) :
  let db_path := default db_path_default (truthy (COFFEE_DB env)) in
  (∀ f, f ∈ (clear_local_sqlite remove_raises db_path_default env fs).1
        ↔ f ∈ fs ∧ (f ∈ db_files db_path → remove_raises f = true))
  ∧ (clear_local_sqlite remove_raises db_path_default env fs).2
    = length (filter (fun f => f ∈ fs ∧ remove_raises f = false) (db_files db_path)).
Proof.
  intros db_path. unfold clear_local_sqlite. fold db_path.
  destruct (db_files_distinct db_path) as (H12 & H13 & H23).
  apply (delete_files_spec remove_raises fs (db_files db_path) fs 0); [| done].
  unfold db_files.
  apply NoDup_cons; split; [| apply NoDup_cons; split; [| apply NoDup_singleton]].
  - intros [? | [? | ?%elem_of_nil]%elem_of_cons]%elem_of_cons; done.
  - intros [? | ?%elem_of_nil]%elem_of_cons; done.
Qed.

(** [clear_local_sqlite] removes, of the database file and its two
    sidecars, those that exist and that [os.remove] does not refuse, and
    returns their number; a file it cannot remove stays, and no other
    file is touched. *)
Theorem clear_local_sqlite_effect (remove_raises : string → bool)
    (db_path_default : string) (env : Env) (fs : gset string) :
  let db_path := default db_path_default (truthy (COFFEE_DB env)) in
  (∀ f, f ∈ (clear_local_sqlite remove_raises db_path_default env fs).1
        ↔ f ∈ fs ∧ (f ∈ db_files db_path → remove_raises f = true))
  ∧ (clear_local_sqlite remove_raises db_path_default env fs).2
    = length (filter (fun f => f ∈ fs ∧ remove_raises f = false) (db_files db_path)).
Proof. apply clear_local_sqlite_spec. Qed.

Lemma purged_collection_main (env : Env) :
  purged_collection env (Some (default "coffees" (FIREBASE_COLLECTION env)))
  = default "coffees" (FIREBASE_COLLECTION env).
Proof.
  unfold purged_collection. cbn [truthy].
  destruct (nonempty (default "coffees" (FIREBASE_COLLECTION env))) eqn:Hne; done.
Qed.

(** [clear_datastores] never changes the tried collection, whatever the
    settings, the answer at the prompt and the failures of Firestore; it
    changes no other collection than the one [FIREBASE_COLLECTION] names;
    and without [force] and a typed yes it changes nothing at all. *)
Theorem clear_datastores_spares_tried {A} (remove_raises : string → bool)
    (db_path_default : string) (env : Env)
    (force answer_yes : bool) (raises_after : option nat) (s : Stores A) :
  let col := default "coffees" (FIREBASE_COLLECTION env) in
  let tried_col := default TRIED_DEFAULT_COLLECTION (FIREBASE_TRIED_COLLECTION env) in
  let s' := clear_datastores remove_raises db_path_default env force answer_yes
              raises_after s in
  collections s' !! tried_col = collections s !! tried_col
  ∧ (∀ name, name ≠ col → collections s' !! name = collections s !! name)
  ∧ clear_datastores remove_raises db_path_default env false false raises_after s = s.
Proof.
  intros col tried_col s'.
  assert (Hother : ∀ name, name ≠ col → collections s' !! name = collections s !! name).
  { intros name Hne. subst s'. unfold clear_datastores. fold col tried_col.
    case_bool_decide; [done |].
    destruct (negb force && negb answer_yes); [done |].
    unfold col. rewrite purged_collection_main. fold col.
    cbn [collections].
    destruct (collections s !! col); [| done].
    by rewrite lookup_insert_ne. }
  split; [| split; [exact Hother |]].
  - destruct (decide (col = tried_col)) as [Heq | Hne].
    + subst s'. unfold clear_datastores. fold col tried_col.
      by rewrite bool_decide_eq_true_2.
    + apply Hother. by intros ->.
  - unfold clear_datastores. by case_bool_decide.
Qed.

(** Confirmed, and with the two collections under different names,
    [clear_datastores] runs [clear_local_sqlite] on the files whether or
    not the purge of the collection raises: it removes those of the three
    database files that [os.remove] does not refuse; and when the purge
    does not raise it leaves the main collection empty. *)
Theorem clear_datastores_effect {A} (remove_raises : string → bool)
    (db_path_default : string) (env : Env)
    (force answer_yes : bool) (raises_after : option nat) (s : Stores A) :
  default "coffees" (FIREBASE_COLLECTION env)
    ≠ default TRIED_DEFAULT_COLLECTION (FIREBASE_TRIED_COLLECTION env) →
  force || answer_yes = true →
  let col := default "coffees" (FIREBASE_COLLECTION env) in
  let db_path := default db_path_default (truthy (COFFEE_DB env)) in
  (∀ f, f ∈ files (clear_datastores remove_raises db_path_default env force answer_yes
                     raises_after s)
        ↔ f ∈ files s ∧ (f ∈ db_files db_path → remove_raises f = true))
  ∧ collections (clear_datastores remove_raises db_path_default env force answer_yes
                   None s) !! col
    = (fun _ => ∅) <$> collections s !! col.
Proof.
  intros Hne Hgo col db_path.
  assert (Hask : negb force && negb answer_yes = false)
    by (destruct force, answer_yes; done).
  unfold clear_datastores. rewrite purged_collection_main. fold col.
  rewrite !bool_decide_eq_false_2 by done. rewrite Hask.
  cbn [files collections]. split.
  - apply clear_local_sqlite_spec.
  - destruct (collections s !! col) as [docs |] eqn:Hcol; rewrite ?Hcol; [| done].
    rewrite lookup_insert_eq. cbn [default from_option id fmap option_fmap option_map].
    by rewrite (clear_turns_spec 400 ltac:(lia) (S (size docs)) docs 0 ltac:(lia)).
Qed.

Lemma clear_datastores_effect_witness :
  (∀ f, f ∈ files (clear_datastores wal_locked "coffee.db" bare_env true false
                     (Some 0%nat) two_collections)
        ↔ f ∈ files two_collections
          ∧ (f ∈ db_files "coffee.db" → wal_locked f = true))
  ∧ collections (clear_datastores wal_locked "coffee.db" bare_env true false None
                   two_collections) !! "coffees"
    = (fun _ => ∅) <$> collections two_collections !! "coffees".
Proof.
  apply (clear_datastores_effect wal_locked "coffee.db" bare_env true false (Some 0%nat)
           two_collections).
  - discriminate.
  - reflexivity.
Defined.

(** Confirmed, [clear_tried] purges one collection and nothing else: the
    tried collection, unless its name is set to the empty string, and
    then the main collection.  No other collection and no file changes,
    and when Firestore does not fail the purged collection is left
    empty. *)
Theorem clear_tried_effect {A} (env : Env) (force answer_yes : bool) (s : Stores A) :
  force || answer_yes = true →
  let tried_col := default TRIED_DEFAULT_COLLECTION (FIREBASE_TRIED_COLLECTION env) in
  let target := if nonempty tried_col then tried_col
                else default "coffees" (FIREBASE_COLLECTION env) in
  let s' := (clear_tried env force answer_yes None s).1 in
  collections s' !! target = (fun _ => ∅) <$> collections s !! target
  ∧ (∀ name, name ≠ target → collections s' !! name = collections s !! name)
  ∧ files s' = files s
  ∧ (clear_tried env force answer_yes None s).2 = false.
Proof.
  intros Hgo tried_col target s'.
  assert (Hask : negb force && negb answer_yes = false)
    by (destruct force, answer_yes; done).
  assert (Htarget : purged_collection env (Some tried_col) = target).
  { unfold purged_collection, target. cbn [truthy]. by destruct (nonempty tried_col). }
  subst s'. unfold clear_tried. fold tried_col. rewrite Hask, Htarget.
  cbn [fst snd collections files].
  split; [| split; [| done]].
  - destruct (collections s !! target) as [docs |] eqn:Hcol; rewrite ?Hcol; [| done].
    rewrite lookup_insert_eq. cbn [default from_option id fmap option_fmap option_map].
    by rewrite (clear_turns_spec 400 ltac:(lia) (S (size docs)) docs 0 ltac:(lia)).
  - intros name Hname.
    destruct (collections s !! target); [| done].
    by rewrite lookup_insert_ne.
Qed.

Lemma clear_tried_effect_witness :
  let s' := (clear_tried blank_tried_env true false None two_collections).1 in
  collections s' !! "coffees" = (fun _ => ∅) <$> collections two_collections !! "coffees"
  ∧ (∀ name, name ≠ "coffees" → collections s' !! name = collections two_collections !! name)
  ∧ files s' = files two_collections
  ∧ (clear_tried blank_tried_env true false None two_collections).2 = false.
Proof.
  apply (clear_tried_effect blank_tried_env true false two_collections). reflexivity.
Defined.

(* ===================================================================== *)
(** ** The tried ledger *)

Lemma truthy_Some (o : option string) (s : string) :
  truthy o = Some s → o = Some s ∧ nonempty s = true.
Proof.
  destruct o as [x |]; cbn; [| done].
  destruct (nonempty x) eqn:Hx; [| done]. intros [= <-]. done.
Qed.

Lemma truthy_idem (o : option string) : truthy (truthy o) = truthy o.
Proof.
  destruct o as [x |]; cbn; [| done].
  destruct (nonempty x) eqn:Hx; [| done]. cbn. by rewrite Hx.
Qed.

(** The two ways [mark_tried] ends: with an exception and nothing
    written, or with the record of [ledger_id] written from what
    [ledger_doc] and [ledger_url] found. *)
Lemma mark_tried_cases main tried file id url notes rating e :
  let res := mark_tried main tried file id url notes rating e in
  let id1 := ledger_id id url in
  let found := ledger_doc main id url e in
  let u := ledger_url main id url e in
  if bool_decide (truthy id = None ∧ truthy url = None) || set_raises e
  then res = mkLedgerResult tried (db_connect file) true
  else
    res = mkLedgerResult
            ((if update_raises e then fun m => m
              else alter (fun td => td_set_history
                                      (array_union (td_history td)
                                                   (history_item_of e notes rating)) td) id1)
               (<[id1 := tried_set_merge (tried !! id1) id1 (default "" u)
                           (default "" (doc_roaster <$> found))
                           (default "" (doc_title <$> found))
                           (strftime_ISO (le_clock e)) notes rating]> tried))
            (match u with
             | Some u' => set_tried (db_connect file) u' 1
             | None => db_connect file
             end)
            false.
Proof.
  intros res id1 found u. subst res id1 found u.
  unfold mark_tried, ledger_url, ledger_doc, ledger_id, history_item_of, main_get.
  destruct (truthy id) as [i |] eqn:Hid; destruct (truthy url) as [u0 |] eqn:Hurl;
    try (apply truthy_Some in Hurl as [-> Hu0]);
    [ rewrite bool_decide_eq_false_2 by (by intros [? ?])
    | rewrite bool_decide_eq_false_2 by (by intros [? ?])
    | rewrite bool_decide_eq_false_2 by (by intros [? ?])
    | by rewrite bool_decide_eq_true_2 ];
    cbn [orb];
    destruct (set_raises e), (get1_raises e), (get2_raises e), (update_raises e);
    try destruct (main !! _) as [d |];
    cbn [truthy nonempty String.eqb negb str_or mbind option_bind default from_option
         Datatypes.id fmap option_fmap option_map];
    rewrite ?Hu0, ?Hurl; try reflexivity.
  all: unfold str_or, nonempty; cbn [truthy]; unfold nonempty;
    destruct (String.eqb (doc_title d) "") eqn:Ht;
    destruct (String.eqb (doc_url d) "") eqn:Hu;
    destruct (String.eqb (doc_roaster d) "") eqn:Hr;
    cbn [negb default from_option Datatypes.id]; rewrite ?Hu, ?Ht, ?Hr, ?Hu0; cbn [negb];
    try reflexivity.
  all: cbn [truthy]; unfold nonempty; rewrite ?Hu;
    cbn [negb default from_option Datatypes.id]; reflexivity.
Qed.

(** [mark_tried] raises only when it is given neither an id nor a URL,
    or when the write of the record raises: a failure of the lookups in
    the main collection or of the update of the history is swallowed.
    When it raises, the ledger is as before and the local database has
    only been opened. *)
Theorem mark_tried_raises_iff (main : gmap string Doc) (tried : gmap string TriedDoc)
    (file : Mirror) (id url : option string) (notes : string) (rating : option Z)
    (e : LedgerEnv) :
  let res := mark_tried main tried file id url notes rating e in
  (lr_raised res = true
   ↔ (truthy id = None ∧ truthy url = None) ∨ set_raises e = true)
  ∧ (lr_raised res = true → lr_tried res = tried ∧ lr_conn res = db_connect file).
Proof.
  intros res. subst res.
  pose proof (mark_tried_cases main tried file id url notes rating e) as H.
  cbv zeta in H.
  case_bool_decide as Hnone; destruct (set_raises e) eqn:Hset;
    cbn [orb] in H; rewrite H; cbn [lr_raised lr_tried lr_conn];
    (split; [split |]); try done; auto.
  intros [? | ?]; done.
Qed.

Lemma array_union_prefix {A} `{EqDecision A} (l : list A) (x : A) :
  l `prefix_of` array_union l x ∧ (length (array_union l x) ≤ S (length l))%nat.
Proof.
  unfold array_union. case_bool_decide.
  - split; [done | lia].
  - split; [by apply prefix_app_r |]. rewrite length_app. cbn. lia.
Qed.

(** [mark_tried] never loses an entry of a history: for every record of
    the ledger, the history it had is a prefix of the history it has
    afterwards, which is longer by one entry at most. *)
Theorem mark_tried_keeps_history (main : gmap string Doc) (tried : gmap string TriedDoc)
    (file : Mirror) (id url : option string) (notes : string) (rating : option Z)
    (e : LedgerEnv) (id' : string) (td : TriedDoc) :
  tried !! id' = Some td →
  ∃ td', lr_tried (mark_tried main tried file id url notes rating e) !! id' = Some td'
         ∧ td_history td `prefix_of` td_history td'
         ∧ (length (td_history td') ≤ S (length (td_history td)))%nat.
Proof.
  intros Htd.
  pose proof (mark_tried_cases main tried file id url notes rating e) as H.
  cbv zeta in H.
  destruct (bool_decide _ || set_raises e); rewrite H; cbn [lr_tried].
  - exists td. split; [done |]. split; [done | lia].
  - destruct (decide (ledger_id id url = id')) as [Heq | Hne].
    + rewrite Heq. rewrite Htd.
      destruct (update_raises e).
      * rewrite lookup_insert_eq. eexists. split; [done |].
        cbn [tried_set_merge td_history fmap option_fmap option_map default
             from_option Datatypes.id]. split; [done | lia].
      * rewrite lookup_alter_eq, lookup_insert_eq. eexists. split; [done |].
        cbn [tried_set_merge td_history td_set_history fmap option_fmap option_map
             default from_option Datatypes.id].
        apply array_union_prefix.
    + exists td. split; [| split; [done | lia]].
      destruct (update_raises e).
      * by rewrite lookup_insert_ne.
      * by rewrite lookup_alter_ne, lookup_insert_ne.
Qed.

Lemma mark_tried_keeps_history_witness :
  ∃ td', lr_tried (mark_tried main_one ledger_one image_db (Some "ida") None "sweet"
                     (Some 4%Z) quiet_ledger) !! "ida" = Some td'
         ∧ [mkHistoryItem t0 (Some "bright") None] `prefix_of` td_history td'
         ∧ (length (td_history td') ≤ 2)%nat.
Proof.
  apply (mark_tried_keeps_history main_one ledger_one image_db (Some "ida") None "sweet"
           (Some 4%Z) quiet_ledger "ida"
           (mkTriedDoc "ida" "ua" "Acme" "A" t0 (Some "bright") None
              [mkHistoryItem t0 (Some "bright") None])).
  reflexivity.
Defined.

(** Marking by id alone: when the document is in the main collection and
    one of the two lookups goes through, the record gets the URL, the
    roaster and the title of the document, and the row of that URL, if
    there is one, is flagged as tried. *)
Theorem mark_tried_by_id_resolves (main : gmap string Doc)
    (tried : gmap string TriedDoc) (file : Mirror) (id url : option string)
    (notes : string) (rating : option Z) (e : LedgerEnv) (i : string) (d : Doc) :
  truthy id = Some i →
  truthy url = None →
  main !! i = Some d →
  get1_raises e && get2_raises e = false →
  set_raises e = false →
  let res := mark_tried main tried file id url notes rating e in
  (∃ td, lr_tried res !! i = Some td
         ∧ td_doc_id td = i ∧ td_url td = doc_url d
         ∧ td_roaster td = doc_roaster d ∧ td_title td = doc_title d
         ∧ td_last_tried_on td = strftime_ISO (le_clock e))
  ∧ (doc_url d ≠ "" →
     rows (lr_conn res) !! doc_url d
     = row_set_tried 1 <$> rows (db_connect file) !! doc_url d).
Proof.
  intros Hid Hurl Hd Hget Hset res. subst res.
  pose proof (mark_tried_cases main tried file id url notes rating e) as H.
  cbv zeta in H.
  assert (Hid1 : ledger_id id url = i) by (unfold ledger_id; by rewrite Hid).
  assert (Hfound : ledger_doc main id url e = Some d).
  { unfold ledger_doc, main_get. rewrite Hurl, Hid1, Hd.
    destruct (get1_raises e), (get2_raises e); done. }
  assert (Hu : ledger_url main id url e = truthy (Some (doc_url d))).
  { unfold ledger_url. by rewrite Hurl, Hfound. }
  rewrite Hset, orb_false_r, bool_decide_eq_false_2 in H
    by (intros [Hn _]; by rewrite Hid in Hn).
  rewrite H, Hid1, Hfound, Hu. cbn [lr_tried lr_conn]. split.
  - assert (Hdef : default "" (truthy (Some (doc_url d))) = doc_url d).
    { cbn [truthy]. unfold nonempty.
      destruct (String.eqb (doc_url d) "") eqn:Hempty; cbn; [| done].
      by apply String.eqb_eq in Hempty. }
    destruct (update_raises e).
    + rewrite lookup_insert_eq. eexists. split; [done |].
      cbn [tried_set_merge td_doc_id td_url td_roaster td_title td_last_tried_on].
      by rewrite Hdef.
    + rewrite lookup_alter_eq, lookup_insert_eq. eexists. split; [done |].
      cbn [tried_set_merge td_set_history td_doc_id td_url td_roaster td_title
           td_last_tried_on].
      by rewrite Hdef.
  - intros Hne. cbn [truthy]. unfold nonempty.
    rewrite (proj2 (String.eqb_neq _ _) Hne). cbn [negb].
    unfold set_tried, with_rows. cbn [rows]. by rewrite lookup_alter_eq.
Qed.

Lemma mark_tried_by_id_resolves_witness :
  (∃ td, lr_tried (mark_tried main_one ∅ stored_mirror (Some "ida") None "" None
                     second_lookup_only) !! "ida" = Some td
         ∧ td_doc_id td = "ida" ∧ td_url td = "ua"
         ∧ td_roaster td = "Acme" ∧ td_title td = "A"
         ∧ td_last_tried_on td = t1)
  ∧ ("ua" ≠ "" →
     rows (lr_conn (mark_tried main_one ∅ stored_mirror (Some "ida") None "" None
                      second_lookup_only)) !! "ua"
     = row_set_tried 1 <$> rows (db_connect stored_mirror) !! "ua").
Proof.
  apply (mark_tried_by_id_resolves main_one ∅ stored_mirror (Some "ida") None "" None
           second_lookup_only "ida" (acme_doc "A" "ua" true t0 t1));
    reflexivity.
Defined.

(** Unmarking what has just been marked removes the whole record, its
    earlier history included; if the item had no record before, the
    ledger is back to what it was. *)
Theorem unmark_after_mark (main : gmap string Doc) (tried : gmap string TriedDoc)
    (file : Mirror) (id url : option string) (notes : string) (rating : option Z)
    (e e' : LedgerEnv) :
  ¬ (truthy id = None ∧ truthy url = None) →
  set_raises e = false →
  delete_raises e' = false →
  let m := mark_tried main tried file id url notes rating e in
  let r := unmark_tried main (lr_tried m) (lr_conn m) id url e' in
  lr_raised r = false
  ∧ lr_tried r = delete (ledger_id id url) tried
  ∧ (tried !! ledger_id id url = None → lr_tried r = tried).
Proof.
  intros Hgiven Hset Hdel m r.
  assert (Hr : lr_raised r = false ∧ lr_tried r = delete (ledger_id id url) (lr_tried m)).
  { subst r. unfold unmark_tried, ledger_id. rewrite Hdel.
    destruct (truthy id) as [i |] eqn:Hid; destruct (truthy url) as [u |] eqn:Hurl;
      try done.
    exfalso. by apply Hgiven. }
  destruct Hr as [Hraised Htried].
  assert (Hm : delete (ledger_id id url) (lr_tried m) = delete (ledger_id id url) tried).
  { subst m.
    pose proof (mark_tried_cases main tried file id url notes rating e) as H.
    cbv zeta in H.
    rewrite Hset, orb_false_r, bool_decide_eq_false_2 in H by done.
    rewrite H. cbn [lr_tried].
    destruct (update_raises e).
    - by rewrite delete_insert_eq.
    - by rewrite delete_alter_eq, delete_insert_eq. }
  split; [done |]. rewrite Htried, Hm. split; [done |].
  intros Hnone. by apply delete_id.
Qed.

Lemma unmark_after_mark_witness :
  let m := mark_tried main_one ledger_one image_db (Some "ida") None "sweet" (Some 4%Z)
             quiet_ledger in
  let r := unmark_tried main_one (lr_tried m) (lr_conn m) (Some "ida") None quiet_ledger in
  lr_raised r = false
  ∧ lr_tried r = delete (ledger_id (Some "ida") None) ledger_one
  ∧ (ledger_one !! ledger_id (Some "ida") None = None → lr_tried r = ledger_one).
Proof.
  apply (unmark_after_mark main_one ledger_one image_db (Some "ida") None "sweet"
           (Some 4%Z) quiet_ledger quiet_ledger).
  - intros [H _]. discriminate H.
  - reflexivity.
  - reflexivity.
Defined.

(* ===================================================================== *)
(** ** The listing of the ledger *)

Lemma not_older_trans (a b c : TriedLine) :
  not_older a b → not_older b c → not_older a c.
Proof.
  unfold not_older. intros Hab Hbc Hac.
  apply OrderedTypeEx.String_as_OT.cmp_lt in Hac.
  destruct (String.compare (line_key b) (line_key c)) eqn:Hbc'; [| done |].
  - apply OrderedTypeEx.String_as_OT.cmp_eq in Hbc'. rewrite <- Hbc' in Hac.
    by apply OrderedTypeEx.String_as_OT.cmp_lt in Hac.
  - rewrite String.compare_antisym in Hbc'.
    destruct (String.compare (line_key c) (line_key b)) eqn:Hcb; try done.
    apply OrderedTypeEx.String_as_OT.cmp_lt in Hcb.
    apply Hab. apply OrderedTypeEx.String_as_OT.cmp_lt.
    by eapply OrderedTypeEx.String_as_OT.lt_trans.
Qed.

Lemma insert_desc_perm (x : TriedLine) (l : list TriedLine) :
  insert_desc x l ≡ₚ x :: l.
Proof.
  induction l as [|y l IH]; cbn [insert_desc]; [done |].
  destruct (String.compare (line_key y) (line_key x)); try done.
  rewrite IH. apply Permutation_swap.
Qed.

Lemma sort_desc_perm (l : list TriedLine) : sort_desc l ≡ₚ l.
Proof.
  induction l as [|x l IH]; cbn; [done |].
  fold (sort_desc l). by rewrite insert_desc_perm, IH.
Qed.

Lemma insert_desc_sorted (x : TriedLine) (l : list TriedLine) :
  StronglySorted not_older l → StronglySorted not_older (insert_desc x l).
Proof.
  induction l as [|y l IH]; intros Hs; cbn [insert_desc].
  - repeat constructor.
  - apply StronglySorted_inv in Hs as [Hs Hy].
    destruct (String.compare (line_key y) (line_key x)) eqn:Hyx.
    + assert (Hxy : not_older x y).
      { unfold not_older. rewrite String.compare_antisym, Hyx. done. }
      constructor; [by constructor |]. constructor; [done |].
      eapply Forall_impl; [exact Hy |]. intros z Hz. by eapply not_older_trans.
    + assert (Hxy : not_older x y).
      { unfold not_older. rewrite String.compare_antisym, Hyx. done. }
      constructor; [by constructor |]. constructor; [done |].
      eapply Forall_impl; [exact Hy |]. intros z Hz. by eapply not_older_trans.
    + constructor; [by apply IH |].
      rewrite insert_desc_perm. constructor; [| done].
      unfold not_older. by rewrite Hyx.
Qed.

Lemma sort_desc_sorted (l : list TriedLine) : StronglySorted not_older (sort_desc l).
Proof.
  induction l as [|x l IH]; cbn; [constructor |].
  fold (sort_desc l). by apply insert_desc_sorted.
Qed.

(** [list_tried] prints the [limit] most recent records, most recent
    first: its lines followed by the lines it leaves out are the lines of
    all the records, each line not older than every line after it; a
    limit of zero or less prints nothing. *)
Theorem list_tried_most_recent_first (tried : gmap string TriedDoc) (limit : Z) :
  ∃ rest,
    list_tried tried limit ++ rest ≡ₚ tried_lines tried
    ∧ StronglySorted not_older (list_tried tried limit ++ rest)
    ∧ length (list_tried tried limit) = Nat.min (Z.to_nat limit) (size tried).
Proof.
  exists (drop (Z.to_nat (Z.max 0 limit)) (sort_desc (tried_lines tried))).
  unfold list_tried. fold (tried_lines tried).
  rewrite take_drop. split; [apply sort_desc_perm |]. split; [apply sort_desc_sorted |].
  rewrite length_take, (Permutation_length (sort_desc_perm _)).
  unfold tried_lines. rewrite length_fmap, length_map_to_list.
  f_equal. lia.
Qed.

(* ===================================================================== *)
(** ** The one-way sync *)

Lemma set_tried_lookup conn u v u' :
  rows (set_tried conn u v) !! u'
  = (fun r => if String.eqb u u' then row_set_tried v r else r) <$> rows conn !! u'.
Proof.
  unfold set_tried, with_rows. cbn [rows].
  destruct (String.eqb u u') eqn:Hu.
  - apply String.eqb_eq in Hu as ->. by rewrite lookup_alter_eq.
  - apply String.eqb_neq in Hu. rewrite lookup_alter_ne by done.
    by destruct (rows conn !! u').
Qed.

Lemma sync_tried_step_lookup acc td u :
  rows (sync_tried_step acc td).1 !! u
  = (fun r => if nonempty (td_url td.2) && String.eqb (td_url td.2) u
              then row_set_tried 1 r else r) <$> rows acc.1 !! u.
Proof.
  unfold sync_tried_step. destruct (nonempty (td_url td.2)); cbn [fst andb].
  - apply set_tried_lookup.
  - by destruct (rows acc.1 !! u).
Qed.

Lemma foldl_sync_tried_step_lookup (l : list (string * TriedDoc)) :
  ∀ acc u,
    rows (foldl sync_tried_step acc l).1 !! u
    = (fun r => if existsb (fun td => nonempty (td_url td.2) && String.eqb (td_url td.2) u) l
                then row_set_tried 1 r else r) <$> rows acc.1 !! u.
Proof.
  induction l as [|td l IH]; intros acc u; cbn [foldl existsb].
  - by destruct (rows acc.1 !! u).
  - rewrite IH, sync_tried_step_lookup.
    destruct (rows acc.1 !! u) as [r |]; [| done]. cbn. f_equal.
    destruct (nonempty (td_url td.2) && String.eqb (td_url td.2) u); cbn [orb]; [| done].
    by destruct (existsb _ l).
Qed.

Lemma existsb_in_ledger (tried : gmap string TriedDoc) (u : string) :
  existsb (fun td : string * TriedDoc =>
             nonempty (td_url td.2) && String.eqb (td_url td.2) u) (map_to_list tried) = true
  ↔ in_ledger tried u.
Proof.
  rewrite existsb_exists. unfold in_ledger. split.
  - intros ([id td] & Hin & Hc). apply list_elem_of_In, elem_of_map_to_list in Hin.
    apply andb_true_iff in Hc as [Hne Heq]. cbn [snd] in *.
    apply String.eqb_eq in Heq. subst u. split.
    + intros Hempty. unfold nonempty in Hne. by rewrite Hempty in Hne.
    + by exists id, td.
  - intros [Hne (id & td & Htd & Hu)]. exists (id, td). split.
    + by apply list_elem_of_In, elem_of_map_to_list.
    + cbn [snd]. rewrite Hu. apply andb_true_iff. split; [| apply String.eqb_refl].
      unfold nonempty. by rewrite (proj2 (String.eqb_neq _ _) Hne).
Qed.

(** When the ledger can be read, the sync recomputes the tried flags
    from scratch: afterwards a row is flagged exactly when some record of
    the ledger has its URL, whatever the flag was before, and an unflagged
    row has the flag 0. *)
Theorem sync_recomputes_tried_flags (fdb : gmap string Doc)
    (tried : gmap string TriedDoc) (file : Mirror) (u : string) (r : Row) :
  rows (sync_conn (sync_sqlite_from_firestore fdb tried file false)) !! u = Some r →
  (row_tried r = 1%Z ↔ in_ledger tried u)
  ∧ (row_tried r = 0%Z ↔ ¬ in_ledger tried u).
Proof.
  unfold sync_sqlite_from_firestore.
  destruct (mark_stale_sqlite _ _) as [conn1 stale_updates].
  destruct (foldl sync_tried_step (reset_tried conn1, 0%nat) (map_to_list tried))
    as [conn2 marked] eqn:Hfold.
  cbn [sync_conn].
  rewrite <- (f_equal fst Hfold : _ = conn2), foldl_sync_tried_step_lookup.
  cbn [fst]. unfold reset_tried, with_rows. cbn [rows]. rewrite sql_update_lookup.
  destruct (rows conn1 !! u) as [r1 |]; [| done]. cbn.
  pose proof (existsb_in_ledger tried u) as Hex.
  destruct (existsb _ (map_to_list tried)); intros [= <-]; cbn [row_tried row_set_tried].
  - split; split; try done; intros; [by apply Hex | exfalso; tauto].
  - assert (¬ in_ledger tried u) by (intros H; by apply Hex in H).
    split; split; done.
Qed.

Lemma sync_recomputes_tried_flags_witness :
  (row_tried (row_set_tried 1 (acme_row "A" 1 t0 t1)) = 1%Z ↔ in_ledger ledger_one "ua")
  ∧ (row_tried (row_set_tried 1 (acme_row "A" 1 t0 t1)) = 0%Z ↔ ¬ in_ledger ledger_one "ua").
Proof.
  apply (sync_recomputes_tried_flags main_one ledger_one stored_mirror "ua"
           (row_set_tried 1 (acme_row "A" 1 t0 t1))).
  vm_compute. reflexivity.
Defined.

Lemma same_keys_size (m1 m2 : gmap string Row) :
  (∀ u, is_Some (m1 !! u) ↔ is_Some (m2 !! u)) → size m1 = size m2.
Proof.
  intros H. rewrite <- !(size_dom (D := gset string)). f_equal.
  apply set_eq. intros u. by rewrite !elem_of_dom.
Qed.

Lemma db_connect_keys file u :
  is_Some (rows (db_connect file) !! u) ↔ is_Some (rows file !! u).
Proof.
  unfold db_connect. destruct (has_price_text file); [| done].
  unfold with_rows. cbn [rows]. by rewrite sql_update_lookup, fmap_is_Some.
Qed.

Lemma ensure_row_sqlite_from_doc_keys conn d u :
  is_Some (rows (ensure_row_sqlite_from_doc conn d) !! u)
  ↔ is_Some (rows conn !! u) ∨ doc_url d = u.
Proof.
  unfold ensure_row_sqlite_from_doc, with_rows.
  destruct (rows conn !! doc_url d) eqn:Hrow; cbn [rows];
    rewrite lookup_insert_is_Some; destruct (decide (doc_url d = u)); tauto.
Qed.

Lemma ensure_row_sqlite_from_doc_size conn d :
  size (rows (ensure_row_sqlite_from_doc conn d))
  = (size (rows conn) + if rows conn !! doc_url d is Some _ then 0 else 1)%nat.
Proof.
  unfold ensure_row_sqlite_from_doc, with_rows.
  destruct (rows conn !! doc_url d) eqn:Hrow; cbn [rows].
  - rewrite map_size_insert_Some by (by rewrite Hrow). lia.
  - rewrite map_size_insert_None by done. lia.
Qed.

(** The rows and the counter of insertions along the loop of the sync. *)
Lemma foldl_sync_doc_step_keys (l : list (string * Doc)) :
  ∀ st,
    (∀ u, is_Some (rows (sy_conn (foldl sync_doc_step st l)) !! u)
          ↔ is_Some (rows (sy_conn st) !! u) ∨ ∃ x, x ∈ l ∧ doc_url x.2 = u)
    ∧ (size (rows (sy_conn (foldl sync_doc_step st l))) + sy_inserted st
       = size (rows (sy_conn st)) + sy_inserted (foldl sync_doc_step st l))%nat.
Proof.
  induction l as [|x l IH]; intros st; cbn [foldl].
  - split; [| done]. intros u. split; [by left |].
    intros [? | (? & []%elem_of_nil & _)]. done.
  - destruct (IH (sync_doc_step st x)) as [Hkeys Hsize]. split.
    + intros u. rewrite Hkeys.
      change (sy_conn (sync_doc_step st x))
        with (ensure_row_sqlite_from_doc (sy_conn st) x.2).
      rewrite ensure_row_sqlite_from_doc_keys. split.
      * intros [[? | ?] | (y & Hy & ?)]; [by left | right; exists x | right; exists y].
        -- split; [by apply elem_of_cons; left | done].
        -- split; [by apply elem_of_cons; right | done].
      * intros [? | (y & [-> | Hy]%elem_of_cons & ?)]; [by left; left | by left; right |].
        right. by exists y.
    + revert Hsize.
      change (sy_conn (sync_doc_step st x))
        with (ensure_row_sqlite_from_doc (sy_conn st) x.2).
      change (sy_inserted (sync_doc_step st x))
        with (match select_summary (sy_conn st) (doc_url x.2) with
              | None => S (sy_inserted st)
              | Some _ => sy_inserted st
              end).
      rewrite ensure_row_sqlite_from_doc_size. unfold select_summary.
      destruct (rows (sy_conn st) !! doc_url x.2); cbn [fmap option_fmap option_map]; lia.
Qed.

Lemma foldl_sync_tried_step_keys l acc u :
  is_Some (rows (foldl sync_tried_step acc l).1 !! u) ↔ is_Some (rows acc.1 !! u).
Proof. by rewrite foldl_sync_tried_step_lookup, fmap_is_Some. Qed.

(** The sync deletes no row: afterwards the table has the rows it had
    and one for the URL of every document, and [inserted] is the number
    of rows it has gained, also when several documents share a URL or
    the ledger cannot be read. *)
Theorem sync_rows_cover_documents (fdb : gmap string Doc)
    (tried : gmap string TriedDoc) (file : Mirror) (tried_raises : bool) :
  let res := sync_sqlite_from_firestore fdb tried file tried_raises in
  (∀ u, is_Some (rows (sync_conn res) !! u)
        ↔ is_Some (rows file !! u) ∨ ∃ id d, fdb !! id = Some d ∧ doc_url d = u)
  ∧ size (rows (sync_conn res)) = (size (rows file) + inserted res)%nat.
Proof.
  intros res.
  set (st := foldl sync_doc_step (mkSyncState (db_connect file) 0 0 ∅) (map_to_list fdb)).
  assert (Hkeys : ∀ u, is_Some (rows (sync_conn res) !! u)
                       ↔ is_Some (rows (sy_conn st) !! u)).
  { intros u. subst res. unfold sync_sqlite_from_firestore. fold st.
    pose proof (mark_stale_sqlite_lookup (sy_conn st) (sy_urls st) u) as Hstale.
    destruct (mark_stale_sqlite (sy_conn st) (sy_urls st)) as [conn1 stale_updates].
    cbn [fst] in Hstale.
    assert (H1 : is_Some (rows conn1 !! u) ↔ is_Some (rows (sy_conn st) !! u))
      by (by rewrite Hstale, fmap_is_Some).
    destruct tried_raises; cbn [sync_conn]; [done |].
    destruct (foldl sync_tried_step (reset_tried conn1, 0%nat) (map_to_list tried))
      as [conn2 marked] eqn:Hfold.
    cbn [sync_conn]. rewrite <- (f_equal fst Hfold : _ = conn2).
    rewrite foldl_sync_tried_step_keys. cbn [fst].
    unfold reset_tried, with_rows. cbn [rows].
    by rewrite sql_update_lookup, fmap_is_Some. }
  assert (Hins : inserted res = sy_inserted st).
  { subst res. unfold sync_sqlite_from_firestore. fold st.
    destruct (mark_stale_sqlite (sy_conn st) (sy_urls st)) as [conn1 stale_updates].
    destruct tried_raises; [done |].
    by destruct (foldl sync_tried_step (reset_tried conn1, 0%nat) (map_to_list tried)). }
  destruct (foldl_sync_doc_step_keys (map_to_list fdb)
              (mkSyncState (db_connect file) 0 0 ∅)) as [Hst Hsize].
  fold st in Hst, Hsize. cbn [sy_conn sy_inserted] in Hst, Hsize. split.
  - intros u. rewrite Hkeys, Hst, db_connect_keys. split.
    + intros [? | ([id d] & Hin & ?)]; [by left | right].
      apply elem_of_map_to_list in Hin. by exists id, d.
    + intros [? | (id & d & Hd & ?)]; [by left | right].
      exists (id, d). split; [by apply elem_of_map_to_list | done].
  - rewrite (same_keys_size _ _ Hkeys), Hins.
    rewrite <- (same_keys_size _ _ (db_connect_keys file)). lia.
Qed.

Lemma foldl_sync_doc_step_frame (l : list (string * Doc)) (u : string) :
  ∀ st, (∀ x, x ∈ l → doc_url x.2 ≠ u) →
        rows (sy_conn (foldl sync_doc_step st l)) !! u = rows (sy_conn st) !! u.
Proof.
  induction l as [|x l IH]; intros st Hl; cbn [foldl]; [done |].
  rewrite IH by (intros y Hy; apply Hl, elem_of_cons; by right).
  change (sy_conn (sync_doc_step st x))
    with (ensure_row_sqlite_from_doc (sy_conn st) x.2).
  assert (Hx : doc_url x.2 ≠ u) by (apply Hl, elem_of_cons; by left).
  unfold ensure_row_sqlite_from_doc, with_rows.
  destruct (rows (sy_conn st) !! doc_url x.2); cbn [rows]; by rewrite lookup_insert_ne.
Qed.

Lemma ensure_row_sqlite_from_doc_mirrors conn d :
  ∃ r, rows (ensure_row_sqlite_from_doc conn d) !! doc_url d = Some r
       ∧ row_mirrors r d
       ∧ row_in_stock r = (if doc_in_stock d then 1 else 0)%Z.
Proof.
  unfold ensure_row_sqlite_from_doc, with_rows.
  destruct (rows conn !! doc_url d); cbn [rows]; rewrite lookup_insert_eq;
    eexists; (split; [done |]); unfold row_mirrors; cbn; done.
Qed.

(** After the sync, the row of a document whose URL no other document
    has carries the title, the price, [last_seen], the coffee's details
    and also [first_seen] of the document; and if the document is out of
    stock, so is the row. *)
Theorem sync_mirrors_document (fdb : gmap string Doc) (tried : gmap string TriedDoc)
    (file : Mirror) (tried_raises : bool) (id : string) (d : Doc) :
  fdb !! id = Some d →
  (∀ id' d', fdb !! id' = Some d' → doc_url d' = doc_url d → id' = id) →
  ∃ r, rows (sync_conn (sync_sqlite_from_firestore fdb tried file tried_raises))
         !! doc_url d = Some r
       ∧ row_mirrors r d
       ∧ (doc_in_stock d = false → row_in_stock r = 0%Z).
Proof.
  intros Hd Huniq.
  set (P := fun r : Row => row_mirrors r d ∧ (doc_in_stock d = false → row_in_stock r = 0%Z)).
  assert (Hstock : ∀ r, P r → P (row_set_in_stock 0 r)) by (intros r [Hm Hs]; by split).
  assert (Htried : ∀ v r, P r → P (row_set_tried v r)) by (intros v r [Hm Hs]; by split).
  set (st := foldl sync_doc_step (mkSyncState (db_connect file) 0 0 ∅) (map_to_list fdb)).
  assert (Hst : ∃ r, rows (sy_conn st) !! doc_url d = Some r ∧ P r).
  { assert (Hin : (id, d) ∈ map_to_list fdb) by (by apply elem_of_map_to_list).
    apply list_elem_of_split in Hin as (l1 & l2 & Hsplit).
    subst st. rewrite Hsplit, foldl_app. cbn [foldl].
    rewrite foldl_sync_doc_step_frame.
    - change (sy_conn (sync_doc_step ?s (id, d)))
        with (ensure_row_sqlite_from_doc (sy_conn s) d).
      destruct (ensure_row_sqlite_from_doc_mirrors
                  (sy_conn (foldl sync_doc_step (mkSyncState (db_connect file) 0 0 ∅) l1)) d)
        as (r & Hr & Hm & Hs).
      exists r. split; [done |]. split; [done |]. intros Hout. by rewrite Hs, Hout.
    - intros [id' d'] Hin' Hurl. cbn [snd] in Hurl.
      assert (Hfdb : fdb !! id' = Some d').
      { apply elem_of_map_to_list. rewrite Hsplit.
        apply elem_of_app. right. apply elem_of_cons. by right. }
      assert (id' = id) as -> by (by eapply Huniq).
      pose proof (NoDup_fst_map_to_list fdb) as Hnd.
      rewrite Hsplit, fmap_app, fmap_cons in Hnd.
      apply NoDup_app in Hnd as (_ & _ & Hnd). apply NoDup_cons in Hnd as [Hnot _].
      apply Hnot. apply list_elem_of_fmap. by exists (id, d'). }
  destruct Hst as (r & Hr & HP).
  unfold sync_sqlite_from_firestore. fold st.
  pose proof (mark_stale_sqlite_lookup (sy_conn st) (sy_urls st) (doc_url d)) as Hstale.
  destruct (mark_stale_sqlite (sy_conn st) (sy_urls st)) as [conn1 stale_updates].
  cbn [fst] in Hstale. rewrite Hr in Hstale. cbn in Hstale.
  assert (H1 : ∃ r1, rows conn1 !! doc_url d = Some r1 ∧ P r1).
  { eexists. split; [exact Hstale |]. destruct (stale_row _ _ _); auto. }
  destruct H1 as (r1 & Hr1 & HP1).
  destruct tried_raises; cbn [sync_conn]; [by exists r1 |].
  destruct (foldl sync_tried_step (reset_tried conn1, 0%nat) (map_to_list tried))
    as [conn2 marked] eqn:Hfold.
  cbn [sync_conn]. rewrite <- (f_equal fst Hfold : _ = conn2).
  rewrite foldl_sync_tried_step_lookup. cbn [fst].
  unfold reset_tried, with_rows. cbn [rows]. rewrite sql_update_lookup, Hr1. cbn.
  eexists. split; [done |]. destruct (existsb _ _); auto.
Qed.

Lemma sync_mirrors_document_witness :
  ∃ r, rows (sync_conn (sync_sqlite_from_firestore main_one ledger_one stored_mirror false))
         !! doc_url (acme_doc "A" "ua" true t0 t1) = Some r
       ∧ row_mirrors r (acme_doc "A" "ua" true t0 t1)
       ∧ (doc_in_stock (acme_doc "A" "ua" true t0 t1) = false → row_in_stock r = 0%Z).
Proof.
  apply (sync_mirrors_document main_one ledger_one stored_mirror false "ida"
           (acme_doc "A" "ua" true t0 t1)).
  - reflexivity.
  - intros id' d' Hd' _. unfold main_one in Hd'.
    apply lookup_singleton_Some in Hd' as [<- _]. reflexivity.
Defined.

(* ===================================================================== *)
(** ** The simulation *)

Lemma simulate_new_drop_eq post_raises env fdb file count roasters ts world :
  simulate_new_drop post_raises env fdb file count roasters ts world
  = let st := foldl (sim_step (load_firestore_index fdb) ts (sim_roasters roasters) world)
                    (mkSimState fdb (db_connect file) [] false)
                    (seq 0 (Z.to_nat count)) in
    if sim_raised st then mkSimResult (sim_fdb st) (sim_conn st) None None
    else mkSimResult (sim_fdb st) (sim_conn st) (Some (length (sim_new_items st)))
                     (notify_new_items post_raises env (sim_new_items st)).
Proof. unfold simulate_new_drop, sim_roasters. by destruct roasters. Qed.

(** Once a turn has raised, the loop is over. *)
Lemma foldl_sim_step_raised existing ts roasters world l st :
  sim_raised st = true → foldl (sim_step existing ts roasters world) st l = st.
Proof.
  revert st. induction l as [|i l IH]; intros st Hst; cbn [foldl]; [done |].
  assert (Hstep : sim_step existing ts roasters world st i = st)
    by (unfold sim_step; by rewrite Hst).
  rewrite Hstep. by apply IH.
Qed.

(** On a table without the column [image] (the table [SCHEMA] creates
    and [ensure_db_schema] migrates), a simulation of at least one coffee
    ends with an exception in its first turn: nothing is posted, the
    table is as it was opened, and the remote store has at most gained the
    first fake coffee. *)
Theorem simulate_new_drop_without_image_column (post_raises : Request → bool)
    (env : Env) (fdb : gmap string Doc)
    (file : Mirror) (count : Z) (roasters : list string) (ts : nat)
    (world : nat → datetime * bool) :
  has_image file = false →
  (0 < count)%Z →
  let res := simulate_new_drop post_raises env fdb file count roasters ts world in
  let fake := fake_product ts (sim_roasters roasters) 0 in
  let now := strftime_ISO (world 0%nat).1 in
  simr_return res = None
  ∧ simr_request res = None
  ∧ simr_conn res = db_connect file
  ∧ simr_fdb res
    = if (world 0%nat).2 then fdb
      else <[Product_id fake :=
               doc_of_product fake
                 (first_seen_of (load_firestore_index fdb) (Product_id fake) now) now]> fdb.
Proof.
  intros Himg Hcount res fake now. subst res.
  rewrite simulate_new_drop_eq. cbv zeta.
  destruct (Z.to_nat count) as [|n] eqn:Hn; [lia |].
  cbn [seq foldl].
  set (st1 := sim_step _ _ _ _ _ 0%nat).
  assert (Hst1 : st1 = mkSimState
                         (if (world 0%nat).2 then fdb
                          else <[Product_id fake :=
                                   doc_of_product fake
                                     (first_seen_of (load_firestore_index fdb)
                                                    (Product_id fake) now) now]> fdb)
                         (db_connect file) [] true).
  { subst st1. unfold sim_step. cbn [sim_raised sim_fdb sim_conn sim_new_items].
    fold fake now. unfold upsert_firestore.
    destruct (world 0%nat).2; [done |].
    assert (He : ensure_row_sqlite (db_connect file) fake
                   (first_seen_of (load_firestore_index fdb) (Product_id fake) now) now
                 = None)
      by (apply ensure_row_sqlite_image; by rewrite db_connect_has_image).
    by rewrite He. }
  rewrite foldl_sim_step_raised by (by rewrite Hst1).
  rewrite Hst1. cbn [sim_raised simr_return simr_request simr_conn simr_fdb sim_fdb sim_conn].
  done.
Qed.

Lemma simulate_new_drop_without_image_column_witness :
  let res := simulate_new_drop post_ok site_env ∅ fresh_db 2 [] 1700 calm_world in
  let fake := fake_product 1700 (sim_roasters []) 0 in
  let now := strftime_ISO (calm_world 0%nat).1 in
  simr_return res = None
  ∧ simr_request res = None
  ∧ simr_conn res = db_connect fresh_db
  ∧ simr_fdb res
    = if (calm_world 0%nat).2 then ∅
      else <[Product_id fake :=
               doc_of_product fake
                 (first_seen_of (load_firestore_index ∅) (Product_id fake) now) now]> ∅.
Proof.
  apply (simulate_new_drop_without_image_column post_ok site_env ∅ fresh_db 2 [] 1700
           calm_world).
  - reflexivity.
  - lia.
Defined.

Lemma foldl_sim_step_new_items (fdb0 : gmap string Doc) ts roasters world
    (l : list nat) :
  (∀ i, (world i).2 = false) →
  ∀ st, sim_raised st = false → has_image (sim_conn st) = true →
        let st' := foldl (sim_step (load_firestore_index fdb0) ts roasters world) st l in
        sim_raised st' = false
        ∧ sim_new_items st'
          = sim_new_items st
            ++ ((fun i => (fake_product ts roasters i, Product_id (fake_product ts roasters i)))
                  <$> filter (fun i => fdb0 !! Product_id (fake_product ts roasters i) = None) l).
Proof.
  intros Hworld. induction l as [|i l IH]; intros st Hraised Himg; cbn [foldl].
  - split; [done |]. by rewrite filter_nil, app_nil_r.
  - set (fake := fake_product ts roasters i).
    set (now := strftime_ISO (world i).1).
    set (first := first_seen_of (load_firestore_index fdb0) (Product_id fake) now).
    destruct (ensure_row_sqlite (sim_conn st) fake first now) as [conn' |] eqn:He;
      [| apply ensure_row_sqlite_image in He; congruence].
    assert (Hstep : sim_step (load_firestore_index fdb0) ts roasters world st i
                    = mkSimState (<[Product_id fake := doc_of_product fake first now]>
                                    (sim_fdb st))
                                 conn'
                                 (if bool_decide (load_firestore_index fdb0 !! Product_id fake
                                                  = None)
                                  then sim_new_items st ++ [(fake, Product_id fake)]
                                  else sim_new_items st)
                                 false).
    { unfold sim_step. rewrite Hraised. fold fake now first.
      unfold upsert_firestore. rewrite Hworld. by rewrite He. }
    rewrite Hstep.
    apply ensure_row_sqlite_schema in He as [_ Himg'].
    destruct (IH (mkSimState (<[Product_id fake := doc_of_product fake first now]>
                                (sim_fdb st)) conn'
                             (if bool_decide (load_firestore_index fdb0 !! Product_id fake
                                              = None)
                              then sim_new_items st ++ [(fake, Product_id fake)]
                              else sim_new_items st) false)) as [Hr Hn];
      [done | cbn [sim_conn]; congruence |].
    split; [exact Hr |]. rewrite Hn. cbn [sim_new_items].
    rewrite filter_cons. fold fake.
    unfold load_firestore_index. rewrite lookup_fmap.
    destruct (fdb0 !! Product_id fake) as [d0 |] eqn:Hd0; cbn [fmap option_fmap option_map].
    + rewrite bool_decide_eq_false_2 by done. by rewrite decide_False by done.
    + rewrite bool_decide_eq_true_2 by done. rewrite decide_True by done.
      rewrite fmap_cons. by rewrite <- app_assoc.
Qed.

(** On a table with the column [image] and with Firestore answering, a
    simulation returns the number of its fake coffees whose id the remote
    store did not have when it started, and notifies of them as a run
    notifies of its new items: one request, posted unless [requests.post]
    raises for it. *)
Theorem simulate_new_drop_reports_new (post_raises : Request → bool) (env : Env)
    (fdb : gmap string Doc)
    (file : Mirror) (count : Z) (roasters : list string) (ts : nat)
    (world : nat → datetime * bool) :
  has_image file = true →
  (∀ i, (world i).2 = false) →
  let res := simulate_new_drop post_raises env fdb file count roasters ts world in
  simr_return res = Some (length (sim_news fdb ts roasters count))
  ∧ simr_request res = notify_new_items post_raises env (sim_news fdb ts roasters count).
Proof.
  intros Himg Hworld res. subst res. rewrite simulate_new_drop_eq. cbv zeta.
  destruct (foldl_sim_step_new_items fdb ts (sim_roasters roasters) world
              (seq 0 (Z.to_nat count)) Hworld
              (mkSimState fdb (db_connect file) [] false)) as [Hr Hn];
    [done | cbn [sim_conn]; by rewrite db_connect_has_image |].
  rewrite Hr. cbn [simr_return simr_request]. rewrite Hn. done.
Qed.

Lemma simulate_new_drop_reports_new_witness :
  let res := simulate_new_drop post_ok site_env ∅ image_db 2 [] 1700 calm_world in
  simr_return res = Some (length (sim_news ∅ 1700 [] 2))
  ∧ simr_request res = notify_new_items post_ok site_env (sim_news ∅ 1700 [] 2).
Proof.
  apply (simulate_new_drop_reports_new post_ok site_env ∅ image_db 2 [] 1700 calm_world).
  - reflexivity.
  - intros i. reflexivity.
Defined.
